(** * retraigo/preprocess: the Matrix container, multiplyDiags and the
      TF-IDF transformer, embedded from the TypeScript sources.

    JavaScript values are embedded as they behave at run time:
    - a [number] is an IEEE-754 binary64 value, here a [spec_float] handled
      with the Standard Library's specification of binary64 arithmetic;
    - a [bigint] is an unbounded integer, here a [Z];
    - a typed array is a fixed-length list of cells together with its
      constructor's element kind; every store into it converts the value the
      way the language does (wrap-around for the integer kinds, rounding to
      binary32 for Float32Array, a TypeError across the number/bigint
      divide);
    - counts and indices are integral numbers, here [Z];
    - a [throw] is the [Throw] outcome of the [Result] type. *)

From Stdlib Require Import ZArith Lia Bool String SpecFloat.
From stdpp Require Import base tactics option list list_numbers.

Local Open Scope Z_scope.

(** ** Outcomes of a call *)

Inductive Exn : Type :=
| TypeError
| RangeError
| Error (msg : string).

Inductive Result (A : Type) : Type :=
| Ok (a : A)
| Throw (e : Exn).
Arguments Ok {A} a.
Arguments Throw {A} e.

#[global] Instance Result_ret : MRet Result := @Ok.
#[global] Instance Result_bind : MBind Result := fun A B k r =>
  match r with
  | Ok a => k a
  | Throw e => Throw e
  end.

(** A [while (i < n) { body; i += 1 }] loop whose counter takes the values of
    [l] in turn; [s] is what the body updates. *)
Fixpoint foldM {A S : Type} (body : S -> A -> Result S) (l : list A) (s : S)
  : Result S :=
  match l with
  | [] => Ok s
  | i :: l' => s' ← body s i; foldM body l' s'
  end.

(** The loop that keeps what it had written when the body throws. *)
Fixpoint foldM_st {A S : Type} (body : S -> A -> Result S) (l : list A) (s : S)
  : Result unit * S :=
  match l with
  | [] => (Ok tt, s)
  | i :: l' =>
      match body s i with
      | Ok s' => foldM_st body l' s'
      | Throw e => (Throw e, s)
      end
  end.

(** ** Numbers: IEEE-754 binary64 *)

Module Num.
Definition prec : Z := 53.
Definition emax : Z := 1024.

Definition Number : Type := spec_float.

Definition add : Number -> Number -> Number := SFadd prec emax.
Definition mul : Number -> Number -> Number := SFmul prec emax.
Definition div : Number -> Number -> Number := SFdiv prec emax.

(** The number an integer literal or an integral count denotes (rounded to
    nearest, ties to even, when it has more than 53 significant bits). *)
Definition ofZ (z : Z) : Number := binary_normalize prec emax z 0 false.

Definition NaN : Number := S754_nan.
Definition zero : Number := S754_zero false.
Definition one : Number := ofZ 1.

(** The integral part, as the ToIntegerOrInfinity-style conversions take it
    before reducing modulo 2^w: NaN, the zeros and the infinities give 0. *)
Definition truncZ (x : Number) : Z :=
  match x with
  | S754_finite s m e =>
      cond_Zopp s
        match e with
        | Z0 => Zpos m
        | Zpos p => Zpos m * 2 ^ Zpos p
        | Zneg p => Zpos m / 2 ^ Zpos p
        end
  | _ => 0
  end.

(** Math.fround: the nearest binary32 value, written back as a binary64. *)
Definition fround (x : Number) : Number :=
  match x with
  | S754_finite s m e =>
      match binary_round 24 128 s m e with
      | S754_finite s' m' e' => binary_round prec emax s' m' e'
      | y => y
      end
  | _ => x
  end.

Definition valid (x : Number) : bool := valid_binary prec emax x.
End Num.
Export Num(Number).

(** ** Element kinds (common_types.ts: [DataType]) *)

Inductive DataType : Type :=
| u8 | u16 | u32 | u64 | i8 | i16 | i32 | i64 | f32 | f64.

#[global] Instance DataType_eq_dec : EqDecision DataType.
Proof. solve_decision. Defined.

(** [TypedArrayValueMapping]: the kinds whose values are bigints. *)
Definition is_wide (k : DataType) : bool :=
  match k with
  | u64 | i64 => true
  | _ => false
  end.

Definition is_float (k : DataType) : bool :=
  match k with
  | f32 | f64 => true
  | _ => false
  end.

Definition bits (k : DataType) : Z :=
  match k with
  | u8 | i8 => 8
  | u16 | i16 => 16
  | u32 | i32 | f32 => 32
  | u64 | i64 | f64 => 64
  end.

Definition is_signed (k : DataType) : bool :=
  match k with
  | i8 | i16 | i32 | i64 => true
  | _ => false
  end.

(** Reduction of an integer into a [w]-bit element (ToUint8 ... ToInt32,
    BigInt.asUintN and BigInt.asIntN). *)
Definition wrap (w : Z) (signed : bool) (z : Z) : Z :=
  let r := z mod 2 ^ w in
  if signed && (2 ^ (w - 1) <=? r) then r - 2 ^ w else r.

Definition wrap_kind (k : DataType) (z : Z) : Z := wrap (bits k) (is_signed k) z.

(** ** Run-time values *)

Inductive JsValue : Type :=
| JNumber (x : Number)
| JBigInt (z : Z)
| JUndefined.

(** [typeof v === "bigint"] *)
Definition typeof_bigint (v : JsValue) : bool :=
  match v with
  | JBigInt _ => true
  | _ => false
  end.

(** The binary operators [+], [*] and [/] on numeric operands: [undefined]
    becomes NaN, and a number mixed with a bigint is a TypeError. *)
Definition js_arith (fnum : Number -> Number -> Number)
    (fbig : Z -> Z -> Result Z) (a b : JsValue) : Result JsValue :=
  match a, b with
  | JBigInt x, JBigInt y => z ← fbig x y; Ok (JBigInt z)
  | JBigInt _, _ | _, JBigInt _ => Throw TypeError
  | JNumber x, JNumber y => Ok (JNumber (fnum x y))
  | JNumber x, JUndefined => Ok (JNumber (fnum x Num.NaN))
  | JUndefined, JNumber y => Ok (JNumber (fnum Num.NaN y))
  | JUndefined, JUndefined => Ok (JNumber (fnum Num.NaN Num.NaN))
  end.

Definition js_add : JsValue -> JsValue -> Result JsValue :=
  js_arith Num.add (fun x y => Ok (x + y)).
Definition js_mul : JsValue -> JsValue -> Result JsValue :=
  js_arith Num.mul (fun x y => Ok (x * y)).
Definition js_div : JsValue -> JsValue -> Result JsValue :=
  js_arith Num.div
    (fun x y => if y =? 0 then Throw RangeError else Ok (Z.quot x y)).

(** [Number(v)] *)
Definition js_Number (v : JsValue) : Number :=
  match v with
  | JNumber x => x
  | JBigInt z => Num.ofZ z
  | JUndefined => Num.NaN
  end.

(** ** Typed arrays *)

(** What one element of a typed array holds: an integer for the eight
    integer kinds, a binary64 (a binary32 value for f32) for the others. *)
Inductive Cell : Type :=
| CInt (z : Z)
| CFloat (x : Number).

Record TypedArray : Type := mkTA {
  ctor : DataType;
  cells : list Cell
}.

Definition zero_cell (k : DataType) : Cell :=
  if is_float k then CFloat Num.zero else CInt 0.

(** Reading an element gives a bigint for the wide kinds and a number for
    the others. *)
Definition load (k : DataType) (c : Cell) : JsValue :=
  match c with
  | CInt z => if is_wide k then JBigInt z else JNumber (Num.ofZ z)
  | CFloat x => JNumber x
  end.

(** Writing converts: ToBigInt then asIntN/asUintN for the wide kinds,
    ToNumber then the kind's integer or float conversion for the others. *)
Definition store (k : DataType) (v : JsValue) : Result Cell :=
  if is_wide k then
    match v with
    | JBigInt z => Ok (CInt (wrap_kind k z))
    | _ => Throw TypeError
    end
  else
    match v with
    | JBigInt _ => Throw TypeError
    | JNumber _ | JUndefined =>
        let x := js_Number v in
        Ok (match k with
            | f64 => CFloat x
            | f32 => CFloat (Num.fround x)
            | _ => CInt (wrap_kind k (Num.truncZ x))
            end)
    end.

(** [new Ctor(n)]: zero-filled; a negative length is a RangeError. *)
Definition ta_new (k : DataType) (n : Z) : Result TypedArray :=
  if n <? 0 then Throw RangeError
  else Ok (mkTA k (replicate (Z.to_nat n) (zero_cell k))).

Definition ta_length (a : TypedArray) : Z := Z.of_nat (length (cells a)).

(** [a[i]]: [undefined] outside the array. *)
Definition ta_get (a : TypedArray) (i : Z) : JsValue :=
  if i <? 0 then JUndefined
  else match cells a !! Z.to_nat i with
       | Some c => load (ctor a) c
       | None => JUndefined
       end.

(** [a[i] = v]: the value is converted first (which may throw); an index
    outside the array then writes nothing. *)
Definition ta_put (a : TypedArray) (i : Z) (v : JsValue) : Result TypedArray :=
  c ← store (ctor a) v;
  Ok (if i <? 0 then a else mkTA (ctor a) (<[Z.to_nat i := c]> (cells a))).

(** [a.slice(b, e)]: relative indices are clamped into the array; the result
    is a new array of the same kind. *)
Definition clamp_index (len i : Z) : Z :=
  if i <? 0 then Z.max (len + i) 0 else Z.min i len.

Definition ta_slice (a : TypedArray) (b : Z) (e : option Z) : TypedArray :=
  let len := ta_length a in
  let k := clamp_index len b in
  let final := match e with Some e => clamp_index len e | None => len end in
  let count := Z.max (final - k) 0 in
  mkTA (ctor a) (take (Z.to_nat count) (drop (Z.to_nat k) (cells a))).

(** The source of [a.set(source, offset)]: a plain array-like of values, or
    another typed array. *)
Inductive ArrayLike : Type :=
| Plain (vals : list JsValue)
| Typed (src : TypedArray).

Definition al_length (s : ArrayLike) : Z :=
  match s with
  | Plain vals => Z.of_nat (length vals)
  | Typed src => ta_length src
  end.

(** [s[i]] *)
Definition al_get (s : ArrayLike) (i : Z) : JsValue :=
  match s with
  | Plain vals =>
      if i <? 0 then JUndefined
      else match vals !! Z.to_nat i with Some v => v | None => JUndefined end
  | Typed src => ta_get src i
  end.

(** [a.set(source, offset)]. A negative offset or a source that does not fit
    is a RangeError before anything is written; then a typed source of the
    other content type (bigint against number) is a TypeError; a typed
    source of the same kind is copied as it is; otherwise the elements are
    stored one by one, and a value that fails to convert throws after the
    earlier ones were written. *)
Definition ta_set (a : TypedArray) (s : ArrayLike) (offset : Z)
  : Result unit * TypedArray :=
  match s with
  | Typed src =>
      if (offset <? 0) || (ta_length a <? ta_length src + offset) then (Throw RangeError, a)
      else if negb (Bool.eqb (is_wide (ctor a)) (is_wide (ctor src))) then (Throw TypeError, a)
      else if decide (ctor a = ctor src) then
        (Ok tt, mkTA (ctor a)
                  (take (Z.to_nat offset) (cells a) ++ cells src
                     ++ drop (Z.to_nat offset + length (cells src)) (cells a)))
      else
        foldM_st (fun a' k => ta_put a' (offset + k) (ta_get src k))
          (seqZ 0 (ta_length src)) a
  | Plain vals =>
      if (offset <? 0) || (ta_length a <? al_length s + offset) then (Throw RangeError, a)
      else
        foldM_st (fun a' k => ta_put a' (offset + k) (al_get s k))
          (seqZ 0 (al_length s)) a
  end.

(** [Ctor.from(values)] *)
Definition ta_from (k : DataType) (vals : list JsValue) : Result TypedArray :=
  cs ← mapM (store k) vals; Ok (mkTA k cs).

(** ** The Matrix class *)

Record Matrix : Type := mkMatrix {
  dType : DataType;
  nRows : Z;
  nCols : Z;
  data : TypedArray
}.

(** Modelled from the spec: [getDataType] and [getConstructor] are imported
    from files that are not among the sources; by section 4.1 the first
    infers the element-kind tag of a buffer and the second gives the
    zero-initialising allocator of a tag. *)
Definition getDataType (a : TypedArray) : DataType := ctor a.
Definition getConstructor (k : DataType) : DataType := k.

(** The first argument of [new Matrix(...)], by what the constructor tests:
    [ArrayBuffer.isView], [typeof data === "string"], [Array.isArray], an
    object with [data] and [shape]; [null] or [undefined], on which reading
    [data.data] throws; any other value. *)
Inductive CtorArg : Type :=
| ArgBuffer (buf : TypedArray)
| ArgTag (k : DataType)
| ArgNested (rows : list (list JsValue))
| ArgMatrixLike (buf : TypedArray) (sh : Z * Z)
| ArgNullish
| ArgOther.

(** The [config] argument: [{ shape?: [number, number]; dType?: DT }]. A
    shape is declared as a pair of numbers, so [typeof shape[1] === "number"]
    holds and the constructor takes [shape[1]] as the column count; the call
    of an untyped caller that leaves [shape[1]] out is [Matrix_new_derived]
    below. *)
Record Config : Type := mkConfig {
  shape : option (Z * Z);
  cfg_dType : option DataType
}.

Definition incomplete_shape : Exn :=
  Error "Cannot initialize with incomplete shape (n-rows, n-cols)".

Definition Matrix_new (arg : CtorArg) (config : Config) : Result Matrix :=
  match arg with
  | ArgBuffer buf =>
      match shape config with
      | None => Throw incomplete_shape
      | Some (r, c) => Ok (mkMatrix (getDataType buf) r c buf)
      end
  | ArgTag k =>
      match shape config with
      | None => Throw incomplete_shape
      | Some (r, c) =>
          buf ← ta_new (getConstructor k) (r * c);
          Ok (mkMatrix k r c buf)
      end
  | ArgNested rows =>
      match cfg_dType config with
      | None => Throw (Error "Cannot initialize without dType.")
      | Some k =>
          match rows with
          | [] => Throw TypeError
          | row0 :: _ =>
              buf ← ta_from (getConstructor k) (concat rows);
              Ok (mkMatrix k (Z.of_nat (length rows)) (Z.of_nat (length row0)) buf)
          end
      end
  | ArgMatrixLike buf (r, c) => Ok (mkMatrix (getDataType buf) r c buf)
  | ArgNullish => Throw TypeError
  | ArgOther => Throw (Error "No overload matches your call for `new Matrix()`.")
  end.

Definition with_shape (r c : Z) : Config := mkConfig (Some (r, c)) None.
Definition with_dType (k : DataType) : Config := mkConfig None (Some k).
Definition no_config : Config := mkConfig None None.

(** [new Matrix(buf, { shape: [rows] })]: the column count is
    [buf.length / rows]. The quotient is a count only when [rows] divides the
    length; otherwise it is a fraction, an infinity or NaN, which no matrix
    of this embedding has for a column count ([None]). *)
Definition Matrix_new_derived (buf : TypedArray) (rows : Z) : option (Result Matrix) :=
  if (rows =? 0) || negb (ta_length buf mod rows =? 0) then None
  else Some (Matrix_new (ArgBuffer buf) (with_shape rows (ta_length buf / rows))).

Definition Matrix_shape (m : Matrix) : Z * Z := (nRows m, nCols m).

(** [item(row, col)] *)
Definition item (m : Matrix) (row col : Z) : JsValue :=
  ta_get (data m) (row * nCols m + col).

(** [row(n)] *)
Definition row (m : Matrix) (n : Z) : TypedArray :=
  ta_slice (data m) (n * nCols m) (Some ((n + 1) * nCols m)).

(** [col(n)]: the loop carries the column array and [offset]. *)
Definition col (m : Matrix) (n : Z) : Result TypedArray :=
  col0 ← ta_new (ctor (data m)) (nRows m);
  r ← foldM (fun (s : TypedArray * Z) i =>
               c ← ta_put s.1 i (ta_get (data m) (s.2 + n));
               Ok (c, s.2 + nCols m))
         (seqZ 0 (nRows m)) (col0, 0);
  Ok r.1.

(** [cols()]: the columns the generator yields, in order. *)
Definition cols_column (m : Matrix) (i : Z) : Result TypedArray :=
  col0 ← ta_new (ctor (data m)) (nRows m);
  foldM (fun c j => ta_put c j (ta_get (data m) (j * nCols m + i)))
    (seqZ 0 (nRows m)) col0.

Definition cols (m : Matrix) : Result (list TypedArray) :=
  mapM (cols_column m) (seqZ 0 (nCols m)).

(** [rows()] *)
Definition rows (m : Matrix) : list TypedArray :=
  (fun i => ta_slice (data m) (i * nCols m) (Some ((i + 1) * nCols m)))
    <$> seqZ 0 (nRows m).

(** [get T()]: each yielded column is copied to [i * nRows]; the generator
    and the copies alternate, and a throw of either ends the getter. *)
Definition T (m : Matrix) : Result Matrix :=
  resArr ← ta_new (ctor (data m)) (nRows m * nCols m);
  r ← foldM (fun (s : TypedArray * Z) j =>
               c ← cols_column m j;
               match ta_set s.1 (Typed c) (s.2 * nRows m) with
               | (Ok _, a) => Ok (a, s.2 + 1)
               | (Throw e, _) => Throw e
               end)
         (seqZ 0 (nCols m)) (resArr, 0);
  Matrix_new (ArgBuffer r.1) (with_shape (nCols m) (nRows m)).

(** [colSum()] *)
Definition colSum (m : Matrix) : Result TypedArray :=
  sum0 ← ta_new (ctor (data m)) (nRows m);
  foldM (fun sum i =>
           foldM (fun sum j =>
                    v ← js_add (ta_get sum j) (item m j i);
                    ta_put sum j v)
             (seqZ 0 (nRows m)) sum)
    (seqZ 0 (nCols m)) sum0.

(** [rowSum()]: the outer loop carries [sum] and [offset]. *)
Definition rowSum (m : Matrix) : Result TypedArray :=
  sum0 ← ta_new (ctor (data m)) (nCols m);
  r ← foldM (fun (s : TypedArray * Z) (_ : Z) =>
               sum ← foldM (fun sum j =>
                              v ← js_add (ta_get sum j) (ta_get (data m) (s.2 + j));
                              ta_put sum j v)
                       (seqZ 0 (nCols m)) s.1;
               Ok (sum, s.2 + nCols m))
         (seqZ 0 (nRows m)) (sum0, 0);
  Ok r.1.

(** The divisor of [rowMean] and [colMean]:
    [typeof this.data[0] === "bigint" ? BigInt(n) : n]. *)
Definition mean_divisor (m : Matrix) (n : Z) : JsValue :=
  if typeof_bigint (ta_get (data m) 0) then JBigInt n else JNumber (Num.ofZ n).

Definition divide_all (sum : TypedArray) (divisor : JsValue) : Result TypedArray :=
  foldM (fun sum i => v ← js_div (ta_get sum i) divisor; ta_put sum i v)
    (seqZ 0 (ta_length sum)) sum.

(** [colMean()] *)
Definition colMean (m : Matrix) : Result TypedArray :=
  sum ← colSum m;
  divide_all sum (mean_divisor m (nCols m)).

(** [rowMean()] *)
Definition rowMean (m : Matrix) : Result TypedArray :=
  sum ← rowSum m;
  divide_all sum (mean_divisor m (nRows m)).

(** [dot(rhs)] *)
Definition dot (m rhs : Matrix) : Result JsValue :=
  if negb (nRows rhs =? nRows m) then Throw (Error "Matrices must have equal rows.")
  else if negb (nCols rhs =? nCols m) then Throw (Error "Matrices must have equal cols.")
  else
    let res0 := if typeof_bigint (ta_get (data m) 0) then JBigInt 0 else JNumber (Num.ofZ 0) in
    foldM (fun res j =>
             foldM (fun res i =>
                      adder ← js_mul (item m i j) (item rhs i j);
                      js_add res adder)
               (seqZ 0 (nRows m)) res)
      (seqZ 0 (nCols m)) res0.

(** The setters change [this.data] in place: each returns what the call
    returns together with the matrix afterwards, also when it throws. *)
Definition with_data (m : Matrix) (a : TypedArray) : Matrix :=
  mkMatrix (dType m) (nRows m) (nCols m) a.

(** [setAdd(row, col, val)] *)
Definition setAdd (m : Matrix) (row col : Z) (val : JsValue) : Result unit * Matrix :=
  let i := row * nCols m + col in
  match (v ← js_add (ta_get (data m) i) val; ta_put (data m) i v) with
  | Ok a => (Ok tt, with_data m a)
  | Throw e => (Throw e, m)
  end.

(** [setCol(col, val)] *)
Definition setCol (m : Matrix) (col : Z) (val : ArrayLike) : Result Z * Matrix :=
  match foldM_st (fun a i => ta_put a (i * nCols m + col) (al_get val i))
          (seqZ 0 (nRows m)) (data m) with
  | (Ok _, a) => (Ok col, with_data m a)
  | (Throw e, a) => (Throw e, with_data m a)
  end.

(** [setCell(row, col, val)] *)
Definition setCell (m : Matrix) (row col : Z) (val : JsValue) : Result unit * Matrix :=
  match ta_put (data m) (row * nCols m + col) val with
  | Ok a => (Ok tt, with_data m a)
  | Throw e => (Throw e, m)
  end.

(** [setRow(row, val)] *)
Definition setRow (m : Matrix) (row : Z) (val : ArrayLike) : Result unit * Matrix :=
  let '(r, a) := ta_set (data m) val (row * nCols m) in (r, with_data m a).

(** [slice(start = 0, end?)]: [start ? .. : 0] and [end ? .. : undefined]
    test truthiness, so a zero [end] is read as no [end]. *)
Definition truthy (n : Z) : bool := negb (n =? 0).

Definition slice (m : Matrix) (start : Z) (end_ : option Z) : Result Matrix :=
  let end_given := match end_ with Some e => truthy e | None => false end in
  let e := default 0 end_ in
  Matrix_new
    (ArgBuffer (ta_slice (data m)
                  (if truthy start then start * nCols m else 0)
                  (if end_given then Some (e * nCols m) else None)))
    (with_shape (if end_given then e - start else nRows m - start) (nCols m)).

(** [at(pos)]: an alias of [row]. *)
Definition at_ (m : Matrix) (pos : Z) : TypedArray := row m pos.

(** [filter(fn)]. The callback receives the row, its index and an empty
    array; it is taken here as a function of the first two that returns a
    boolean. [satisfying] collects the indices kept, in order; the rows kept
    are then copied one after the other into a fresh matrix of the same kind
    tag. *)
Definition filter (m : Matrix) (fn : TypedArray -> Z -> bool) : Result Matrix :=
  let satisfying :=
    foldl (fun sat i => if fn (row m i) i then sat ++ [i] else sat)
      [] (seqZ 0 (nRows m)) in
  matrix ← Matrix_new (ArgTag (dType m))
             (with_shape (Z.of_nat (length satisfying)) (nCols m));
  foldM (fun matrix i =>
           match setRow matrix i (Typed (row m (satisfying !!! Z.to_nat i))) with
           | (Ok _, matrix') => Ok matrix'
           | (Throw e, _) => Throw e
           end)
    (seqZ 0 (Z.of_nat (length satisfying))) matrix.

(** ** multiplyDiags (tf_idf_transformer.ts) *)

(** [new Matrix(new Float64Array(x.data.length), x.shape)].
    Modelled from the spec: this file imports its Matrix from
    utils/matrix.ts, which is not among the sources; its two-argument
    constructor is the Wrap mode of section 3 (buffer and [rows, cols]),
    and [item] and [setCell] are the row-major accessors above. *)
Definition multiplyDiags_alloc (x : Matrix) : Result Matrix :=
  buf ← ta_new f64 (ta_length (data x));
  Matrix_new (ArgBuffer buf) (with_shape (nRows x) (nCols x)).

Definition multiplyDiags (x : Matrix) (y : TypedArray) : Result Matrix :=
  res0 ← multiplyDiags_alloc x;
  foldM (fun res i =>
           foldM (fun res j =>
                    v ← js_mul (item x i j) (ta_get y j);
                    match setCell res i j v with
                    | (Ok _, res') => Ok res'
                    | (Throw e, _) => Throw e
                    end)
             (seqZ 0 (ta_length y)) res)
    (seqZ 0 (nRows x)) res0.

(** ** TfIdfTransformer *)

Record TfIdfTransformer : Type := mkTfIdf {
  idf : option TypedArray
}.

(** [constructor({ idf } = {})]: [this.idf = idf ?? null]. *)
Definition TfIdfTransformer_new (idf : option TypedArray) : TfIdfTransformer :=
  mkTfIdf idf.

(** What a method returns when it ends with [return this]. *)
Inductive Receiver : Type := This.

Section Fit.
(** [Math.log], a built-in of the host. *)
Variable Math_log : Number -> Number.

(** The loop of [fit]: [idf[i] = Math.log(samples / Number(freq[i])) + 1].
    The older [fit] of feature/conversion/text/sparse divides by [freq[i]]
    itself; on the Float64Array matrices it is declared for,
    [Number(freq[i])] is [freq[i]]. *)
Definition fit_loop (samples : Z) (freq idf0 : TypedArray) : Result TypedArray :=
  foldM (fun idf i =>
           ta_put idf i
             (JNumber (Num.add
                         (Math_log (Num.div (Num.ofZ samples)
                                      (js_Number (ta_get freq i))))
                         (Num.ofZ 1))))
    (seqZ 0 (ta_length idf0)) idf0.

(** [fit(data)]: the value returned and the transformer afterwards. *)
Definition fit (t : TfIdfTransformer) (data : Matrix)
  : Result Receiver * TfIdfTransformer :=
  let samples := nRows data in
  match (freq ← rowSum data;
         idf0 ← ta_new f64 (ta_length freq);
         fit_loop samples freq idf0) with
  | Ok idf => (Ok This, mkTfIdf (Some idf))
  | Throw e => (Throw e, t)
  end.

(** [fit(data)] of sparse/tf_idf_transformer.ts:
    [idf[i] = Math.log(shape.samples / freq[i]) + 1], the quotient taken on
    [freq[i]] itself.
    Modelled from the spec: this file imports its Matrix from
    utils/matrix.ts, which is not among the sources; [nRows] and [rowSum]
    are the row count and the reduction of section 4.2. *)
Definition fit_sparse_loop (samples : Z) (freq idf0 : TypedArray) : Result TypedArray :=
  foldM (fun idf i =>
           q ← js_div (JNumber (Num.ofZ samples)) (ta_get freq i);
           ta_put idf i
             (JNumber (Num.add (Math_log (js_Number q)) (Num.ofZ 1))))
    (seqZ 0 (ta_length idf0)) idf0.

Definition fit_sparse (t : TfIdfTransformer) (data : Matrix)
  : Result Receiver * TfIdfTransformer :=
  let samples := nRows data in
  match (freq ← rowSum data;
         idf0 ← ta_new f64 (ta_length freq);
         fit_sparse_loop samples freq idf0) with
  | Ok idf => (Ok This, mkTfIdf (Some idf))
  | Throw e => (Throw e, t)
  end.
End Fit.

(** [transform(data)] of sparse/tf_idf_transformer.ts: the guard, then the
    [multiplyDiags] of that file. *)
Definition transform (t : TfIdfTransformer) (data : Matrix)
  : Result Matrix * TfIdfTransformer :=
  match idf t with
  | None => (Throw (Error "IDF not initialized yet."), t)
  | Some idf => (multiplyDiags data idf, t)
  end.

(** [transform(data)] of the newer class: the same guard, then the
    [multiplyDiags] it imports from utils/math.ts, which is not among the
    sources and is a parameter here. *)
Definition transform_with (multiplyDiags_math : Matrix -> TypedArray -> Result Matrix)
    (t : TfIdfTransformer) (data : Matrix) : Result Matrix * TfIdfTransformer :=
  match idf t with
  | None => (Throw (Error "IDF not initialized yet."), t)
  | Some idf => (multiplyDiags_math data idf, t)
  end.

(** ** Vocabulary of the statements *)

#[global] Instance Cell_inhabited : Inhabited Cell := populate (CInt 0).

(** The range of an integer kind. *)
Definition int_range (k : DataType) (z : Z) : Prop :=
  if is_signed k then - 2 ^ (bits k - 1) <= z < 2 ^ (bits k - 1)
  else 0 <= z < 2 ^ bits k.

(** A cell as an array of kind [k] can hold it: an integer of the kind's
    range, a binary64 value, or a binary64 value that is a binary32 one. *)
Definition cell_ok (k : DataType) (c : Cell) : Prop :=
  match c with
  | CInt z => is_float k = false /\ int_range k z
  | CFloat x =>
      match k with
      | f64 => Num.valid x = true
      | f32 => Num.valid x = true /\ Num.fround x = x
      | _ => False
      end
  end.

Definition ta_ok (a : TypedArray) : Prop := Forall (cell_ok (ctor a)) (cells a).

(** The invariant of section 3: the buffer holds [nRows * nCols] elements. *)
Definition layout_ok (m : Matrix) : Prop :=
  ta_length (data m) = nRows m * nCols m.

(** A matrix of the data model: counts are not negative, the layout
    invariant holds, the kind tag is the buffer's, the cells are the kind's. *)
Definition wf (m : Matrix) : Prop :=
  0 <= nRows m /\ 0 <= nCols m /\ layout_ok m /\
  dType m = ctor (data m) /\ ta_ok (data m).

(** The cell stored for element [(r, c)]. *)
Definition cell_at (m : Matrix) (r c : Z) : option Cell :=
  if (r * nCols m + c <? 0) then None
  else cells (data m) !! Z.to_nat (r * nCols m + c).

(** The integer an integer cell holds. *)
Definition int_of (c : Cell) : Z :=
  match c with
  | CInt z => z
  | CFloat _ => 0
  end.

Definition sumZ (l : list Z) : Z := foldr Z.add 0 l.

(** The public mutations of section 4.2. *)
Inductive Mutation : Type :=
| MSetCell (row col : Z) (val : JsValue)
| MSetAdd (row col : Z) (val : JsValue)
| MSetRow (row : Z) (val : ArrayLike)
| MSetCol (col : Z) (val : ArrayLike).

(** The matrix after a mutation, whether the call returned or threw. *)
Definition mutate (m : Matrix) (mu : Mutation) : Matrix :=
  match mu with
  | MSetCell r c v => (setCell m r c v).2
  | MSetAdd r c v => (setAdd m r c v).2
  | MSetRow r val => (setRow m r val).2
  | MSetCol c val => (setCol m c val).2
  end.

(** What the construction modes need for the layout invariant: a wrapped
    buffer of [rows * cols] elements, nested rows all as long as the first. *)
Definition consistent (arg : CtorArg) (config : Config) : Prop :=
  match arg with
  | ArgBuffer buf =>
      match shape config with
      | Some (r, c) => ta_length buf = r * c
      | None => True
      end
  | ArgMatrixLike buf (r, c) => ta_length buf = r * c
  | ArgNested rows =>
      match rows with
      | [] => True
      | row0 :: _ => Forall (fun row => length row = length row0) rows
      end
  | ArgTag _ | ArgNullish | ArgOther => True
  end.

(** A cell with which the reductions can compute: an integer of the kind's
    range in an integer array, a float in a float array. *)
Definition summable (k : DataType) (c : Cell) : Prop :=
  match c with
  | CInt z => is_float k = false /\ int_range k z
  | CFloat _ => is_float k = true
  end.

(** The cell [sum[j]] holds after [sum[j] += x], by the kind's native
    addition: the integer sum reduced into the kind, the binary64 sum (rounded
    to binary32 for f32). *)
Definition cell_add (k : DataType) (c1 c2 : Cell) : Cell :=
  match c1, c2 with
  | CInt a, CInt b => CInt (wrap_kind k (a + b))
  | CFloat x, CFloat y =>
      CFloat (if decide (k = f32) then Num.fround (Num.add x y) else Num.add x y)
  | _, _ => c1
  end.

(** Summing the cells of a list into a fresh element, first to last. *)
Definition accumulate (k : DataType) (l : list Cell) : Cell :=
  foldl (cell_add k) (zero_cell k) l.

(** The cells of column [j], top to bottom, and of row [r], left to right,
    of an [R] by [C] row-major buffer. *)
Definition column_cells (cs : list Cell) (R C j : nat) : list Cell :=
  (fun i => cs !!! (i * C + j)%nat) <$> seq 0 R.
Definition row_cells (cs : list Cell) (C r : nat) : list Cell :=
  (fun c => cs !!! (r * C + c)%nat) <$> seq 0 C.

(** The count as the spec wants the divisor of a mean: in the arithmetic
    domain of the kind. *)
Definition count_in_domain (k : DataType) (n : Z) : JsValue :=
  if is_wide k then JBigInt n else JNumber (Num.ofZ n).

(** [s / d] stored back into an array of kind [k]. *)
Definition cell_div (k : DataType) (s : Cell) (d : JsValue) : Result Cell :=
  v ← js_div (load k s) d; store k v.

(** The idf vector of section 4.4: [ln(nRows / freq[j]) + 1] for each [j]. *)
Definition idf_of (ln : Number -> Number) (samples : Z) (freq : TypedArray)
  : TypedArray :=
  mkTA f64
    ((fun c => CFloat (Num.add
                         (ln (Num.div (Num.ofZ samples)
                                (js_Number (load (ctor freq) c))))
                         (Num.ofZ 1)))
       <$> cells freq).

(** The number a matrix holds at [(i, j)]. *)
Definition number_at (m : Matrix) (i j : Z) : Number := js_Number (item m i j).

(** A Float64Array of [n] ones. *)
Definition ones (n : nat) : TypedArray := mkTA f64 (replicate n (CFloat Num.one)).

(** The cells of an [R] by [C] matrix in column-major order: column 0 top to
    bottom, then column 1, and so on. *)
Definition column_major (R C : nat) : list (nat * nat) :=
  concat ((fun j => (fun i => (i, j)) <$> seq 0 R) <$> seq 0 C).

(** The sum of the products of corresponding elements, accumulated over
    [order] from zero: in bigints for the wide kinds, in numbers otherwise. *)
Definition dot_wide (ca cb : list Cell) (C : nat) (order : list (nat * nat)) : Z :=
  foldl (fun acc ij =>
           acc + int_of (ca !!! (ij.1 * C + ij.2)%nat)
                 * int_of (cb !!! (ij.1 * C + ij.2)%nat))
    0 order.

Definition dot_number (k : DataType) (ca cb : list Cell) (C : nat)
    (order : list (nat * nat)) : Number :=
  foldl (fun acc ij =>
           Num.add acc
             (Num.mul (js_Number (load k (ca !!! (ij.1 * C + ij.2)%nat)))
                (js_Number (load k (cb !!! (ij.1 * C + ij.2)%nat)))))
    (Num.ofZ 0) order.

(** Two arrays of the same kind and the same length. *)
Definition same_frame (a a' : TypedArray) : Prop :=
  ctor a' = ctor a /\ length (cells a') = length (cells a).

(** The total of the entries of a vector of numbers, added left to right
    from 0. *)
Definition total (k : DataType) (l : list Cell) : Number :=
  foldl (fun acc c => Num.add acc (js_Number (load k c))) (Num.ofZ 0) l.

(** [m'] has the shape of [m] and differs from it at most in element
    [(r, c)]. *)
Definition differs_only_at (m m' : Matrix) (r c : Z) : Prop :=
  Matrix_shape m' = Matrix_shape m /\
  forall r' c', 0 <= r' < nRows m -> 0 <= c' < nCols m -> (r', c') <> (r, c) ->
                cell_at m' r' c' = cell_at m r' c'.

(** The cell that [a[i] = undefined] stores in an array of numbers: NaN in a
    float array, 0 in an integer one. *)
Definition undefined_cell (k : DataType) : Cell :=
  if is_float k then CFloat Num.NaN else CInt 0.

(** The rows of a matrix as nested arrays of values, the way
    [Array.from(m.rows(), r => Array.from(r))] gives them. *)
Definition to_nested (m : Matrix) : list (list JsValue) :=
  (fun r => load (ctor r) <$> cells r) <$> rows m.

(** ** Concrete inputs of the witnesses and counterexamples *)

Definition num (z : Z) : JsValue := JNumber (Num.ofZ z).
Definition fnum (z : Z) : Cell := CFloat (Num.ofZ z).

(** [[1, 2, 3], [4, 5, 6]] as an Int16Array matrix. *)
Definition sample_i16 : Matrix :=
  mkMatrix i16 2 3 (mkTA i16 [CInt 1; CInt 2; CInt 3; CInt 4; CInt 5; CInt 6]).

(** [[200, 100]] as a Uint8Array matrix. *)
Definition sample_u8 : Matrix :=
  mkMatrix u8 1 2 (mkTA u8 [CInt 200; CInt 100]).

(** [[7n, -9n], [4n, 2n]] as a BigInt64Array matrix. *)
Definition sample_i64 : Matrix :=
  mkMatrix i64 2 2 (mkTA i64 [CInt 7; CInt (-9); CInt 4; CInt 2]).

(** [[1, 0, 2], [0, 1, 1]] as a Float64Array matrix, the term-frequency
    matrix of section 8. *)
Definition sample_tf : Matrix :=
  mkMatrix f64 2 3 (mkTA f64 [fnum 1; fnum 0; fnum 2; fnum 0; fnum 1; fnum 1]).

(** [[2^1023, 2^1023], [-2^1023, -2^1023]] as a Float64Array matrix. *)
Definition sample_huge : Matrix :=
  mkMatrix f64 2 2
    (mkTA f64 [fnum (2 ^ 1023); fnum (2 ^ 1023); fnum (- 2 ^ 1023); fnum (- 2 ^ 1023)]).

(** [new Matrix("u64", { shape: [0, 0] })] *)
Definition empty_u64 : Matrix := mkMatrix u64 0 0 (mkTA u64 []).

(** [[1n]] as a BigUint64Array matrix. *)
Definition single_u64 : Matrix := mkMatrix u64 1 1 (mkTA u64 [CInt 1]).

(** * Proofs *)

(** ** Binary64 arithmetic on integers *)
Lemma digits2_pos_size p : digits2_pos p = Pos.size p.
Proof. induction p; simpl; congruence. Qed.

Lemma digits2_log2 p : Zpos (digits2_pos p) = Z.log2 (Zpos p) + 1.
Proof.
  rewrite digits2_pos_size. destruct p; simpl; try lia.
Qed.

Lemma digits2_mul_pow2 (p q : positive) (k : Z) :
  0 <= k -> Zpos q = Zpos p * 2 ^ k ->
  Zpos (digits2_pos q) = Zpos (digits2_pos p) + k.
Proof.
  intros Hk Hq. rewrite !digits2_log2, Hq.
  rewrite Z.log2_mul_pow2 by lia. lia.
Qed.

Lemma iter_pos_nat {A} (f : A -> A) n x :
  SpecFloat.iter_pos f n x = Nat.iter (Pos.to_nat n) f x.
Proof.
  revert x. induction n as [n IH|n IH|]; intros x; cbn [SpecFloat.iter_pos].
  - rewrite !IH. rewrite Pos2Nat.inj_xI.
    replace (S (2 * Pos.to_nat n))%nat with (Pos.to_nat n + (Pos.to_nat n + 1))%nat by lia.
    rewrite !Nat.iter_add. reflexivity.
  - rewrite !IH. rewrite Pos2Nat.inj_xO.
    replace (2 * Pos.to_nat n)%nat with (Pos.to_nat n + Pos.to_nat n)%nat by lia.
    rewrite Nat.iter_add. reflexivity.
  - reflexivity.
Qed.

Lemma shr_1_even m :
  0 < m -> shr_1 (Build_shr_record (2 * m) false false) = Build_shr_record m false false.
Proof. destruct m; try lia. reflexivity. Qed.

Lemma iter_shr_1_exact (k : nat) m :
  0 < m ->
  Nat.iter k shr_1 (Build_shr_record (m * 2 ^ Z.of_nat k) false false)
  = Build_shr_record m false false.
Proof.
  intros Hm. induction k as [|k IH].
  - simpl. f_equal. lia.
  - rewrite Nat.iter_succ_r.
    replace (m * 2 ^ Z.of_nat (S k)) with (2 * (m * 2 ^ Z.of_nat k)).
    + rewrite shr_1_even by lia. exact IH.
    + rewrite Nat2Z.inj_succ, Z.pow_succ_r by lia. lia.
Qed.

Lemma shr_exact m e n :
  0 < m -> 0 <= n ->
  shr (Build_shr_record (m * 2 ^ n) false false) e n
  = (Build_shr_record m false false, e + n).
Proof.
  intros Hm Hn. unfold shr. destruct n as [|p|p]; try lia.
  - change (2 ^ 0) with 1. rewrite Z.mul_1_r, Z.add_0_r. reflexivity.
  - rewrite iter_pos_nat. f_equal.
    rewrite <- (positive_nat_Z p). apply iter_shr_1_exact, Hm.
Qed.

(** From here on the format is binary64. *)
Local Abbreviation prec := Num.prec.
Local Abbreviation emax := Num.emax.

Lemma round_aux_exact s (m : positive) (M : Z) e n :
  0 <= n -> M = Zpos m * 2 ^ n ->
  bounded prec emax m e = true ->
  binary_round_aux prec emax s M (e - n) loc_Exact = S754_finite s m e.
Proof.
  intros Hn HM Hb. unfold bounded in Hb. apply andb_true_iff in Hb as [Hc He].
  unfold canonical_mantissa in Hc. apply Z.eqb_eq in Hc. apply Z.leb_le in He.
  assert (HMpos : 0 < M) by (subst M; apply Z.mul_pos_pos; [lia|apply Z.pow_pos_nonneg; lia]).
  destruct M as [|q|q]; try lia.
  assert (Hd : Zpos (digits2_pos q) = Zpos (digits2_pos m) + n)
    by (apply digits2_mul_pow2; assumption).
  unfold binary_round_aux, shr_fexp. cbn [Zdigits2 shr_record_of_loc].
  rewrite Hd.
  replace (Z.pos (digits2_pos m) + n + (e - n)) with (Z.pos (digits2_pos m) + e) by lia.
  rewrite Hc. replace (e - (e - n)) with n by lia.
  rewrite HM, shr_exact by lia. cbn [shr_m loc_of_shr_record round_nearest_even Zdigits2 shr_record_of_loc].
  replace (e - n + n) with e by lia.
  rewrite Hc, Z.sub_diag. cbn [shr shr_m].
  apply Z.leb_le in He. rewrite He. reflexivity.
Qed.

Lemma pos_iter_xO (d p : positive) :
  Zpos (Pos.iter xO p d) = Zpos p * 2 ^ Zpos d.
Proof.
  induction d as [|d IH] using Pos.peano_ind.
  - simpl. lia.
  - rewrite Pos.iter_succ, Pos2Z.inj_xO, IH, Pos2Z.inj_succ, Z.pow_succ_r by lia. lia.
Qed.

Lemma fexp_eq d : fexp prec emax d = Z.max (d - 53) (-1074).
Proof. reflexivity. Qed.

Lemma binary_round_exact s (mx M : positive) ex E :
  E = fexp prec emax (Zpos (digits2_pos mx) + ex) ->
  E <= 971 ->
  Zpos M * 2 ^ Z.max 0 (E - ex) = Zpos mx * 2 ^ Z.max 0 (ex - E) ->
  binary_round prec emax s mx ex = S754_finite s M E.
Proof.
  intros HEq HE HM. unfold binary_round, shl_align. rewrite <- HEq.
  assert (Hb : forall M' : positive,
             Zpos (digits2_pos M') + E = Zpos (digits2_pos mx) + ex ->
             bounded prec emax M' E = true).
  { intros M' HM'. unfold bounded, canonical_mantissa.
    rewrite HM', <- HEq, Z.eqb_refl. simpl. apply Z.leb_le. exact HE. }
  destruct (E - ex) as [|d|d] eqn:Hd.
  - assert (Hex : ex = E) by lia. rewrite Hex in *.
    rewrite Z.sub_diag in HM. change (Z.max 0 0) with 0 in HM.
    rewrite Z.pow_0_r, !Z.mul_1_r in HM.
    assert (M = mx) by lia. subst M.
    rewrite <- (Z.sub_0_r E) at 1.
    apply round_aux_exact; [lia|lia|]. apply Hb. lia.
  - replace ex with (E - Zpos d) by lia.
    rewrite Z.max_r in HM by lia. rewrite Z.max_l in HM by lia.
    rewrite Z.pow_0_r, Z.mul_1_r in HM.
    apply round_aux_exact; [lia|lia|]. apply Hb.
    assert (Hdig : Zpos (digits2_pos mx) = Zpos (digits2_pos M) + Zpos d)
      by (apply digits2_mul_pow2; lia).
    lia.
  - rewrite Z.max_l in HM by lia. rewrite Z.max_r in HM by lia.
    rewrite Z.pow_0_r, Z.mul_1_r in HM.
    replace (ex - E) with (Zpos d) in HM by lia.
    rewrite <- (Z.sub_0_r E) at 1.
    apply round_aux_exact; [lia| rewrite pos_iter_xO; lia |]. apply Hb.
    assert (Hdig : Zpos (digits2_pos M) = Zpos (digits2_pos mx) + Zpos d)
      by (apply digits2_mul_pow2; lia).
    lia.
Qed.

Lemma digits2_bound (p : positive) : Zpos p < 2 ^ 53 -> Zpos (digits2_pos p) <= 53.
Proof.
  intros Hp. rewrite digits2_log2.
  assert (Z.log2 (Zpos p) < 53) by (apply Z.log2_lt_pow2; lia). lia.
Qed.

(** An integer of at most 53 bits, however it is scaled, rounds to itself. *)
Lemma round_int s (p q : positive) k :
  0 <= k <= 1074 -> Zpos p < 2 ^ 53 -> Zpos q = Zpos p * 2 ^ k ->
  binary_round prec emax s q (- k)
  = S754_finite s (Z.to_pos (Zpos p * 2 ^ (53 - Zpos (digits2_pos p))))
      (Zpos (digits2_pos p) - 53).
Proof.
  intros Hk Hp Hq.
  pose proof (digits2_bound p Hp) as Hd.
  assert (Hdq : Zpos (digits2_pos q) = Zpos (digits2_pos p) + k)
    by (apply digits2_mul_pow2; lia).
  set (d := Zpos (digits2_pos p)) in *.
  assert (0 < d) by (unfold d; lia).
  assert (Hpow : 0 < 2 ^ (53 - d)) by (apply Z.pow_pos_nonneg; lia).
  apply binary_round_exact.
  - rewrite Hdq, fexp_eq. lia.
  - lia.
  - rewrite Z2Pos.id by (apply Z.mul_pos_pos; lia). rewrite Hq.
    rewrite <- !Z.mul_assoc. f_equal.
    rewrite <- !Z.pow_add_r by lia. f_equal. lia.
Qed.

Lemma ofZ_pos (p : positive) :
  Zpos p < 2 ^ 53 ->
  Num.ofZ (Zpos p)
  = S754_finite false (Z.to_pos (Zpos p * 2 ^ (53 - Zpos (digits2_pos p))))
      (Zpos (digits2_pos p) - 53).
Proof.
  intros Hp. unfold Num.ofZ, binary_normalize.
  apply (round_int false p p 0); [lia|lia|]. rewrite Z.pow_0_r. lia.
Qed.

Lemma ofZ_neg (p : positive) :
  Zpos p < 2 ^ 53 ->
  Num.ofZ (Zneg p)
  = S754_finite true (Z.to_pos (Zpos p * 2 ^ (53 - Zpos (digits2_pos p))))
      (Zpos (digits2_pos p) - 53).
Proof.
  intros Hp. unfold Num.ofZ, binary_normalize.
  apply (round_int true p p 0); [lia|lia|]. rewrite Z.pow_0_r. lia.
Qed.

Lemma normalize_int (z : Z) k :
  0 <= k <= 1074 -> Z.abs z < 2 ^ 53 ->
  binary_normalize prec emax (z * 2 ^ k) (- k) false = Num.ofZ z.
Proof.
  intros Hk Hz.
  assert (Hpow : 0 < 2 ^ k) by (apply Z.pow_pos_nonneg; lia).
  destruct z as [|p|p].
  - reflexivity.
  - rewrite ofZ_pos by lia.
    destruct (Zpos p * 2 ^ k) as [|q|q] eqn:Hq; try lia.
    apply round_int; lia.
  - rewrite ofZ_neg by lia.
    destruct (Zneg p * 2 ^ k) as [|q|q] eqn:Hq; try lia.
    apply round_int; lia.
Qed.

Lemma truncZ_ofZ (z : Z) : Z.abs z < 2 ^ 53 -> Num.truncZ (Num.ofZ z) = z.
Proof.
  intros Hz.
  assert (Hgen : forall p : positive, Zpos p < 2 ^ 53 ->
            match Zpos (digits2_pos p) - 53 with
            | 0 => Zpos (Z.to_pos (Zpos p * 2 ^ (53 - Zpos (digits2_pos p))))
            | Zpos e => Zpos (Z.to_pos (Zpos p * 2 ^ (53 - Zpos (digits2_pos p)))) * 2 ^ Zpos e
            | Zneg e => Zpos (Z.to_pos (Zpos p * 2 ^ (53 - Zpos (digits2_pos p)))) / 2 ^ Zpos e
            end = Zpos p).
  { intros p Hp. pose proof (digits2_bound p Hp) as Hd.
    set (d := Zpos (digits2_pos p)) in *.
    assert (0 < 2 ^ (53 - d)) by (apply Z.pow_pos_nonneg; lia).
    rewrite Z2Pos.id by (apply Z.mul_pos_pos; lia).
    destruct (d - 53) as [|e|e] eqn:He; try lia.
    - replace (53 - d) with 0 by lia. rewrite Z.pow_0_r. lia.
    - replace (53 - d) with (Zpos e) by lia.
      apply Z.div_mul. lia. }
  destruct z as [|p|p].
  - reflexivity.
  - rewrite ofZ_pos by lia. cbn [Num.truncZ cond_Zopp]. apply Hgen. lia.
  - rewrite ofZ_neg by lia. cbn [Num.truncZ cond_Zopp]. rewrite Hgen by lia. reflexivity.
Qed.

Lemma ofZ_nonzero (z : Z) :
  z <> 0 -> Z.abs z < 2 ^ 53 ->
  exists M E, Num.ofZ z = S754_finite (z <? 0) M E /\ -52 <= E <= 0 /\
              Zpos M = Z.abs z * 2 ^ (- E).
Proof.
  intros Hz Hlt.
  assert (Hgen : forall p : positive, Zpos p < 2 ^ 53 ->
            -52 <= Zpos (digits2_pos p) - 53 <= 0 /\
            Zpos (Z.to_pos (Zpos p * 2 ^ (53 - Zpos (digits2_pos p))))
            = Zpos p * 2 ^ (- (Zpos (digits2_pos p) - 53))).
  { intros p Hp. pose proof (digits2_bound p Hp) as Hd.
    set (d := Zpos (digits2_pos p)) in *.
    assert (0 < 2 ^ (53 - d)) by (apply Z.pow_pos_nonneg; lia).
    rewrite Z2Pos.id by (apply Z.mul_pos_pos; lia).
    split; [lia|]. do 2 f_equal. lia. }
  destruct z as [|p|p]; [done| |].
  - rewrite ofZ_pos by lia. eexists _, _. split; [reflexivity|]. apply Hgen. lia.
  - rewrite ofZ_neg by lia. eexists _, _. split; [reflexivity|]. apply Hgen. lia.
Qed.

Lemma shl_align_fst (m : positive) e e' :
  e' <= e -> Zpos (fst (shl_align m e e')) = Zpos m * 2 ^ (e - e').
Proof.
  intros He. unfold shl_align.
  destruct (e' - e) as [|d|d] eqn:Hd; try lia.
  - replace (e - e') with 0 by lia. simpl. lia.
  - simpl. rewrite pos_iter_xO. do 2 f_equal. lia.
Qed.

Lemma cond_Zopp_abs (z : Z) : cond_Zopp (z <? 0) (Z.abs z) = z.
Proof. unfold cond_Zopp. destruct (Z.ltb_spec z 0); lia. Qed.

(** Addition of integers is exact while the operands and the sum have at
    most 53 bits. *)
Lemma add_ofZ (a b : Z) :
  Z.abs a < 2 ^ 53 -> Z.abs b < 2 ^ 53 -> Z.abs (a + b) < 2 ^ 53 ->
  Num.add (Num.ofZ a) (Num.ofZ b) = Num.ofZ (a + b).
Proof.
  intros Ha Hb Hab.
  destruct (decide (a = 0)) as [->|Ha0]; [|destruct (decide (b = 0)) as [->|Hb0]].
  - change (Num.ofZ 0) with (S754_zero false). rewrite Z.add_0_l.
    destruct (decide (b = 0)) as [->|Hb0]; [reflexivity|].
    destruct (ofZ_nonzero b Hb0 Hb) as (M & E & -> & _). reflexivity.
  - change (Num.ofZ 0) with (S754_zero false). rewrite Z.add_0_r.
    destruct (ofZ_nonzero a Ha0 Ha) as (M & E & -> & _). reflexivity.
  - destruct (ofZ_nonzero a Ha0 Ha) as (Ma & Ea & -> & HEa & HMa).
    destruct (ofZ_nonzero b Hb0 Hb) as (Mb & Eb & -> & HEb & HMb).
    unfold Num.add, SFadd.
    set (ez := Z.min Ea Eb).
    rewrite <- (normalize_int (a + b) (- ez)) by (unfold ez; lia).
    rewrite Z.opp_involutive. f_equal.
    rewrite Z.mul_add_distr_r.
    assert (Hsh : forall (z : Z) (M : positive) E, ez <= E -> E <= 0 ->
              Zpos M = Z.abs z * 2 ^ (- E) ->
              cond_Zopp (z <? 0) (Zpos (fst (shl_align M E ez))) = z * 2 ^ (- ez)).
    { intros z M E H1 H2 HM. rewrite shl_align_fst by lia. rewrite HM.
      rewrite <- Z.mul_assoc, <- Z.pow_add_r by lia.
      replace (- E + (E - ez)) with (- ez) by lia.
      unfold cond_Zopp. destruct (Z.ltb_spec z 0).
      - rewrite Z.abs_neq by lia. ring.
      - rewrite Z.abs_eq by lia. ring. }
    rewrite (Hsh a), (Hsh b) by (unfold ez; lia || assumption). reflexivity.
Qed.

(** Multiplying a binary64 value by one gives it back. *)
Lemma mul_one_r (x : Number) : Num.valid x = true -> Num.mul x Num.one = x.
Proof.
  intros Hv. change Num.one with (S754_finite false 4503599627370496 (-52)).
  destruct x as [s|s| |s m e]; try reflexivity.
  - simpl. destruct s; reflexivity.
  - simpl. destruct s; reflexivity.
  - unfold Num.mul, SFmul. rewrite xorb_false_r.
    change (e + -52) with (e - 52).
    apply round_aux_exact; [lia| |exact Hv].
    rewrite Pos2Z.inj_mul. reflexivity.
Qed.

Lemma valid_ofZ (z : Z) : Z.abs z < 2 ^ 53 -> Num.valid (Num.ofZ z) = true.
Proof.
  intros Hz. destruct (decide (z = 0)) as [->|Hz0]; [reflexivity|].
  assert (Hgen : forall p : positive, Zpos p < 2 ^ 53 ->
     bounded prec emax (Z.to_pos (Zpos p * 2 ^ (53 - Zpos (digits2_pos p))))
       (Zpos (digits2_pos p) - 53) = true).
  { intros p Hp. pose proof (digits2_bound p Hp) as Hd.
    unfold bounded, canonical_mantissa.
    assert (0 < 2 ^ (53 - Zpos (digits2_pos p))) by (apply Z.pow_pos_nonneg; lia).
    assert (0 < Zpos p * 2 ^ (53 - Zpos (digits2_pos p))) by (apply Z.mul_pos_pos; lia).
    rewrite (digits2_mul_pow2 p _ (53 - Zpos (digits2_pos p)))
      by (rewrite ?Z2Pos.id; lia).
    rewrite fexp_eq. change (emax - prec) with 971.
    apply andb_true_iff. split; [apply Z.eqb_eq|apply Z.leb_le]; lia. }
  destruct z as [|p|p]; [done| |].
  - rewrite ofZ_pos by lia. apply Hgen. lia.
  - rewrite ofZ_neg by lia. apply Hgen. lia.
Qed.

(** ** Loops *)

Lemma foldM_app {A S} (body : S -> A -> Result S) l1 l2 s :
  foldM body (l1 ++ l2) s = (s' ← foldM body l1 s; foldM body l2 s').
Proof.
  revert s. induction l1 as [|x l1 IH]; intros s; simpl; [reflexivity|].
  destruct (body s x) as [s1|e]; simpl; [apply IH|reflexivity].
Qed.

(** The invariant rule of a counting loop: [P i s] after [i] rounds. *)
Lemma foldM_seqZ_inv {S} (body : S -> Z -> Result S) (P : nat -> S -> Prop)
    (n : nat) (s0 : S) :
  P 0%nat s0 ->
  (forall i s, (i < n)%nat -> P i s ->
     exists s', body s (Z.of_nat i) = Ok s' /\ P (Datatypes.S i) s') ->
  exists s', foldM body (seqZ 0 (Z.of_nat n)) s0 = Ok s' /\ P n s'.
Proof.
  intros H0 Hstep. induction n as [|n IH].
  - exists s0. split; [reflexivity|exact H0].
  - destruct IH as (s1 & Hrun & HP); [intros i s Hi; apply Hstep; lia|].
    destruct (Hstep n s1 ltac:(lia) HP) as (s2 & Hb & HP2).
    exists s2. split; [|exact HP2].
    rewrite seqZ_S, foldM_app, Hrun. simpl. rewrite Z.add_0_l, Hb. reflexivity.
Qed.

Lemma foldM_st_app {A S} (body : S -> A -> Result S) l1 l2 s :
  foldM_st body (l1 ++ l2) s =
  match foldM_st body l1 s with
  | (Ok _, s') => foldM_st body l2 s'
  | (Throw e, s') => (Throw e, s')
  end.
Proof.
  revert s. induction l1 as [|x l1 IH]; intros s; simpl; [reflexivity|].
  destruct (body s x) as [s1|e]; [apply IH|reflexivity].
Qed.

Lemma foldM_st_seqZ_inv {S} (body : S -> Z -> Result S) (P : nat -> S -> Prop)
    (n : nat) (s0 : S) :
  P 0%nat s0 ->
  (forall i s, (i < n)%nat -> P i s ->
     exists s', body s (Z.of_nat i) = Ok s' /\ P (Datatypes.S i) s') ->
  exists s', foldM_st body (seqZ 0 (Z.of_nat n)) s0 = (Ok tt, s') /\ P n s'.
Proof.
  intros H0 Hstep. induction n as [|n IH].
  - exists s0. split; [reflexivity|exact H0].
  - destruct IH as (s1 & Hrun & HP); [intros i s Hi; apply Hstep; lia|].
    destruct (Hstep n s1 ltac:(lia) HP) as (s2 & Hb & HP2).
    exists s2. split; [|exact HP2].
    rewrite seqZ_S, foldM_st_app, Hrun. simpl. rewrite Z.add_0_l, Hb. reflexivity.
Qed.

(** A loop that ran to its end ran as [foldM] does. *)
Lemma foldM_st_Ok {A S} (body : S -> A -> Result S) l s s' :
  foldM body l s = Ok s' -> foldM_st body l s = (Ok tt, s').
Proof.
  revert s. induction l as [|x l IH]; intros s; simpl.
  - intros [= ->]. reflexivity.
  - destruct (body s x) as [s1|e]; simpl; [apply IH|discriminate].
Qed.

(** ** Integer kinds *)

Lemma bits_pos k : 0 < bits k.
Proof. destruct k; reflexivity. Qed.

Lemma wrap_range k z : is_float k = false -> int_range k (wrap_kind k z).
Proof.
  intros Hk. unfold int_range, wrap_kind, wrap.
  pose proof (Z.mod_pos_bound z (2 ^ bits k) ltac:(apply Z.pow_pos_nonneg; [lia|destruct k; simpl; lia])) as Hm.
  assert (Hhalf : 2 ^ bits k = 2 * 2 ^ (bits k - 1)).
  { rewrite <- Z.pow_succ_r by (pose proof (bits_pos k); lia). f_equal. lia. }
  destruct (is_signed k); simpl.
  - destruct (Z.leb_spec (2 ^ (bits k - 1)) (z mod 2 ^ bits k)); lia.
  - lia.
Qed.

Lemma wrap_id k z : int_range k z -> wrap_kind k z = z.
Proof.
  unfold int_range, wrap_kind, wrap. intros Hr.
  assert (Hhalf : 2 ^ bits k = 2 * 2 ^ (bits k - 1)).
  { rewrite <- Z.pow_succ_r by (pose proof (bits_pos k); lia). f_equal. lia. }
  assert (0 < 2 ^ (bits k - 1)) by (apply Z.pow_pos_nonneg; pose proof (bits_pos k); lia).
  destruct (is_signed k); simpl.
  - destruct (Z.ltb_spec z 0).
    + replace (z mod 2 ^ bits k) with (z + 2 ^ bits k)
        by (apply Z.mod_unique with (-1); lia).
      destruct (Z.leb_spec (2 ^ (bits k - 1)) (z + 2 ^ bits k)); lia.
    + rewrite Z.mod_small by lia.
      destruct (Z.leb_spec (2 ^ (bits k - 1)) z); lia.
  - apply Z.mod_small. lia.
Qed.

Lemma wrap_mod k z : wrap_kind k z mod 2 ^ bits k = z mod 2 ^ bits k.
Proof.
  unfold wrap_kind, wrap.
  assert (0 < 2 ^ bits k) by (apply Z.pow_pos_nonneg; pose proof (bits_pos k); lia).
  destruct (is_signed k && _).
  - rewrite <- Zminus_mod_idemp_r, Z.mod_same, Z.sub_0_r, Z.mod_mod by lia. reflexivity.
  - apply Z.mod_mod. lia.
Qed.

Lemma wrap_eq_mod k a b :
  a mod 2 ^ bits k = b mod 2 ^ bits k -> wrap_kind k a = wrap_kind k b.
Proof. unfold wrap_kind, wrap. intros ->. reflexivity. Qed.

Lemma wrap_add_l k a b : wrap_kind k (wrap_kind k a + b) = wrap_kind k (a + b).
Proof.
  apply wrap_eq_mod.
  rewrite <- Zplus_mod_idemp_l, wrap_mod, Zplus_mod_idemp_l. reflexivity.
Qed.

Lemma int_range_small k z : int_range k z -> Z.abs z < 2 ^ 64.
Proof.
  unfold int_range. destruct k; simpl; lia.
Qed.

Lemma int_range_number k z :
  is_float k = false -> is_wide k = false -> int_range k z -> Z.abs z < 2 ^ 32.
Proof.
  unfold int_range.
  destruct k; simpl; intros Hf Hw; try discriminate Hf; try discriminate Hw; lia.
Qed.

(** ** Loads and stores *)

(** Storing what was read from a cell of the kind gives the cell back. *)
Lemma store_load k c : cell_ok k c -> store k (load k c) = Ok c.
Proof.
  destruct c as [z|x]; simpl.
  - intros [Hf Hr]. unfold store, load.
    destruct (is_wide k) eqn:Hw.
    + rewrite wrap_id by exact Hr. reflexivity.
    + simpl. rewrite truncZ_ofZ by (pose proof (int_range_number k z Hf Hw Hr); lia).
      rewrite wrap_id by exact Hr. destruct k; try discriminate; reflexivity.
  - destruct k; try contradiction; unfold store; simpl.
    + intros [_ ->]. reflexivity.
    + reflexivity.
Qed.

(** [sum[j] += x] on two integer cells: the sum is reduced into the kind. *)
Lemma add_store_int k a b :
  is_float k = false -> int_range k a -> int_range k b ->
  (v ← js_add (load k (CInt a)) (load k (CInt b)); store k v)
  = Ok (CInt (wrap_kind k (a + b))).
Proof.
  intros Hf Ha Hb. unfold load, store, js_add, js_arith.
  destruct (is_wide k) eqn:Hw; simpl; rewrite ?Hw.
  - reflexivity.
  - pose proof (int_range_number k a Hf Hw Ha). pose proof (int_range_number k b Hf Hw Hb).
    rewrite add_ofZ, truncZ_ofZ by lia.
    destruct k; try discriminate; reflexivity.
Qed.

(** ** Typed arrays at natural indices *)

Lemma ta_get_nat a (i : nat) c :
  cells a !! i = Some c -> ta_get a (Z.of_nat i) = load (ctor a) c.
Proof.
  intros Hc. unfold ta_get.
  destruct (Z.ltb_spec (Z.of_nat i) 0); [lia|]. rewrite Nat2Z.id, Hc. reflexivity.
Qed.

Lemma ta_get_out a (i : nat) :
  (length (cells a) <= i)%nat -> ta_get a (Z.of_nat i) = JUndefined.
Proof.
  intros Hi. unfold ta_get.
  destruct (Z.ltb_spec (Z.of_nat i) 0); [reflexivity|].
  rewrite Nat2Z.id, lookup_ge_None_2 by lia. reflexivity.
Qed.

Lemma ta_put_nat a (i : nat) v c :
  store (ctor a) v = Ok c ->
  ta_put a (Z.of_nat i) v = Ok (mkTA (ctor a) (<[i := c]> (cells a))).
Proof.
  intros Hs. unfold ta_put. rewrite Hs. simpl.
  destruct (Z.ltb_spec (Z.of_nat i) 0); [lia|]. rewrite Nat2Z.id. reflexivity.
Qed.

Lemma ta_new_nat k (n : nat) :
  ta_new k (Z.of_nat n) = Ok (mkTA k (replicate n (zero_cell k))).
Proof.
  unfold ta_new. destruct (Z.ltb_spec (Z.of_nat n) 0); [lia|].
  rewrite Nat2Z.id. reflexivity.
Qed.

Lemma ta_length_nat a : ta_length a = Z.of_nat (length (cells a)).
Proof. reflexivity. Qed.

(** The shape of a matrix of the data model, in natural numbers. *)
Lemma wf_shape m :
  wf m ->
  exists R C : nat, nRows m = Z.of_nat R /\ nCols m = Z.of_nat C /\
                    length (cells (data m)) = (R * C)%nat.
Proof.
  intros (HR & HC & HL & _). exists (Z.to_nat (nRows m)), (Z.to_nat (nCols m)).
  rewrite !Z2Nat.id by lia. split; [reflexivity|]. split; [reflexivity|].
  unfold layout_ok, ta_length in HL. nia.
Qed.

Lemma index_lt (R C r c : nat) : (r < R)%nat -> (c < C)%nat -> (r * C + c < R * C)%nat.
Proof. nia. Qed.

(** ** Columns and the transpose *)

Lemma cols_column_spec m (R C i : nat) :
  nRows m = Z.of_nat R -> nCols m = Z.of_nat C ->
  length (cells (data m)) = (R * C)%nat -> ta_ok (data m) -> (i < C)%nat ->
  exists c, cols_column m (Z.of_nat i) = Ok c /\ ctor c = ctor (data m) /\
            length (cells c) = R /\
            forall j, (j < R)%nat -> cells c !! j = cells (data m) !! (j * C + i)%nat.
Proof.
  intros HR HC HL Hok Hi. unfold cols_column. rewrite HR, ta_new_nat. simpl.
  set (k := ctor (data m)).
  destruct (foldM_seqZ_inv
              (fun c j => ta_put c j (ta_get (data m) (j * nCols m + Z.of_nat i)))
              (fun n c => ctor c = k /\ length (cells c) = R /\
                          forall j, (j < n)%nat ->
                                    cells c !! j = cells (data m) !! (j * C + i)%nat)
              R (mkTA k (replicate R (zero_cell k)))) as (c & Hrun & Hk & Hlen & Hc).
  - split; [reflexivity|]. split; [apply length_replicate|]. intros j Hj. lia.
  - intros n c Hn (Hk & Hlen & Hc).
    assert (Hin : (n * C + i < length (cells (data m)))%nat)
      by (rewrite HL; apply index_lt; assumption).
    destruct (lookup_lt_is_Some_2 _ _ Hin) as [x Hx].
    replace (Z.of_nat n * nCols m + Z.of_nat i) with (Z.of_nat (n * C + i)) by lia.
    rewrite (ta_get_nat _ _ x Hx).
    assert (Hs : store (ctor c) (load (ctor (data m)) x) = Ok x).
    { rewrite Hk. apply store_load. eapply (Forall_lookup_1 _ _ _ _ Hok Hx). }
    rewrite (ta_put_nat _ _ _ _ Hs). eexists. split; [reflexivity|]. simpl.
    split; [exact Hk|]. split; [rewrite length_insert; exact Hlen|].
    intros j Hj. destruct (decide (j = n)) as [->|Hne].
    + rewrite list_lookup_insert_eq by lia. symmetry. exact Hx.
    + rewrite list_lookup_insert_ne by lia. apply Hc. lia.
  - exists c. auto.
Qed.

Lemma mapM_Ok {A B} (f : A -> Result B) (g : A -> B) (l : list A) :
  (forall x, x ∈ l -> f x = Ok (g x)) -> mapM f l = Ok (g <$> l).
Proof.
  induction l as [|x l IH]; intros H; [reflexivity|].
  cbn [mapM]. rewrite H by left. cbn [mbind Result_bind].
  rewrite IH by (intros y Hy; apply H; right; exact Hy). reflexivity.
Qed.

(** [cols()] yields the [C] columns of the buffer, left to right. *)
Lemma cols_spec m (R C : nat) :
  nRows m = Z.of_nat R -> nCols m = Z.of_nat C ->
  length (cells (data m)) = (R * C)%nat -> ta_ok (data m) ->
  cols m = Ok ((fun i => mkTA (ctor (data m))
                          ((fun j => cells (data m) !!! (j * C + Z.to_nat i)%nat)
                             <$> seq 0 R))
                 <$> seqZ 0 (Z.of_nat C)).
Proof.
  intros HR HC HL Hok. unfold cols. rewrite HC. apply mapM_Ok.
  intros i Hi. apply elem_of_seqZ in Hi.
  destruct (cols_column_spec m R C (Z.to_nat i) HR HC HL Hok ltac:(lia))
    as (c & Hrun & Hk & Hlen & Hc).
  rewrite Z2Nat.id in Hrun by lia. rewrite Hrun. f_equal.
  destruct c as [kc cc]. simpl in *. subst kc. f_equal.
  apply list_eq_same_length with R; [rewrite length_fmap, length_seq; reflexivity|exact Hlen|].
  intros j x y Hj Hx Hy. rewrite Hc in Hx by exact Hj.
  rewrite list_lookup_fmap, lookup_seq_lt in Hy by exact Hj. simpl in Hy.
  injection Hy as <-. apply list_lookup_total_correct in Hx. congruence.
Qed.

Lemma T_spec m (R C : nat) :
  nRows m = Z.of_nat R -> nCols m = Z.of_nat C ->
  length (cells (data m)) = (R * C)%nat -> ta_ok (data m) ->
  exists a, T m = Ok (mkMatrix (ctor (data m)) (Z.of_nat C) (Z.of_nat R) a) /\
            ctor a = ctor (data m) /\ length (cells a) = (C * R)%nat /\
            forall r c, (r < R)%nat -> (c < C)%nat ->
                        cells a !! (c * R + r)%nat = cells (data m) !! (r * C + c)%nat.
Proof.
  intros HR HC HL Hok. unfold T. rewrite HR, HC.
  replace (Z.of_nat R * Z.of_nat C) with (Z.of_nat (C * R)) by lia.
  rewrite ta_new_nat. simpl.
  set (k := ctor (data m)).
  destruct (foldM_seqZ_inv
              (fun (s : TypedArray * Z) j =>
                 c ← cols_column m j;
                 match ta_set s.1 (Typed c) (s.2 * Z.of_nat R) with
                 | (Ok _, a) => Ok (a, s.2 + 1)
                 | (Throw e, _) => Throw e
                 end)
              (fun n s => s.2 = Z.of_nat n /\ ctor s.1 = k /\
                          length (cells s.1) = (C * R)%nat /\
                          forall c r, (c < n)%nat -> (r < R)%nat ->
                            cells s.1 !! (c * R + r)%nat
                            = cells (data m) !! (r * C + c)%nat)
              C (mkTA k (replicate (C * R) (zero_cell k)), 0))
    as ([a cnt] & Hrun & Hcnt & Hk & Hlen & Ha).
  - split; [reflexivity|]. split; [reflexivity|].
    split; [apply length_replicate|]. intros c r Hc. lia.
  - intros n [a cnt] Hn (Hcnt & Hk & Hlen & Ha). simpl in *. subst cnt.
    destruct (cols_column_spec m R C n HR HC HL Hok Hn) as (c & -> & Hck & Hcl & Hc).
    simpl. unfold ta_set. rewrite Hk, Hck. fold k. rewrite eqb_reflx. simpl.
    assert (Hfit : (n * R + R <= C * R)%nat) by nia.
    assert (Hfit' : (n * R <= C * R)%nat) by nia.
    rewrite !ta_length_nat, Hlen, Hcl.
    destruct (Z.ltb_spec (Z.of_nat n * Z.of_nat R) 0) as [|_]; [lia|].
    destruct (Z.ltb_spec (Z.of_nat (C * R)) (Z.of_nat R + Z.of_nat n * Z.of_nat R)) as [|_]; [lia|].
    simpl. rewrite decide_True by reflexivity.
    eexists. split; [reflexivity|]. simpl.
    replace (Z.to_nat (Z.of_nat n * Z.of_nat R)) with (n * R)%nat by lia.
    split; [lia|]. split; [reflexivity|].
    split.
    { rewrite !length_app, length_take, length_drop, Hcl, Hlen. lia. }
    intros c' r Hc' Hr.
    destruct (decide (c' = n)) as [->|Hne].
    + rewrite lookup_app_r by (rewrite length_take; lia).
      rewrite length_take, Hlen.
      rewrite Nat.min_l by lia.
      replace (n * R + r - n * R)%nat with r by lia.
      rewrite lookup_app_l by lia. apply Hc, Hr.
    + assert ((c' * R + r < n * R)%nat) by nia.
      rewrite lookup_app_l by (rewrite length_take; lia).
      rewrite lookup_take_lt by lia. apply Ha; lia.
  - simpl in *. exists a. split.
    + rewrite Hrun. simpl. unfold getDataType. rewrite Hk. reflexivity.
    + split; [exact Hk|]. split; [exact Hlen|].
      intros r c Hr Hc. apply Ha; assumption.
Qed.

Lemma index_split (R C p : nat) :
  (p < R * C)%nat -> exists r c, (r < R)%nat /\ (c < C)%nat /\ p = (r * C + c)%nat.
Proof.
  intros Hp. assert (C <> 0)%nat by nia.
  exists (p / C)%nat, (p mod C)%nat.
  pose proof (Nat.mod_upper_bound p C ltac:(lia)).
  pose proof (Nat.div_mod_eq p C).
  split; [apply Nat.Div0.div_lt_upper_bound; lia|]. split; lia.
Qed.

Lemma cell_at_nat m (C r c : nat) :
  nCols m = Z.of_nat C ->
  cell_at m (Z.of_nat r) (Z.of_nat c) = cells (data m) !! (r * C + c)%nat.
Proof.
  intros HC. unfold cell_at. rewrite HC.
  destruct (Z.ltb_spec (Z.of_nat r * Z.of_nat C + Z.of_nat c) 0); [lia|].
  f_equal. lia.
Qed.

(** ** The sample matrices are matrices of the data model *)

Ltac prove_wf :=
  unfold wf, layout_ok, ta_ok, ta_length; cbn;
  repeat split; try lia; try reflexivity;
  repeat (constructor; try (cbn; repeat split; (lia || reflexivity))).

Lemma wf_sample_i16 : wf sample_i16.
Proof. prove_wf. Qed.

Lemma wf_sample_u8 : wf sample_u8.
Proof. prove_wf. Qed.

Lemma wf_sample_i64 : wf sample_i64.
Proof. prove_wf. Qed.

Lemma wf_sample_tf : wf sample_tf.
Proof. prove_wf. Qed.

Lemma wf_empty_u64 : wf empty_u64.
Proof. prove_wf. Qed.

Lemma wf_single_u64 : wf single_u64.
Proof. prove_wf. Qed.

(** ** The transpose is an involution *)

(** C4. For every matrix of the data model, of any shape and any of the ten
    element kinds, the transpose is computed without a throw, has the
    swapped shape and holds at (c, r) the cell the matrix holds at (r, c);
    transposing the transpose gives the matrix back: same kind, same shape,
    same buffer contents. *)
Theorem transpose_involutive (m : Matrix) :
  wf m ->
  exists m', T m = Ok m' /\
             nRows m' = nCols m /\ nCols m' = nRows m /\
             (forall r c, 0 <= r < nRows m -> 0 <= c < nCols m ->
                          cell_at m' c r = cell_at m r c) /\
             T m' = Ok m.
Proof.
  intros Hwf. destruct (wf_shape m Hwf) as (R & C & HR & HC & HL).
  destruct Hwf as (_ & _ & _ & Hty & Hok).
  destruct (T_spec m R C HR HC HL Hok) as (a & HT & Hka & Hla & Ha).
  eexists. split; [exact HT|]. simpl.
  split; [symmetry; exact HC|]. split; [symmetry; exact HR|]. split.
  { intros r c Hr Hc.
    rewrite <- (Z2Nat.id r), <- (Z2Nat.id c) by lia.
    rewrite (cell_at_nat _ R) by reflexivity.
    rewrite (cell_at_nat _ C) by exact HC. apply Ha; lia. }
  assert (Hoka : Forall (cell_ok (ctor a)) (cells a)).
  { apply Forall_lookup_2. intros p x Hp.
    assert (Hlt : (p < C * R)%nat) by (rewrite <- Hla; eapply lookup_lt_Some, Hp).
    destruct (index_split C R p Hlt) as (c & r & Hc & Hr & ->).
    rewrite Ha in Hp by assumption. rewrite Hka.
    eapply (Forall_lookup_1 _ _ _ _ Hok Hp). }
  destruct (T_spec (mkMatrix (ctor (data m)) (Z.of_nat C) (Z.of_nat R) a) C R
              eq_refl eq_refl Hla Hoka) as (b & HT' & Hkb & Hlb & Hb).
  simpl in *. rewrite HT'. f_equal.
  destruct m as [dt nr nc [kd cs]]. simpl in *. subst dt nr nc.
  destruct b as [kb cb]. simpl in *. subst kb. rewrite Hka. f_equal. f_equal.
  apply list_eq_same_length with (R * C)%nat; [lia|lia|].
  intros p x y Hp Hx Hy.
  destruct (index_split R C p Hp) as (r & c & Hr & Hc & ->).
  rewrite Hb in Hx by assumption. rewrite Ha in Hx by assumption. congruence.
Qed.

Lemma transpose_involutive_witness :
  wf sample_i16 /\
  exists m', T sample_i16 = Ok m' /\
             cells (data m') = [CInt 1; CInt 4; CInt 2; CInt 5; CInt 3; CInt 6] /\
             T m' = Ok sample_i16.
Proof.
  split; [exact wf_sample_i16|].
  destruct (transpose_involutive sample_i16 wf_sample_i16) as (m' & HT & _ & _ & _ & HTT).
  exists m'. split; [exact HT|]. split; [|exact HTT].
  vm_compute in HT. injection HT as <-. reflexivity.
Defined.

(** ** Reductions *)

Lemma cell_ok_summable k c : cell_ok k c -> summable k c.
Proof.
  destruct c as [z|x]; simpl; [auto|]. destruct k; simpl; try contradiction; auto.
Qed.

Lemma zero_cell_summable k : summable k (zero_cell k).
Proof.
  unfold zero_cell. destruct (is_float k) eqn:Hf; simpl; [exact Hf|].
  split; [exact Hf|]. unfold int_range.
  assert (0 < 2 ^ (bits k - 1)) by (apply Z.pow_pos_nonneg; pose proof (bits_pos k); lia).
  assert (0 < 2 ^ bits k) by (apply Z.pow_pos_nonneg; pose proof (bits_pos k); lia).
  destruct (is_signed k); lia.
Qed.

Lemma cell_add_summable k c1 c2 :
  summable k c1 -> summable k c2 -> summable k (cell_add k c1 c2).
Proof.
  destruct c1 as [a|x], c2 as [b|y]; simpl; try tauto.
  intros [Hf _] _. split; [exact Hf|]. apply wrap_range, Hf.
Qed.

Create HintDb summable discriminated.
#[global] Hint Resolve zero_cell_summable cell_add_summable cell_ok_summable : summable.

(** [sum[j] += x] on two cells of the kind stores [cell_add]. *)
Lemma cell_add_step k c1 c2 :
  summable k c1 -> summable k c2 ->
  (v ← js_add (load k c1) (load k c2); store k v) = Ok (cell_add k c1 c2).
Proof.
  destruct c1 as [a|x], c2 as [b|y]; simpl.
  - intros [Hf Ha] [_ Hb]. apply add_store_int; assumption.
  - intros [Hf _] Hf'. congruence.
  - intros Hf [Hf' _]. congruence.
  - intros Hf _. destruct k; try discriminate Hf; reflexivity.
Qed.

(** One pass of [sum[j] += get(j)] over the whole of [sum]. *)
Lemma acc_pass k (n : nat) (get : Z -> JsValue) (src : nat -> Cell) (sum : TypedArray) :
  ctor sum = k -> length (cells sum) = n -> Forall (summable k) (cells sum) ->
  (forall j, (j < n)%nat -> get (Z.of_nat j) = load k (src j) /\ summable k (src j)) ->
  exists sum',
    foldM (fun sum j => v ← js_add (ta_get sum j) (get j); ta_put sum j v)
      (seqZ 0 (Z.of_nat n)) sum = Ok sum' /\
    ctor sum' = k /\ length (cells sum') = n /\ Forall (summable k) (cells sum') /\
    forall j c, cells sum !! j = Some c -> cells sum' !! j = Some (cell_add k c (src j)).
Proof.
  intros Hk Hlen Hsum Hget.
  destruct (foldM_seqZ_inv
              (fun sum j => v ← js_add (ta_get sum j) (get j); ta_put sum j v)
              (fun n' s => ctor s = k /\ length (cells s) = n /\
                           Forall (summable k) (cells s) /\
                           (forall j c, (j < n')%nat -> cells sum !! j = Some c ->
                                        cells s !! j = Some (cell_add k c (src j))) /\
                           (forall j, (n' <= j)%nat -> cells s !! j = cells sum !! j))
              n sum) as (s & Hrun & Hks & Hls & Hss & Hdone & _).
  - repeat split; auto. intros j c Hj. lia.
  - intros i s Hi (Hks & Hls & Hss & Hdone & Hrest).
    destruct (lookup_lt_is_Some_2 (cells sum) i ltac:(lia)) as [c Hc].
    assert (Hsc : cells s !! i = Some c) by (rewrite Hrest by lia; exact Hc).
    destruct (Hget i Hi) as [Hg Hsrc].
    assert (Hc_ok : summable k c) by (eapply (Forall_lookup_1 _ _ _ _ Hsum Hc)).
    rewrite (ta_get_nat _ _ _ Hsc), Hg, Hks.
    pose proof (cell_add_step k c (src i) Hc_ok Hsrc) as Hstep.
    destruct (js_add (load k c) (load k (src i))) as [v|e]; [|discriminate Hstep].
    simpl in Hstep |- *.
    assert (Hst : store (ctor s) v = Ok (cell_add k c (src i)))
      by (rewrite Hks; exact Hstep).
    rewrite (ta_put_nat _ _ _ _ Hst). eexists. split; [reflexivity|]. simpl.
    split; [exact Hks|]. split; [rewrite length_insert; exact Hls|].
    split; [apply Forall_insert; auto with summable|].
    split.
    + intros j c' Hj Hc'. destruct (decide (j = i)) as [->|Hne].
      * rewrite list_lookup_insert_eq by lia. congruence.
      * rewrite list_lookup_insert_ne by lia. apply Hdone; [lia|exact Hc'].
    + intros j Hj. rewrite list_lookup_insert_ne by lia. apply Hrest. lia.
  - exists s. repeat split; auto.
    intros j c Hc. apply Hdone; [|exact Hc].
    rewrite <- Hlen. eapply lookup_lt_Some, Hc.
Qed.

Lemma accumulate_snoc k l c :
  accumulate k (l ++ [c]) = cell_add k (accumulate k l) c.
Proof. unfold accumulate. rewrite foldl_app. reflexivity. Qed.

Lemma lookup_total_in (cs : list Cell) p :
  (p < length cs)%nat -> cs !! p = Some (cs !!! p).
Proof.
  intros Hp. destruct (lookup_lt_is_Some_2 cs p Hp) as [c Hc].
  rewrite (list_lookup_total_correct _ _ _ Hc). exact Hc.
Qed.

Section ReductionLoops.
(** A matrix whose buffer holds [R * C] cells the reductions can add. *)
Context (m : Matrix) (R C : nat).
Hypothesis HR : nRows m = Z.of_nat R.
Hypothesis HC : nCols m = Z.of_nat C.
Hypothesis HL : length (cells (data m)) = (R * C)%nat.
Hypothesis Hok : Forall (summable (ctor (data m))) (cells (data m)).

Local Abbreviation k := (ctor (data m)).
Local Abbreviation cs := (cells (data m)).

(** Element [(i, j)] is read at flat offset [i * C + j] and can be added. *)
Lemma data_cell i j :
  (i < R)%nat -> (j < C)%nat ->
  ta_get (data m) (Z.of_nat (i * C + j)) = load k (cs !!! (i * C + j)%nat) /\
  summable k (cs !!! (i * C + j)%nat).
Proof using HL Hok.
  intros Hi Hj.
  assert (Hin : (i * C + j < length cs)%nat) by (rewrite HL; apply index_lt; lia).
  rewrite (ta_get_nat _ _ _ (lookup_total_in cs _ Hin)). split; [reflexivity|].
  eapply (Forall_lookup_1 _ _ _ _ Hok), lookup_total_in, Hin.
Qed.

Lemma rowSum_spec :
  rowSum m = Ok (mkTA k ((fun j => accumulate k (column_cells cs R C j)) <$> seq 0 C)).
Proof using HR HC HL Hok.
  unfold rowSum. rewrite HR, HC, ta_new_nat. simpl.
  destruct (foldM_seqZ_inv
              (fun (s : TypedArray * Z) (_ : Z) =>
                 sum ← foldM (fun sum j =>
                                v ← js_add (ta_get sum j) (ta_get (data m) (s.2 + j));
                                ta_put sum j v)
                         (seqZ 0 (Z.of_nat C)) s.1;
                 Ok (sum, s.2 + Z.of_nat C))
              (fun i s => s.2 = Z.of_nat (i * C) /\ ctor s.1 = k /\
                          length (cells s.1) = C /\ Forall (summable k) (cells s.1) /\
                          forall j, (j < C)%nat ->
                            cells s.1 !! j = Some (accumulate k (column_cells cs i C j)))
              R (mkTA k (replicate C (zero_cell k)), 0))
    as ([sum off] & Hrun & _ & Hk & Hlen & _ & Hsum).
  - simpl. split; [lia|]. split; [reflexivity|]. split; [apply length_replicate|].
    split; [apply Forall_replicate, zero_cell_summable|].
    intros j Hj. rewrite lookup_replicate_2 by lia. reflexivity.
  - intros i [sum off] Hi (Hoff & Hk & Hlen & Hs & Hsum). simpl in *. subst off.
    destruct (acc_pass k C (fun j => ta_get (data m) (Z.of_nat (i * C) + j))
                (fun j => cs !!! (i * C + j)%nat) sum Hk Hlen Hs)
      as (sum' & -> & Hk' & Hlen' & Hs' & Hsum').
    { intros j Hj.
      replace (Z.of_nat (i * C) + Z.of_nat j) with (Z.of_nat (i * C + j)) by lia.
      apply data_cell; assumption. }
    simpl. eexists. split; [reflexivity|]. simpl.
    split; [lia|]. split; [exact Hk'|]. split; [exact Hlen'|]. split; [exact Hs'|].
    intros j Hj. rewrite (Hsum' j _ (Hsum j Hj)). f_equal.
    unfold column_cells. rewrite seq_S, fmap_app. cbn [fmap list_fmap].
    rewrite accumulate_snoc. reflexivity.
  - simpl in *. rewrite Hrun. simpl. f_equal.
    destruct sum as [ks cells_s]. simpl in *. subst ks. f_equal.
    apply list_eq_same_length with C; [rewrite length_fmap, length_seq; reflexivity|exact Hlen|].
    intros j x y Hj Hx Hy. rewrite Hsum in Hx by exact Hj.
    rewrite list_lookup_fmap, lookup_seq_lt in Hy by exact Hj. simpl in Hy. congruence.
Qed.

Lemma colSum_spec :
  colSum m = Ok (mkTA k ((fun r => accumulate k (row_cells cs C r)) <$> seq 0 R)).
Proof using HR HC HL Hok.
  unfold colSum. rewrite HR, HC, ta_new_nat. simpl.
  destruct (foldM_seqZ_inv
              (fun sum i =>
                 foldM (fun sum j =>
                          v ← js_add (ta_get sum j) (item m j i);
                          ta_put sum j v)
                   (seqZ 0 (Z.of_nat R)) sum)
              (fun i s => ctor s = k /\ length (cells s) = R /\
                          Forall (summable k) (cells s) /\
                          forall r, (r < R)%nat ->
                            cells s !! r
                            = Some (accumulate k
                                      ((fun c => cs !!! (r * C + c)%nat) <$> seq 0 i)))
              C (mkTA k (replicate R (zero_cell k))))
    as (sum & Hrun & Hk & Hlen & _ & Hsum).
  - simpl. split; [reflexivity|]. split; [apply length_replicate|].
    split; [apply Forall_replicate, zero_cell_summable|].
    intros j Hj. rewrite lookup_replicate_2 by lia. reflexivity.
  - intros i sum Hi (Hk & Hlen & Hs & Hsum).
    destruct (acc_pass k R (fun j => item m j (Z.of_nat i))
                (fun j => cs !!! (j * C + i)%nat) sum Hk Hlen Hs)
      as (sum' & -> & Hk' & Hlen' & Hs' & Hsum').
    { intros j Hj. unfold item. rewrite HC.
      replace (Z.of_nat j * Z.of_nat C + Z.of_nat i) with (Z.of_nat (j * C + i)) by lia.
      apply data_cell; assumption. }
    eexists. split; [reflexivity|].
    split; [exact Hk'|]. split; [exact Hlen'|]. split; [exact Hs'|].
    intros r Hr. rewrite (Hsum' r _ (Hsum r Hr)). f_equal.
    rewrite seq_S, fmap_app. cbn [fmap list_fmap].
    rewrite accumulate_snoc. reflexivity.
  - rewrite Hrun. f_equal.
    destruct sum as [ks cells_s]. simpl in *. subst ks. f_equal.
    apply list_eq_same_length with R; [rewrite length_fmap, length_seq; reflexivity|exact Hlen|].
    intros j x y Hj Hx Hy. rewrite Hsum in Hx by exact Hj.
    rewrite list_lookup_fmap, lookup_seq_lt in Hy by exact Hj. simpl in Hy.
    unfold row_cells in Hy. congruence.
Qed.

End ReductionLoops.

(** ** Sums of integers *)

Lemma sumZ_cons x l : sumZ (x :: l) = x + sumZ l.
Proof. reflexivity. Qed.

Lemma sumZ_app l1 l2 : sumZ (l1 ++ l2) = sumZ l1 + sumZ l2.
Proof.
  induction l1 as [|x l1 IH]; [reflexivity|].
  rewrite <- app_comm_cons, !sumZ_cons, IH. lia.
Qed.

Lemma sumZ_singleton x : sumZ [x] = x.
Proof. unfold sumZ. simpl. lia. Qed.

Lemma sumZ_fmap_ext {A} (f g : A -> Z) l :
  (forall x, x ∈ l -> f x = g x) -> sumZ (f <$> l) = sumZ (g <$> l).
Proof.
  intros H. f_equal. apply list_fmap_ext. intros i x Hx. apply H.
  eapply list_elem_of_lookup_2, Hx.
Qed.

Lemma sumZ_fmap_add {A} (f g : A -> Z) l :
  sumZ ((fun x => f x + g x) <$> l) = sumZ (f <$> l) + sumZ (g <$> l).
Proof.
  induction l as [|x l IH]; [reflexivity|].
  rewrite !fmap_cons, !sumZ_cons, IH. lia.
Qed.

Lemma sumZ_fmap_mod {A} (f g : A -> Z) l M :
  (forall x, x ∈ l -> f x mod M = g x mod M) ->
  sumZ (f <$> l) mod M = sumZ (g <$> l) mod M.
Proof.
  induction l as [|x l IH]; intros H; [reflexivity|].
  rewrite !fmap_cons, !sumZ_cons.
  rewrite (Zplus_mod (f x)), IH, (H x), <- Zplus_mod; [reflexivity| |].
  - left.
  - intros y Hy. apply H. right. exact Hy.
Qed.

Lemma sumZ_lookup (cs : list Cell) :
  sumZ (int_of <$> cs) = sumZ ((fun p => int_of (cs !!! p)) <$> seq 0 (length cs)).
Proof.
  induction cs as [|c cs IH] using rev_ind; [reflexivity|].
  rewrite length_app, Nat.add_1_r, seq_S, !fmap_app, !sumZ_app.
  cbn [fmap list_fmap]. rewrite !sumZ_singleton, IH. f_equal.
  - apply sumZ_fmap_ext. intros p Hp. apply elem_of_seq in Hp.
    rewrite lookup_total_app_l by lia. reflexivity.
  - rewrite lookup_total_app_r by lia. rewrite Nat.sub_diag. reflexivity.
Qed.

Lemma sumZ_grid (f : nat -> Z) (R C : nat) :
  sumZ (f <$> seq 0 (R * C))
  = sumZ ((fun i => sumZ ((fun j => f (i * C + j)%nat) <$> seq 0 C)) <$> seq 0 R).
Proof.
  induction R as [|R IH]; [reflexivity|].
  replace (S R * C)%nat with (R * C + C)%nat by lia.
  rewrite seq_app, fmap_app, sumZ_app, IH, seq_S, fmap_app, sumZ_app.
  cbn [fmap list_fmap]. rewrite sumZ_singleton. f_equal.
  rewrite !Nat.add_0_l.
  rewrite <- (Nat.add_0_r (R * C)) at 1.
  rewrite <- (fmap_add_seq (R * C) 0 C), <- list_fmap_compose.
  reflexivity.
Qed.

Lemma sumZ_exchange (f : nat -> nat -> Z) (R C : nat) :
  sumZ ((fun i => sumZ ((fun j => f i j) <$> seq 0 C)) <$> seq 0 R)
  = sumZ ((fun j => sumZ ((fun i => f i j) <$> seq 0 R)) <$> seq 0 C).
Proof.
  induction R as [|R IH].
  - cbn [seq fmap list_fmap]. induction (seq 0 C) as [|x l IHl]; [reflexivity|].
    rewrite fmap_cons, sumZ_cons, <- IHl. reflexivity.
  - rewrite seq_S, fmap_app, sumZ_app, IH.
    cbn [fmap list_fmap]. rewrite sumZ_singleton.
    rewrite <- sumZ_fmap_add. apply sumZ_fmap_ext. intros j _.
    rewrite fmap_app, sumZ_app. cbn [fmap list_fmap]. rewrite sumZ_singleton.
    reflexivity.
Qed.

(** Accumulating integer cells: the mathematical sum, reduced into the kind. *)
Lemma accumulate_int k l :
  is_float k = false -> Forall (summable k) l ->
  exists z, accumulate k l = CInt z /\
            z mod 2 ^ bits k = sumZ (int_of <$> l) mod 2 ^ bits k.
Proof.
  intros Hf. induction l as [|c l IH] using rev_ind; intros Hl.
  - exists 0. split; [|reflexivity]. unfold accumulate, zero_cell. rewrite Hf. reflexivity.
  - apply Forall_app in Hl as [Hl Hc]. rewrite Forall_singleton in Hc.
    destruct (IH Hl) as (z & Hz & Hmod). rewrite accumulate_snoc, Hz.
    destruct c as [b|y]; simpl in Hc; [|congruence].
    cbn [cell_add]. eexists. split; [reflexivity|].
    rewrite wrap_mod, fmap_app, sumZ_app. cbn [fmap list_fmap int_of].
    rewrite sumZ_singleton, <- Zplus_mod_idemp_l, Hmod, Zplus_mod_idemp_l. reflexivity.
Qed.

Lemma accumulate_int_of k l :
  is_float k = false -> Forall (summable k) l ->
  int_of (accumulate k l) mod 2 ^ bits k = sumZ (int_of <$> l) mod 2 ^ bits k.
Proof.
  intros Hf Hl. destruct (accumulate_int k l Hf Hl) as (z & -> & Hz). exact Hz.
Qed.

Lemma column_cells_summable k cs (R C j : nat) :
  length cs = (R * C)%nat -> Forall (summable k) cs -> (j < C)%nat ->
  Forall (summable k) (column_cells cs R C j).
Proof.
  intros HL Hok Hj. unfold column_cells. apply Forall_fmap, Forall_forall.
  intros i Hi. apply elem_of_seq in Hi. simpl.
  eapply (Forall_lookup_1 _ _ _ _ Hok), lookup_total_in.
  rewrite HL. apply index_lt; lia.
Qed.

Lemma row_cells_summable k cs (R C r : nat) :
  length cs = (R * C)%nat -> Forall (summable k) cs -> (r < R)%nat ->
  Forall (summable k) (row_cells cs C r).
Proof.
  intros HL Hok Hr. unfold row_cells. apply Forall_fmap, Forall_forall.
  intros i Hi. apply elem_of_seq in Hi. simpl.
  eapply (Forall_lookup_1 _ _ _ _ Hok), lookup_total_in.
  rewrite HL. apply index_lt; lia.
Qed.

Lemma rowSum_total k cs (R C : nat) :
  is_float k = false -> length cs = (R * C)%nat -> Forall (summable k) cs ->
  sumZ (int_of <$> ((fun j => accumulate k (column_cells cs R C j)) <$> seq 0 C))
    mod 2 ^ bits k
  = sumZ (int_of <$> cs) mod 2 ^ bits k.
Proof.
  intros Hf HL Hok. rewrite <- list_fmap_compose.
  rewrite (sumZ_fmap_mod _ (fun j => sumZ (int_of <$> column_cells cs R C j))).
  - f_equal. rewrite sumZ_lookup, HL, sumZ_grid.
    rewrite (sumZ_exchange (fun i j => int_of (cs !!! (i * C + j)%nat))).
    apply sumZ_fmap_ext. intros j _. unfold column_cells.
    rewrite <- list_fmap_compose. reflexivity.
  - intros j Hj. apply elem_of_seq in Hj. simpl.
    apply accumulate_int_of; [exact Hf|].
    apply column_cells_summable; [exact HL|exact Hok|lia].
Qed.

Lemma colSum_total k cs (R C : nat) :
  is_float k = false -> length cs = (R * C)%nat -> Forall (summable k) cs ->
  sumZ (int_of <$> ((fun r => accumulate k (row_cells cs C r)) <$> seq 0 R))
    mod 2 ^ bits k
  = sumZ (int_of <$> cs) mod 2 ^ bits k.
Proof.
  intros Hf HL Hok. rewrite <- list_fmap_compose.
  rewrite (sumZ_fmap_mod _ (fun r => sumZ (int_of <$> row_cells cs C r))).
  - f_equal. rewrite sumZ_lookup, HL, sumZ_grid.
    apply sumZ_fmap_ext. intros r _. unfold row_cells.
    rewrite <- list_fmap_compose. reflexivity.
  - intros r Hr. apply elem_of_seq in Hr. simpl.
    apply accumulate_int_of; [exact Hf|].
    apply (row_cells_summable k cs R C); [exact HL|exact Hok|lia].
Qed.


(** ** Sums of integral floats *)

Lemma sumZ_abs_nonneg (l : list Z) : 0 <= sumZ (Z.abs <$> l).
Proof.
  induction l as [|x l IH]; [reflexivity|]. rewrite fmap_cons, sumZ_cons. lia.
Qed.

Lemma sumZ_abs_triangle (l : list Z) : Z.abs (sumZ l) <= sumZ (Z.abs <$> l).
Proof.
  induction l as [|x l IH]; [reflexivity|]. rewrite fmap_cons, !sumZ_cons. lia.
Qed.

Lemma sumZ_fmap_le {A} (f g : A -> Z) l :
  (forall x, x ∈ l -> f x <= g x) -> sumZ (f <$> l) <= sumZ (g <$> l).
Proof.
  induction l as [|x l IH]; intros H; [reflexivity|].
  rewrite !fmap_cons, !sumZ_cons.
  pose proof (H x ltac:(left)). pose proof (IH (fun y Hy => H y ltac:(right; exact Hy))).
  lia.
Qed.

Lemma sumZ_elem_le {A} (g : A -> Z) l x :
  (forall y, 0 <= g y) -> x ∈ l -> g x <= sumZ (g <$> l).
Proof.
  intros Hg. induction l as [|y l IH]; intros Hx; [inversion Hx|].
  rewrite fmap_cons, sumZ_cons.
  assert (0 <= sumZ (g <$> l)).
  { clear - Hg. induction l as [|z l IHl]; [reflexivity|]. rewrite fmap_cons, sumZ_cons.
    pose proof (Hg z). lia. }
  apply elem_of_cons in Hx as [->|Hx]; [lia|]. pose proof (IH Hx). pose proof (Hg y). lia.
Qed.

Lemma sumZ_lookupZ (l : list Z) :
  sumZ l = sumZ ((fun p => l !!! p) <$> seq 0 (length l)).
Proof.
  induction l as [|c l IH] using rev_ind; [reflexivity|].
  rewrite length_app, Nat.add_1_r, seq_S, !fmap_app, !sumZ_app.
  cbn [fmap list_fmap]. rewrite !sumZ_singleton, IH at 1. f_equal.
  - apply sumZ_fmap_ext. intros p Hp. apply elem_of_seq in Hp.
    rewrite lookup_total_app_l by lia. reflexivity.
  - rewrite lookup_total_app_r by lia. rewrite Nat.sub_diag. reflexivity.
Qed.

(** Integers added as binary64 numbers are added exactly while the sum of
    their magnitudes stays below 2^53. *)
Lemma total_from (zs : list Z) (acc : Z) :
  Z.abs acc + sumZ (Z.abs <$> zs) < 2 ^ 53 ->
  foldl (fun a c => Num.add a (js_Number (load f64 c))) (Num.ofZ acc) (fnum <$> zs)
  = Num.ofZ (acc + sumZ zs).
Proof.
  revert acc. induction zs as [|z zs IH]; intros acc Hb.
  - cbn. f_equal. lia.
  - rewrite !fmap_cons, !sumZ_cons in *. cbn [foldl load fnum js_Number].
    pose proof (sumZ_abs_nonneg zs).
    rewrite add_ofZ by lia. rewrite IH by lia. f_equal. lia.
Qed.

Lemma total_int (zs : list Z) :
  sumZ (Z.abs <$> zs) < 2 ^ 53 -> total f64 (fnum <$> zs) = Num.ofZ (sumZ zs).
Proof.
  intros Hb. unfold total. rewrite total_from by (simpl; lia). reflexivity.
Qed.

Lemma accumulate_from (zs : list Z) (acc : Z) :
  Z.abs acc + sumZ (Z.abs <$> zs) < 2 ^ 53 ->
  foldl (cell_add f64) (fnum acc) (fnum <$> zs) = fnum (acc + sumZ zs).
Proof.
  revert acc. induction zs as [|z zs IH]; intros acc Hb.
  - cbn. f_equal. lia.
  - rewrite !fmap_cons, !sumZ_cons in *. cbn [foldl].
    pose proof (sumZ_abs_nonneg zs).
    assert (Hstep : cell_add f64 (fnum acc) (fnum z) = fnum (acc + z)).
    { unfold fnum. cbn [cell_add]. rewrite decide_False by discriminate.
      rewrite add_ofZ by lia. reflexivity. }
    rewrite Hstep, IH by lia. f_equal. lia.
Qed.

Lemma accumulate_f64_int (zs : list Z) :
  sumZ (Z.abs <$> zs) < 2 ^ 53 -> accumulate f64 (fnum <$> zs) = fnum (sumZ zs).
Proof.
  intros Hb. unfold accumulate. change (zero_cell f64) with (fnum 0).
  rewrite accumulate_from by (simpl; lia). reflexivity.
Qed.

(** The three totals of an [R] by [C] buffer of integral binary64 numbers
    whose magnitudes sum to less than 2^53: the integer sum, exactly. *)
Lemma totals_f64_int (zs : list Z) (R C : nat) :
  length zs = (R * C)%nat -> sumZ (Z.abs <$> zs) < 2 ^ 53 ->
  let cs := fnum <$> zs in
  total f64 ((fun j => accumulate f64 (column_cells cs R C j)) <$> seq 0 C)
  = Num.ofZ (sumZ zs) /\
  total f64 ((fun r => accumulate f64 (row_cells cs C r)) <$> seq 0 R)
  = Num.ofZ (sumZ zs) /\
  total f64 cs = Num.ofZ (sumZ zs).
Proof.
  intros HL Hb cs.
  set (z := fun i j : nat => zs !!! (i * C + j)%nat).
  assert (Hcell : forall i j, (i < R)%nat -> (j < C)%nat ->
                              cs !!! (i * C + j)%nat = fnum (z i j)).
  { intros i j Hi Hj. unfold cs, z. apply list_lookup_total_fmap.
    rewrite HL. apply index_lt; assumption. }
  assert (Habs : sumZ (Z.abs <$> zs)
                 = sumZ ((fun i => sumZ ((fun j => Z.abs (z i j)) <$> seq 0 C)) <$> seq 0 R)).
  { rewrite (sumZ_lookupZ (Z.abs <$> zs)), length_fmap, HL, sumZ_grid.
    apply sumZ_fmap_ext. intros i Hi. apply elem_of_seq in Hi.
    apply sumZ_fmap_ext. intros j Hj. apply elem_of_seq in Hj.
    unfold z. apply list_lookup_total_fmap. rewrite HL. apply index_lt; lia. }
  assert (Hsum : sumZ zs
                 = sumZ ((fun i => sumZ ((fun j => z i j) <$> seq 0 C)) <$> seq 0 R)).
  { rewrite (sumZ_lookupZ zs), HL, sumZ_grid. reflexivity. }
  assert (Hrowb : forall i, (i < R)%nat ->
            sumZ (Z.abs <$> ((fun j => z i j) <$> seq 0 C)) <= sumZ (Z.abs <$> zs)).
  { intros i Hi. rewrite Habs, <- list_fmap_compose.
    apply (sumZ_elem_le (fun i => sumZ ((fun j => Z.abs (z i j)) <$> seq 0 C))).
    - intros y. rewrite (list_fmap_compose (fun j => z y j) Z.abs). apply sumZ_abs_nonneg.
    - apply elem_of_seq. lia. }
  assert (Habs' : sumZ (Z.abs <$> zs)
                  = sumZ ((fun j => sumZ ((fun i => Z.abs (z i j)) <$> seq 0 R)) <$> seq 0 C)).
  { rewrite Habs. apply (sumZ_exchange (fun i j => Z.abs (z i j))). }
  assert (Hcolb : forall j, (j < C)%nat ->
            sumZ (Z.abs <$> ((fun i => z i j) <$> seq 0 R)) <= sumZ (Z.abs <$> zs)).
  { intros j Hj. rewrite Habs', <- list_fmap_compose.
    apply (sumZ_elem_le (fun j => sumZ ((fun i => Z.abs (z i j)) <$> seq 0 R))).
    - intros y. rewrite (list_fmap_compose (fun i => z i y) Z.abs). apply sumZ_abs_nonneg.
    - apply elem_of_seq. lia. }
  split; [|split].
  - (* rowSum: the column totals *)
    assert (Hent : (fun j => accumulate f64 (column_cells cs R C j)) <$> seq 0 C
                   = fnum <$> ((fun j => sumZ ((fun i => z i j) <$> seq 0 R)) <$> seq 0 C)).
    { rewrite <- list_fmap_compose. apply list_fmap_ext. intros p j Hj.
      apply lookup_seq in Hj as [Hj0 Hj]. cbn [Nat.add] in Hj0. subst p. unfold compose.
      rewrite <- accumulate_f64_int by (pose proof (Hcolb j Hj); lia). f_equal.
      unfold column_cells. rewrite <- list_fmap_compose. apply list_fmap_ext.
      intros q i Hi. apply lookup_seq in Hi as [Hi0 Hi]. cbn [Nat.add] in Hi0. subst q. unfold compose.
      apply Hcell; assumption. }
    rewrite Hent, total_int.
    + f_equal. rewrite Hsum. symmetry. apply (sumZ_exchange z).
    + eapply Z.le_lt_trans; [|exact Hb]. rewrite Habs', <- list_fmap_compose.
      apply sumZ_fmap_le. intros j _. unfold compose.
      rewrite (list_fmap_compose (fun i => z i j) Z.abs). apply sumZ_abs_triangle.
  - (* colSum: the row totals *)
    assert (Hent : (fun r => accumulate f64 (row_cells cs C r)) <$> seq 0 R
                   = fnum <$> ((fun i => sumZ ((fun j => z i j) <$> seq 0 C)) <$> seq 0 R)).
    { rewrite <- list_fmap_compose. apply list_fmap_ext. intros p i Hi.
      apply lookup_seq in Hi as [Hi0 Hi]. cbn [Nat.add] in Hi0. subst p. unfold compose.
      rewrite <- accumulate_f64_int by (pose proof (Hrowb i Hi); lia). f_equal.
      unfold row_cells. rewrite <- list_fmap_compose. apply list_fmap_ext.
      intros q j Hj. apply lookup_seq in Hj as [Hj0 Hj]. cbn [Nat.add] in Hj0. subst q. unfold compose.
      apply Hcell; assumption. }
    rewrite Hent, total_int.
    + f_equal. symmetry. exact Hsum.
    + eapply Z.le_lt_trans; [|exact Hb]. rewrite Habs, <- list_fmap_compose.
      apply sumZ_fmap_le. intros i _. unfold compose.
      rewrite (list_fmap_compose (fun j => z i j) Z.abs). apply sumZ_abs_triangle.
  - apply total_int, Hb.
Qed.

Lemma wf_summable m : wf m -> Forall (summable (ctor (data m))) (cells (data m)).
Proof.
  intros (_ & _ & _ & _ & Hok). eapply Forall_impl; [exact Hok|].
  auto with summable.
Qed.

(** C5, as the code has it. For every matrix of the data model, rowSum
    gives a vector of length nCols whose entry j is column j summed top to
    bottom with the kind's native addition, and colSum a vector of length
    nRows whose entry r is row r summed left to right; with no row or no
    column both results are all zero. For the eight integer kinds every
    entry is reduced into the kind, so the sum of the entries of rowSum, the
    sum of the entries of colSum and the sum of all elements agree modulo
    2^w, w the width of the kind. For an f64 matrix whose elements are
    integers with magnitudes summing to less than 2^53, the three totals,
    added as numbers from left to right, are that integer sum exactly. *)
Theorem reduction_consistency (m : Matrix) :
  wf m ->
  let k := ctor (data m) in
  let R := Z.to_nat (nRows m) in
  let C := Z.to_nat (nCols m) in
  let cs := cells (data m) in
  exists rsum csum,
    rowSum m = Ok rsum /\ colSum m = Ok csum /\
    ctor rsum = k /\ ctor csum = k /\
    ta_length rsum = nCols m /\ ta_length csum = nRows m /\
    cells rsum = (fun j => accumulate k (column_cells cs R C j)) <$> seq 0 C /\
    cells csum = (fun r => accumulate k (row_cells cs C r)) <$> seq 0 R /\
    (nRows m = 0 \/ nCols m = 0 ->
     Forall (fun c => c = zero_cell k) (cells rsum) /\
     Forall (fun c => c = zero_cell k) (cells csum)) /\
    (is_float k = false ->
     sumZ (int_of <$> cells rsum) mod 2 ^ bits k = sumZ (int_of <$> cs) mod 2 ^ bits k /\
     sumZ (int_of <$> cells csum) mod 2 ^ bits k = sumZ (int_of <$> cs) mod 2 ^ bits k) /\
    (forall zs, k = f64 -> cs = fnum <$> zs -> sumZ (Z.abs <$> zs) < 2 ^ 53 ->
     total k (cells rsum) = Num.ofZ (sumZ zs) /\
     total k (cells csum) = Num.ofZ (sumZ zs) /\
     total k cs = Num.ofZ (sumZ zs)).
Proof.
  intros Hwf k R C cs. pose proof (wf_summable m Hwf) as Hsum.
  destruct Hwf as (HR & HC & HL & _ & _).
  assert (HR' : nRows m = Z.of_nat R) by (unfold R; lia).
  assert (HC' : nCols m = Z.of_nat C) by (unfold C; lia).
  assert (HL' : length cs = (R * C)%nat)
    by (unfold layout_ok, ta_length in HL; fold cs in HL; nia).
  rewrite (rowSum_spec m R C HR' HC' HL' Hsum), (colSum_spec m R C HR' HC' HL' Hsum).
  fold k cs. eexists _, _. split; [reflexivity|]. split; [reflexivity|]. simpl.
  split; [reflexivity|]. split; [reflexivity|].
  split; [unfold ta_length; simpl; rewrite length_fmap, length_seq; lia|].
  split; [unfold ta_length; simpl; rewrite length_fmap, length_seq; lia|].
  split; [reflexivity|]. split; [reflexivity|]. split; [|split].
  - intros Hzero.
    split; apply Forall_fmap, Forall_forall; intros i Hi; apply elem_of_seq in Hi; simpl.
    + unfold column_cells. destruct Hzero as [Hz|Hz]; [|lia].
      replace R with 0%nat by lia. reflexivity.
    + unfold row_cells. destruct Hzero as [Hz|Hz]; [lia|].
      replace C with 0%nat by lia. reflexivity.
  - intros Hf. split.
    + apply rowSum_total; assumption.
    + apply colSum_total; assumption.
  - intros zs Hk Hcs Hb. unfold k, cs in *. rewrite Hk, Hcs.
    apply totals_f64_int; [|exact Hb].
    rewrite Hcs, length_fmap in HL'. exact HL'.
Qed.

Lemma wf_sample_huge : wf sample_huge.
Proof.
  unfold wf, layout_ok, ta_ok, ta_length. cbn [sample_huge nRows nCols data dType ctor cells].
  repeat split; try (cbn; lia).
  repeat constructor; vm_compute; reflexivity.
Qed.

(** C5 fails as stated, for the integer kinds and for the float kinds.
    For the Uint8Array matrix [[200, 100]] rowSum is [200, 100] and colSum
    is [44], the row total 300 reduced into the kind; the sums of their
    entries are 300 and 44. For the Float64Array matrix
    [[2^1023, 2^1023], [-2^1023, -2^1023]] rowSum is [0, 0] and colSum is
    [+Infinity, -Infinity]: the entries of rowSum add up to 0, those of
    colSum to NaN and the elements to +Infinity. *)
Lemma reduction_sums_differ :
  ~ (forall m rsum csum,
       wf m -> is_float (dType m) = false ->
       rowSum m = Ok rsum -> colSum m = Ok csum ->
       sumZ (int_of <$> cells rsum) = sumZ (int_of <$> cells csum)) /\
  (wf sample_huge /\ is_float (dType sample_huge) = true /\
   rowSum sample_huge = Ok (mkTA f64 [CFloat Num.zero; CFloat Num.zero]) /\
   colSum sample_huge
   = Ok (mkTA f64 [CFloat (S754_infinity false); CFloat (S754_infinity true)]) /\
   total f64 [CFloat Num.zero; CFloat Num.zero] = Num.zero /\
   total f64 [CFloat (S754_infinity false); CFloat (S754_infinity true)] = Num.NaN /\
   total f64 (cells (data sample_huge)) = S754_infinity false).
Proof.
  split.
  2:{ split; [exact wf_sample_huge|]. repeat split; vm_compute; reflexivity. }
  intros H.
  specialize (H sample_u8 (mkTA u8 [CInt 200; CInt 100]) (mkTA u8 [CInt 44])
                wf_sample_u8 eq_refl).
  assert (Hr : rowSum sample_u8 = Ok (mkTA u8 [CInt 200; CInt 100]))
    by (vm_compute; reflexivity).
  assert (Hc : colSum sample_u8 = Ok (mkTA u8 [CInt 44])) by (vm_compute; reflexivity).
  specialize (H Hr Hc). vm_compute in H. discriminate H.
Qed.

Lemma reduction_consistency_witness :
  wf sample_u8 /\
  (exists rsum csum,
    rowSum sample_u8 = Ok rsum /\ colSum sample_u8 = Ok csum /\
    ta_length rsum = 2 /\ ta_length csum = 1 /\
    sumZ (int_of <$> cells rsum) mod 2 ^ 8 = sumZ (int_of <$> cells csum) mod 2 ^ 8) /\
  wf sample_tf /\
  exists rsum csum,
    rowSum sample_tf = Ok rsum /\ colSum sample_tf = Ok csum /\
    total f64 (cells rsum) = Num.ofZ 5 /\ total f64 (cells csum) = Num.ofZ 5 /\
    total f64 (cells (data sample_tf)) = Num.ofZ 5.
Proof.
  split; [exact wf_sample_u8|]. split; [|split; [exact wf_sample_tf|]].
  - destruct (reduction_consistency sample_u8 wf_sample_u8)
      as (rsum & csum & Hr & Hc & _ & _ & Hlr & Hlc & _ & _ & _ & Hmod & _).
    exists rsum, csum. split; [exact Hr|]. split; [exact Hc|].
    split; [exact Hlr|]. split; [exact Hlc|].
    destruct (Hmod eq_refl) as [H1 H2]. simpl in H1, H2. rewrite H1, H2. reflexivity.
  - destruct (reduction_consistency sample_tf wf_sample_tf)
      as (rsum & csum & Hr & Hc & _ & _ & _ & _ & _ & _ & _ & _ & Hflt).
    exists rsum, csum. split; [exact Hr|]. split; [exact Hc|].
    exact (Hflt [1; 0; 2; 0; 1; 1] eq_refl eq_refl eq_refl).
Defined.

(** ** Means *)

Lemma accumulate_summable k l : Forall (summable k) l -> summable k (accumulate k l).
Proof.
  induction l as [|c l IH] using rev_ind; intros Hl.
  - unfold accumulate. simpl. auto with summable.
  - apply Forall_app in Hl as [Hl Hc]. rewrite Forall_singleton in Hc.
    rewrite accumulate_snoc. auto with summable.
Qed.

Lemma summable_wide k c : summable k c -> typeof_bigint (load k c) = is_wide k.
Proof.
  destruct c as [z|x]; simpl.
  - intros _. destruct (is_wide k); reflexivity.
  - intros Hf. destruct k; try discriminate Hf; reflexivity.
Qed.

Lemma cell_div_ok k c n :
  summable k c -> (is_wide k = true -> n <> 0) ->
  exists q, cell_div k c (count_in_domain k n) = Ok q /\
            (is_wide k = true -> q = CInt (wrap_kind k (Z.quot (int_of c) n))).
Proof.
  intros Hc Hn. unfold cell_div, count_in_domain.
  destruct c as [z|x]; simpl in Hc.
  - destruct Hc as [Hf _]. unfold load. destruct (is_wide k) eqn:Hw.
    + specialize (Hn eq_refl). unfold js_div, js_arith.
      destruct (Z.eqb_spec n 0); [contradiction|]. simpl. unfold store. rewrite Hw.
      eexists. split; [reflexivity|]. reflexivity.
    + simpl. unfold store. rewrite Hw. eexists. split; [reflexivity|]. discriminate.
  - assert (Hw : is_wide k = false) by (destruct k; try discriminate Hc; reflexivity).
    rewrite Hw. simpl. unfold store. rewrite Hw. eexists. split; [reflexivity|].
    discriminate.
Qed.

Lemma divide_all_spec k (sum : TypedArray) (d : JsValue) :
  ctor sum = k ->
  (forall c, c ∈ cells sum -> exists q, cell_div k c d = Ok q) ->
  exists mean, divide_all sum d = Ok mean /\ ctor mean = k /\
               Forall2 (fun s q => cell_div k s d = Ok q) (cells sum) (cells mean).
Proof.
  intros Hk Hdiv. unfold divide_all. rewrite ta_length_nat.
  destruct (foldM_seqZ_inv
              (fun sum i => v ← js_div (ta_get sum i) d; ta_put sum i v)
              (fun n s => ctor s = k /\ length (cells s) = length (cells sum) /\
                          (forall j c, (j < n)%nat -> cells sum !! j = Some c ->
                                       exists q, cells s !! j = Some q /\
                                                 cell_div k c d = Ok q) /\
                          (forall j, (n <= j)%nat -> cells s !! j = cells sum !! j))
              (length (cells sum)) sum) as (mean & Hrun & Hkm & Hlen & Hdone & _).
  - split; [exact Hk|]. split; [reflexivity|]. split; [|reflexivity].
    intros j c Hj. lia.
  - intros i s Hi (Hks & Hls & Hdone & Hrest).
    destruct (lookup_lt_is_Some_2 (cells sum) i Hi) as [c Hc].
    assert (Hsc : cells s !! i = Some c) by (rewrite Hrest by lia; exact Hc).
    destruct (Hdiv c (list_elem_of_lookup_2 _ _ _ Hc)) as [q Hq].
    rewrite (ta_get_nat _ _ _ Hsc), Hks.
    pose proof Hq as Hq0. unfold cell_div in Hq.
    destruct (js_div (load k c) d) as [v|e]; [|discriminate Hq]. simpl in Hq |- *.
    assert (Hst : store (ctor s) v = Ok q) by (rewrite Hks; exact Hq).
    rewrite (ta_put_nat _ _ _ _ Hst). eexists. split; [reflexivity|]. simpl.
    split; [exact Hks|]. split; [rewrite length_insert; exact Hls|]. split.
    + intros j c' Hj Hc'. destruct (decide (j = i)) as [->|Hne].
      * rewrite list_lookup_insert_eq by lia. exists q. split; [reflexivity|].
        assert (c' = c) by congruence. subst c'. exact Hq0.
      * rewrite list_lookup_insert_ne by lia. apply Hdone; [lia|exact Hc'].
    + intros j Hj. rewrite list_lookup_insert_ne by lia. apply Hrest. lia.
  - exists mean. split; [exact Hrun|]. split; [exact Hkm|].
    apply Forall2_same_length_lookup_2; [symmetry; exact Hlen|].
    intros j s q Hs Hq.
    destruct (Hdone j s (lookup_lt_Some _ _ _ Hs) Hs) as (q' & Hq' & Hd). congruence.
Qed.

Lemma mean_divisor_domain m n c0 :
  cells (data m) !! 0%nat = Some c0 -> summable (ctor (data m)) c0 ->
  mean_divisor m n = count_in_domain (ctor (data m)) n.
Proof.
  intros Hc0 Hs. unfold mean_divisor, count_in_domain.
  pose proof (ta_get_nat (data m) 0 c0 Hc0) as Hg. change (Z.of_nat 0) with 0 in Hg.
  rewrite Hg, (summable_wide _ _ Hs). reflexivity.
Qed.

(** The mean of a summed vector: every entry divided, the quotient stored
    back; for the wide kinds the quotient is the truncated bigint one. *)
Lemma mean_of_sum m n (sum : TypedArray) :
  ctor sum = ctor (data m) -> Forall (summable (ctor (data m))) (cells sum) ->
  cells (data m) <> [] -> Forall (summable (ctor (data m))) (cells (data m)) ->
  n <> 0 ->
  exists mean,
    divide_all sum (mean_divisor m n) = Ok mean /\ ctor mean = ctor (data m) /\
    Forall2 (fun s q => cell_div (ctor (data m)) s (count_in_domain (ctor (data m)) n) = Ok q)
      (cells sum) (cells mean) /\
    (is_wide (ctor (data m)) = true ->
     Forall2 (fun s q => q = CInt (wrap_kind (ctor (data m)) (Z.quot (int_of s) n)))
       (cells sum) (cells mean)).
Proof.
  intros Hk Hsum Hne Hdata Hn. set (k := ctor (data m)) in *.
  destruct (cells (data m)) as [|c0 rest] eqn:Hcells; [contradiction|].
  rewrite (mean_divisor_domain m n c0); [|rewrite Hcells; reflexivity|].
  2:{ apply Forall_inv in Hdata. exact Hdata. }
  fold k.
  destruct (divide_all_spec k sum (count_in_domain k n) Hk) as (mean & Hrun & Hkm & Hall).
  { intros c Hc. rewrite Forall_forall in Hsum.
    destruct (cell_div_ok k c n (Hsum c Hc) (fun _ => Hn)) as (q & Hq & _). eauto. }
  exists mean. split; [exact Hrun|]. split; [exact Hkm|]. split; [exact Hall|].
  intros Hw. apply Forall2_same_length_lookup_2; [eapply Forall2_length, Hall|].
  intros j s q Hs Hq.
  pose proof (Forall2_lookup_lr _ _ _ _ _ _ Hall Hs Hq) as Hd.
  assert (Hss : summable k s) by (eapply (Forall_lookup_1 _ _ _ _ Hsum Hs)).
  destruct (cell_div_ok k s n Hss (fun _ => Hn)) as (q' & Hq' & Hwide).
  rewrite Hd in Hq'. injection Hq' as <-. apply Hwide, Hw.
Qed.

(** C6. For every non-empty matrix of the data model, rowMean is rowSum
    with every entry divided by the row count and colMean is colSum with
    every entry divided by the column count, the quotient stored back into
    the vector; the divisor is the count in the arithmetic domain of the
    kind: a bigint for u64 and i64 (the quotient is then the truncated
    bigint quotient reduced to 64 bits), a number otherwise. *)
Theorem mean_divides_sum (m : Matrix) :
  wf m -> cells (data m) <> [] ->
  let k := ctor (data m) in
  exists rsum rmean csum cmean,
    rowSum m = Ok rsum /\ rowMean m = Ok rmean /\
    colSum m = Ok csum /\ colMean m = Ok cmean /\
    ctor rmean = k /\ ctor cmean = k /\
    Forall2 (fun s q => cell_div k s (count_in_domain k (nRows m)) = Ok q)
      (cells rsum) (cells rmean) /\
    Forall2 (fun s q => cell_div k s (count_in_domain k (nCols m)) = Ok q)
      (cells csum) (cells cmean) /\
    (is_wide k = true ->
     count_in_domain k (nRows m) = JBigInt (nRows m) /\
     count_in_domain k (nCols m) = JBigInt (nCols m) /\
     Forall2 (fun s q => q = CInt (wrap_kind k (Z.quot (int_of s) (nRows m))))
       (cells rsum) (cells rmean) /\
     Forall2 (fun s q => q = CInt (wrap_kind k (Z.quot (int_of s) (nCols m))))
       (cells csum) (cells cmean)).
Proof.
  intros Hwf Hne k. pose proof (wf_summable m Hwf) as Hsum.
  destruct (wf_shape m Hwf) as (R & C & HR & HC & HL).
  assert (HRC : (R <> 0 /\ C <> 0)%nat).
  { destruct (cells (data m)) eqn:E; [contradiction|]. simpl in HL. nia. }
  unfold rowMean, colMean.
  rewrite (rowSum_spec m R C HR HC HL Hsum), (colSum_spec m R C HR HC HL Hsum).
  fold k. simpl.
  destruct (mean_of_sum m (nRows m)
              (mkTA k ((fun j => accumulate k (column_cells (cells (data m)) R C j))
                         <$> seq 0 C)))
    as (rmean & Hr1 & Hr2 & Hr3 & Hr4); try assumption; try reflexivity; try lia.
  { apply Forall_fmap, Forall_forall. intros j Hj. apply elem_of_seq in Hj.
    apply accumulate_summable, column_cells_summable; [exact HL|exact Hsum|lia]. }
  destruct (mean_of_sum m (nCols m)
              (mkTA k ((fun r => accumulate k (row_cells (cells (data m)) C r))
                         <$> seq 0 R)))
    as (cmean & Hc1 & Hc2 & Hc3 & Hc4); try assumption; try reflexivity; try lia.
  { apply Forall_fmap, Forall_forall. intros r Hr. apply elem_of_seq in Hr.
    apply accumulate_summable, (row_cells_summable k _ R C); [exact HL|exact Hsum|lia]. }
  eexists _, rmean, _, cmean. rewrite Hr1, Hc1.
  repeat (split; [first [reflexivity | assumption]|]).
  intros Hw. unfold count_in_domain. rewrite Hw. auto.
Qed.

Lemma mean_divides_sum_witness :
  wf sample_i64 /\ cells (data sample_i64) <> [] /\
  exists rmean cmean,
    rowMean sample_i64 = Ok rmean /\ colMean sample_i64 = Ok cmean /\
    cells rmean = [CInt 5; CInt (-3)] /\ cells cmean = [CInt (-1); CInt 3].
Proof.
  split; [exact wf_sample_i64|]. split; [discriminate|].
  destruct (mean_divides_sum sample_i64 wf_sample_i64 ltac:(discriminate))
    as (rsum & rmean & csum & cmean & _ & Hrm & _ & Hcm & _).
  exists rmean, cmean. split; [exact Hrm|]. split; [exact Hcm|].
  vm_compute in Hrm, Hcm. injection Hrm as <-. injection Hcm as <-.
  split; reflexivity.
Defined.

(** ** The TF-IDF transformer *)

Lemma fit_loop_spec (ln : Number -> Number) samples (freq : TypedArray) :
  fit_loop ln samples freq (mkTA f64 (replicate (length (cells freq)) (zero_cell f64)))
  = Ok (idf_of ln samples freq).
Proof.
  unfold fit_loop, idf_of. unfold ta_length at 1. cbn [cells]. rewrite length_replicate.
  set (g := fun c => CFloat (Num.add
                               (ln (Num.div (Num.ofZ samples)
                                      (js_Number (load (ctor freq) c))))
                               (Num.ofZ 1))).
  destruct (foldM_seqZ_inv
              (fun idf i =>
                 ta_put idf i
                   (JNumber (Num.add
                               (ln (Num.div (Num.ofZ samples)
                                      (js_Number (ta_get freq i))))
                               (Num.ofZ 1))))
              (fun n s => ctor s = f64 /\ length (cells s) = length (cells freq) /\
                          forall j, (j < n)%nat -> cells s !! j = g <$> cells freq !! j)
              (length (cells freq))
              (mkTA f64 (replicate (length (cells freq)) (zero_cell f64))))
    as (s & Hrun & Hk & Hlen & Hs).
  - split; [reflexivity|]. split; [apply length_replicate|]. intros j Hj. lia.
  - intros i s Hi (Hk & Hlen & Hs).
    destruct (lookup_lt_is_Some_2 (cells freq) i Hi) as [c Hc].
    rewrite (ta_get_nat _ _ _ Hc). unfold ta_put. rewrite Hk. simpl.
    destruct (Z.ltb_spec (Z.of_nat i) 0); [lia|]. rewrite Nat2Z.id.
    eexists. split; [reflexivity|]. simpl.
    split; [reflexivity|]. split; [rewrite length_insert; exact Hlen|].
    intros j Hj. destruct (decide (j = i)) as [->|Hne].
    + rewrite list_lookup_insert_eq by lia. rewrite Hc. reflexivity.
    + rewrite list_lookup_insert_ne by lia. apply Hs. lia.
  - rewrite Hrun. f_equal. destruct s as [ks cs]. simpl in *. subst ks. f_equal.
    apply list_eq. intros j. rewrite list_lookup_fmap.
    destruct (decide (j < length (cells freq))%nat) as [Hj|Hj].
    + apply Hs, Hj.
    + rewrite !lookup_ge_None_2 by lia. reflexivity.
Qed.


(** C7. For every term-frequency matrix, fit takes freq = rowSum of the
    matrix, stores idf[j] = ln(nRows / Number(freq[j])) + 1 for every feature
    j and returns the transformer itself (a throw of rowSum is passed on and
    leaves the transformer as it was); for [[1,0,2],[0,1,1]] this is
    freq = [1,1,3] and idf = [ln(2/1)+1, ln(2/1)+1, ln(2/3)+1]. *)
Lemma fit_unfold (ln : Number -> Number) (t : TfIdfTransformer) (m : Matrix) :
  fit ln t m =
  match rowSum m with
  | Ok freq => (Ok This, mkTfIdf (Some (idf_of ln (nRows m) freq)))
  | Throw e => (Throw e, t)
  end.
Proof.
  unfold fit. destruct (rowSum m) as [freq|e]; [|reflexivity].
  simpl. rewrite ta_length_nat, ta_new_nat. simpl.
  rewrite fit_loop_spec. reflexivity.
Qed.

Theorem fit_computes_idf :
  (forall (ln : Number -> Number) (t : TfIdfTransformer) (m : Matrix),
     fit ln t m =
     match rowSum m with
     | Ok freq => (Ok This, mkTfIdf (Some (idf_of ln (nRows m) freq)))
     | Throw e => (Throw e, t)
     end) /\
  (forall (ln : Number -> Number) (t : TfIdfTransformer),
     Matrix_new (ArgNested [[num 1; num 0; num 2]; [num 0; num 1; num 1]])
       (with_dType f64) = Ok sample_tf /\
     rowSum sample_tf = Ok (mkTA f64 [fnum 1; fnum 1; fnum 3]) /\
     fit ln t sample_tf =
     (Ok This,
      mkTfIdf (Some (mkTA f64
        [CFloat (Num.add (ln (Num.div (Num.ofZ 2) (Num.ofZ 1))) (Num.ofZ 1));
         CFloat (Num.add (ln (Num.div (Num.ofZ 2) (Num.ofZ 1))) (Num.ofZ 1));
         CFloat (Num.add (ln (Num.div (Num.ofZ 2) (Num.ofZ 3))) (Num.ofZ 1))])))).
Proof.
  split; [exact fit_unfold|].
  intros ln t.
  assert (Hfreq : rowSum sample_tf = Ok (mkTA f64 [fnum 1; fnum 1; fnum 3]))
    by (vm_compute; reflexivity).
  split; [vm_compute; reflexivity|]. split; [exact Hfreq|].
  rewrite fit_unfold, Hfreq. reflexivity.
Qed.

(** C8. transform on a transformer whose idf is absent (a fresh one, or one
    whose fit threw) throws the "not initialized" error and leaves the
    transformer unchanged; after a fit that returned, transform gives
    multiplyDiags of the matrix and the stored idf vector, which is the one
    fit computed, and leaves the transformer unchanged. The transform of
    the newer class has the same guard and hands the matrix and the stored
    idf vector to the multiplyDiags it imports, whatever that function
    is. *)
Theorem transform_requires_fit :
  (forall data,
     transform (TfIdfTransformer_new None) data
     = (Throw (Error "IDF not initialized yet."), TfIdfTransformer_new None)) /\
  (forall t data,
     transform t data =
     (match idf t with
      | None => Throw (Error "IDF not initialized yet.")
      | Some v => multiplyDiags data v
      end, t)) /\
  (forall (ln : Number -> Number) t m data,
     match fit ln t m with
     | (Ok _, t') =>
         exists freq, rowSum m = Ok freq /\
                      idf t' = Some (idf_of ln (nRows m) freq) /\
                      transform t' data
                      = (multiplyDiags data (idf_of ln (nRows m) freq), t')
     | (Throw e, t') => t' = t
     end) /\
  (forall (multiplyDiags_math : Matrix -> TypedArray -> Result Matrix) t data,
     transform_with multiplyDiags_math t data =
     (match idf t with
      | None => Throw (Error "IDF not initialized yet.")
      | Some v => multiplyDiags_math data v
      end, t)).
Proof.
  split; [reflexivity|]. split; [|split].
  - intros t data. unfold transform. destruct (idf t); reflexivity.
  - intros ln t m data. rewrite fit_unfold.
    destruct (rowSum m) as [freq|e]; [|reflexivity].
    exists freq. split; [reflexivity|]. split; reflexivity.
  - intros md t data. unfold transform_with. destruct (idf t); reflexivity.
Qed.

(** ** multiplyDiags *)

Lemma index_inj (C i j r c : nat) :
  (j < C)%nat -> (c < C)%nat -> (i * C + j = r * C + c)%nat -> i = r /\ j = c.
Proof.
  intros Hj Hc H. destruct (Nat.lt_trichotomy i r) as [Hlt|[->|Hlt]]; [nia|lia|nia].
Qed.

Lemma js_mul_number a b :
  typeof_bigint a = false -> typeof_bigint b = false ->
  js_mul a b = Ok (JNumber (Num.mul (js_Number a) (js_Number b))).
Proof. destruct a, b; simpl; intros; try discriminate; reflexivity. Qed.

Lemma load_number k c : is_wide k = false -> typeof_bigint (load k c) = false.
Proof. intros Hw. destruct c; simpl; [rewrite Hw|]; reflexivity. Qed.

Lemma ta_get_number a i : is_wide (ctor a) = false -> typeof_bigint (ta_get a i) = false.
Proof.
  intros Hw. unfold ta_get. destruct (i <? 0); [reflexivity|].
  destruct (cells a !! Z.to_nat i); [apply load_number, Hw|reflexivity].
Qed.

Lemma setCell_f64 res (C i j : nat) (p : Number) :
  ctor (data res) = f64 -> nCols res = Z.of_nat C ->
  setCell res (Z.of_nat i) (Z.of_nat j) (JNumber p)
  = (Ok tt, with_data res (mkTA f64 (<[(i * C + j)%nat := CFloat p]> (cells (data res))))).
Proof.
  intros Hk HC. unfold setCell. rewrite HC.
  replace (Z.of_nat i * Z.of_nat C + Z.of_nat j) with (Z.of_nat (i * C + j)) by lia.
  rewrite (ta_put_nat _ _ _ (CFloat p)) by (rewrite Hk; reflexivity).
  rewrite Hk. reflexivity.
Qed.

Lemma multiplyDiags_spec (x : Matrix) (y : TypedArray) (R C : nat) :
  nRows x = Z.of_nat R -> nCols x = Z.of_nat C ->
  length (cells (data x)) = (R * C)%nat ->
  is_wide (ctor (data x)) = false -> is_wide (ctor y) = false ->
  exists a, multiplyDiags x y = Ok (mkMatrix f64 (Z.of_nat R) (Z.of_nat C) (mkTA f64 a)) /\
            length a = (R * C)%nat /\
            forall r c, (r < R)%nat -> (c < C)%nat ->
              a !! (r * C + c)%nat
              = Some (CFloat (if decide (c < length (cells y))%nat
                              then Num.mul (number_at x (Z.of_nat r) (Z.of_nat c))
                                     (js_Number (ta_get y (Z.of_nat c)))
                              else Num.zero)).
Proof.
  intros HR HC HL Hwx Hwy. unfold multiplyDiags, multiplyDiags_alloc.
  rewrite (ta_length_nat (data x)), ta_new_nat, HL, HR, HC. simpl.
  set (L := length (cells y)).
  set (p := fun i j : nat => Num.mul (number_at x (Z.of_nat i) (Z.of_nat j))
                               (js_Number (ta_get y (Z.of_nat j)))).
  set (body := fun res i j =>
                 v ← js_mul (item x i j) (ta_get y j);
                 match setCell res i j v with
                 | (Ok _, res') => Ok res'
                 | (Throw e, _) => Throw e
                 end).
  set (Base := fun res : Matrix =>
                 nRows res = Z.of_nat R /\ nCols res = Z.of_nat C /\ dType res = f64 /\
                 ctor (data res) = f64 /\ length (cells (data res)) = (R * C)%nat /\
                 forall r c, (r < R)%nat -> (c < C)%nat -> (L <= c)%nat ->
                   cells (data res) !! (r * C + c)%nat = Some (CFloat Num.zero)).
  set (Done := fun (i : nat) (res : Matrix) =>
                 forall r c, (r < i)%nat -> (c < C)%nat -> (c < L)%nat ->
                   cells (data res) !! (r * C + c)%nat = Some (CFloat (p r c))).
  assert (Hinner : forall i res, (i < R)%nat -> Base res -> Done i res ->
            exists res', foldM (fun res j => body res (Z.of_nat i) j)
                           (seqZ 0 (Z.of_nat L)) res = Ok res' /\
                         Base res' /\ Done (S i) res').
  { intros i res Hi HB HD.
    destruct (foldM_seqZ_inv (fun res j => body res (Z.of_nat i) j)
                (fun n res' => Base res' /\ Done i res' /\
                               forall c, (c < n)%nat -> (c < C)%nat ->
                                 cells (data res') !! (i * C + c)%nat
                                 = Some (CFloat (p i c)))
                L res) as (res' & Hrun & HB' & HD' & Hrow).
    - split; [exact HB|]. split; [exact HD|]. intros c Hc. lia.
    - intros j s Hj (HBs & HDs & Hrow).
      destruct HBs as (Hr & Hc & Hdt & Hk & Hlen & Hz).
      unfold body. rewrite js_mul_number
        by (first [apply ta_get_number; assumption]).
      cbn [mbind Result_bind]. rewrite (setCell_f64 s C i j _ Hk Hc).
      eexists. split; [reflexivity|].
      unfold Base, Done. simpl.
      split; [|split].
      + split; [exact Hr|]. split; [exact Hc|]. split; [exact Hdt|].
        split; [reflexivity|]. split; [rewrite length_insert; exact Hlen|].
        intros r c Hr' Hc' HLc.
        rewrite list_lookup_insert_ne; [apply Hz; assumption|].
        intros Heq. destruct (decide (j < C)%nat) as [HjC|HjC].
        * destruct (index_inj C i j r c HjC Hc' Heq) as [_ ->]. lia.
        * lia.
      + intros r c Hr' Hc' HcL.
        rewrite list_lookup_insert_ne; [apply HDs; assumption|]. nia.
      + intros c Hc' HcC. destruct (decide (c = j)) as [->|Hne].
        * rewrite list_lookup_insert_eq; [reflexivity|].
          rewrite Hlen. apply index_lt; assumption.
        * rewrite list_lookup_insert_ne by lia. apply Hrow; lia.
    - exists res'. split; [exact Hrun|]. split; [exact HB'|].
      intros r c Hr Hc HcL. destruct (decide (r = i)) as [->|Hne].
      + apply Hrow; assumption.
      + apply HD'; [lia|assumption|assumption]. }
  destruct (foldM_seqZ_inv
              (fun res i => foldM (fun res j => body res i j) (seqZ 0 (ta_length y)) res)
              (fun n res => Base res /\ Done n res)
              R (mkMatrix f64 (Z.of_nat R) (Z.of_nat C)
                   (mkTA f64 (replicate (R * C) (zero_cell f64)))))
    as (res & Hrun & HB & HD).
  - split; [|intros r c Hr; lia].
    unfold Base. simpl. repeat (split; [reflexivity|]).
    split; [apply length_replicate|].
    intros r c Hr Hc _. apply lookup_replicate_2, index_lt; assumption.
  - intros i res Hi [HB HD]. rewrite ta_length_nat. fold L.
    apply Hinner; assumption.
  - destruct HB as (Hr & Hc & Hdt & Hk & Hlen & Hz).
    exists (cells (data res)). split.
    + unfold getDataType. simpl. unfold body in Hrun. rewrite Hrun. f_equal.
      destruct res as [dt nr nc [kd cs]]. simpl in *. congruence.
    + split; [exact Hlen|]. intros r c Hr' Hc'.
      destruct (decide (c < L)%nat) as [HcL|HcL].
      * apply HD; assumption.
      * apply Hz; [assumption|assumption|lia].
Qed.

Lemma cell_ok_valid k c :
  is_wide k = false -> cell_ok k c -> Num.valid (js_Number (load k c)) = true.
Proof.
  intros Hw. destruct c as [z|v]; simpl.
  - intros [Hf Hr]. rewrite Hw. simpl. apply valid_ofZ.
    pose proof (int_range_number k z Hf Hw Hr). lia.
  - destruct k; try contradiction; tauto.
Qed.

Lemma load_is_number k c :
  is_wide k = false -> load k c = JNumber (js_Number (load k c)).
Proof. intros Hw. destruct c; simpl; [rewrite Hw|]; reflexivity. Qed.

(** C9, as the code has it. For every matrix x of the data model whose
    elements are numbers (every kind but u64 and i64) and every vector y of
    numbers, multiplyDiags returns a new Float64Array matrix of the shape of
    x with result[i][j] = x[i][j] * y[j] for j below the length of y and the
    initial zero in the columns beyond it; entries of y beyond the column
    count leave no trace in the result; with y the vector of nCols ones the
    result equals x element for element. *)
Theorem multiplyDiags_scales (x : Matrix) (y : TypedArray) :
  wf x -> is_wide (ctor (data x)) = false -> is_wide (ctor y) = false ->
  exists res,
    multiplyDiags x y = Ok res /\
    nRows res = nRows x /\ nCols res = nCols x /\ dType res = f64 /\
    layout_ok res /\
    (forall i j, 0 <= i < nRows x -> 0 <= j < nCols x ->
       cell_at res i j
       = Some (CFloat (if j <? ta_length y
                       then Num.mul (number_at x i j) (js_Number (ta_get y j))
                       else Num.zero))) /\
    (y = ones (Z.to_nat (nCols x)) ->
     forall i j, 0 <= i < nRows x -> 0 <= j < nCols x -> item res i j = item x i j).
Proof.
  intros Hwf Hwx Hwy. destruct (wf_shape x Hwf) as (R & C & HR & HC & HL).
  destruct (multiplyDiags_spec x y R C HR HC HL Hwx Hwy) as (a & Hrun & Hlen & Ha).
  eexists. split; [exact Hrun|]. simpl.
  split; [symmetry; exact HR|]. split; [symmetry; exact HC|]. split; [reflexivity|].
  split; [unfold layout_ok, ta_length; simpl; rewrite Hlen; lia|].
  assert (Hcell : forall i j, 0 <= i < nRows x -> 0 <= j < nCols x ->
            a !! (Z.to_nat i * C + Z.to_nat j)%nat
            = Some (CFloat (if j <? ta_length y
                            then Num.mul (number_at x i j) (js_Number (ta_get y j))
                            else Num.zero))).
  { intros i j Hi Hj. rewrite Ha by lia. rewrite !Z2Nat.id by lia.
    unfold ta_length. do 2 f_equal.
    destruct (decide (Z.to_nat j < length (cells y))%nat);
      destruct (Z.ltb_spec j (Z.of_nat (length (cells y)))); try lia; reflexivity. }
  split.
  - intros i j Hi Hj. rewrite <- (Z2Nat.id i), <- (Z2Nat.id j) at 1 by lia.
    rewrite (cell_at_nat _ C) by reflexivity. simpl. apply Hcell; assumption.
  - intros Hy i j Hi Hj. unfold item at 1. simpl.
    replace (i * Z.of_nat C + j) with (Z.of_nat (Z.to_nat i * C + Z.to_nat j)) by lia.
    rewrite (ta_get_nat (mkTA f64 a) _ _ (Hcell i j Hi Hj)). simpl.
    assert (HjC : (Z.to_nat j < C)%nat) by lia.
    assert (Hyj : ta_get y j = JNumber Num.one).
    { rewrite Hy. rewrite <- (Z2Nat.id j) by lia.
      rewrite (ta_get_nat _ _ (CFloat Num.one)); [reflexivity|].
      unfold ones. simpl. apply lookup_replicate_2. lia. }
    assert (Hlen_y : ta_length y = Z.of_nat C).
    { rewrite Hy. unfold ones, ta_length. simpl. rewrite length_replicate. lia. }
    rewrite Hlen_y, Hyj. destruct (Z.ltb_spec j (Z.of_nat C)); [|lia]. simpl.
    assert (Hin : (Z.to_nat i * C + Z.to_nat j < length (cells (data x)))%nat)
      by (rewrite HL; apply index_lt; lia).
    destruct (lookup_lt_is_Some_2 _ _ Hin) as [c Hc].
    assert (Hitem : item x i j = load (ctor (data x)) c).
    { unfold item. rewrite HC.
      replace (i * Z.of_nat C + j) with (Z.of_nat (Z.to_nat i * C + Z.to_nat j)) by lia.
      apply ta_get_nat, Hc. }
    unfold number_at. rewrite Hitem.
    destruct Hwf as (_ & _ & _ & _ & Hok).
    rewrite mul_one_r
      by (apply cell_ok_valid; [exact Hwx|eapply (Forall_lookup_1 _ _ _ _ Hok Hc)]).
    symmetry. apply load_is_number, Hwx.
Qed.

(** C9 fails as stated for the wide kinds: on a BigUint64Array matrix the
    product of an element and an entry of y mixes a bigint with a number,
    and multiplyDiags throws a TypeError. *)
Lemma multiplyDiags_wide_throws :
  ~ (forall x, wf x ->
       exists res, multiplyDiags x (ones (Z.to_nat (nCols x))) = Ok res).
Proof.
  intros H. destruct (H single_u64 wf_single_u64) as [res Hres].
  vm_compute in Hres. discriminate Hres.
Qed.

Lemma multiplyDiags_scales_witness :
  wf sample_tf /\ is_wide (ctor (data sample_tf)) = false /\
  is_wide (ctor (ones 3)) = false /\
  exists res, multiplyDiags sample_tf (ones 3) = Ok res /\
              cells (data res) = cells (data sample_tf) /\
              item res 1 2 = item sample_tf 1 2.
Proof.
  split; [exact wf_sample_tf|]. split; [reflexivity|]. split; [reflexivity|].
  destruct (multiplyDiags_scales sample_tf (ones 3) wf_sample_tf eq_refl eq_refl)
    as (res & Hrun & _ & _ & _ & _ & _ & Hid).
  exists res. split; [exact Hrun|]. split.
  - vm_compute in Hrun. injection Hrun as <-. reflexivity.
  - apply Hid; [reflexivity|simpl; lia|simpl; lia].
Defined.

(** ** slice *)

Lemma ta_slice_from (a : TypedArray) (b : nat) :
  (b <= length (cells a))%nat ->
  ta_slice a (Z.of_nat b) None = mkTA (ctor a) (drop b (cells a)).
Proof.
  intros Hb. unfold ta_slice, clamp_index, ta_length.
  destruct (Z.ltb_spec (Z.of_nat b) 0); [lia|].
  rewrite Z.min_l by lia. rewrite Nat2Z.id. f_equal.
  apply take_ge. rewrite length_drop. lia.
Qed.

(** C10, as the code has it. For every matrix of the data model and every
    start s with 0 <= s <= nRows, slice(s, 0) is slice(s) with the end left
    out: a matrix of shape [nRows - s, nCols] over a fresh buffer holding rows
    s to nRows - 1 of the matrix; it is empty exactly when s = nRows or the
    matrix has no column. *)
Theorem slice_zero_end (m : Matrix) (s : Z) :
  wf m -> 0 <= s <= nRows m ->
  exists res,
    slice m s (Some 0) = Ok res /\ slice m s None = Ok res /\
    nRows res = nRows m - s /\ nCols res = nCols m /\
    dType res = dType m /\ ctor (data res) = ctor (data m) /\
    cells (data res) = drop (Z.to_nat (s * nCols m)) (cells (data m)) /\
    layout_ok res /\
    (forall r c, 0 <= r < nRows m - s -> 0 <= c < nCols m ->
                 cell_at res r c = cell_at m (s + r) c) /\
    (cells (data res) = [] <-> s = nRows m \/ nCols m = 0).
Proof.
  intros Hwf Hs. destruct (wf_shape m Hwf) as (R & C & HR & HC & HL).
  destruct Hwf as (_ & _ & _ & Hty & _).
  assert (Hsl : ta_slice (data m) (if truthy s then s * nCols m else 0) None
                = mkTA (ctor (data m)) (drop (Z.to_nat (s * nCols m)) (cells (data m)))).
  { unfold truthy. destruct (Z.eqb_spec s 0) as [->|Hne]; simpl.
    - change 0 with (Z.of_nat 0) at 1. rewrite ta_slice_from by lia. reflexivity.
    - rewrite <- (Z2Nat.id (s * nCols m)) at 1 by nia.
      rewrite ta_slice_from by nia. reflexivity. }
  assert (Hrun : slice m s None
                 = Ok (mkMatrix (ctor (data m)) (nRows m - s) (nCols m)
                         (mkTA (ctor (data m))
                            (drop (Z.to_nat (s * nCols m)) (cells (data m)))))).
  { unfold slice. simpl. rewrite Hsl. reflexivity. }
  eexists. split; [exact Hrun|]. split; [exact Hrun|]. simpl.
  split; [reflexivity|]. split; [reflexivity|]. split; [symmetry; exact Hty|].
  split; [reflexivity|]. split; [reflexivity|].
  assert (Hlen : length (drop (Z.to_nat (s * nCols m)) (cells (data m)))
                 = ((R - Z.to_nat s) * C)%nat).
  { rewrite length_drop, HL, HC. nia. }
  split; [unfold layout_ok, ta_length; simpl; rewrite Hlen; nia|].
  split.
  - intros r c Hr Hc. unfold cell_at. simpl.
    destruct (Z.ltb_spec (r * nCols m + c) 0); [nia|].
    destruct (Z.ltb_spec ((s + r) * nCols m + c) 0); [nia|].
    rewrite lookup_drop. f_equal. nia.
  - rewrite <- length_zero_iff_nil, Hlen. split; intros H; [|nia].
    destruct (decide (C = 0)%nat); [right; lia|left; nia].
Qed.

(** C10 fails as stated at s = nRows: slice(nRows, 0) is the slice from
    nRows to the end, a matrix with no row and an empty buffer. *)
Lemma slice_zero_end_can_be_empty :
  ~ (forall m s, wf m -> 0 <= s <= nRows m ->
       exists res, slice m s (Some 0) = Ok res /\ cells (data res) <> []).
Proof.
  intros H. destruct (H sample_i16 2 wf_sample_i16) as (res & Hres & Hne); [simpl; lia|].
  vm_compute in Hres. injection Hres as <-. apply Hne. reflexivity.
Qed.

Lemma slice_zero_end_witness :
  wf sample_i16 /\ 0 <= 1 <= nRows sample_i16 /\
  exists res, slice sample_i16 1 (Some 0) = Ok res /\ slice sample_i16 1 None = Ok res /\
              Matrix_shape res = (1, 3) /\
              cells (data res) = [CInt 4; CInt 5; CInt 6].
Proof.
  split; [exact wf_sample_i16|]. split; [simpl; lia|].
  destruct (slice_zero_end sample_i16 1 wf_sample_i16 ltac:(simpl; lia))
    as (res & H0 & HN & HR & HC & _ & _ & Hcells & _).
  exists res. split; [exact H0|]. split; [exact HN|].
  split; [unfold Matrix_shape; rewrite HR, HC; reflexivity|].
  rewrite Hcells. reflexivity.
Defined.

(** ** The layout invariant *)

Lemma foldM_st_preserves {A S} (P : S -> Prop) (body : S -> A -> Result S) l s :
  (forall s i s', P s -> body s i = Ok s' -> P s') ->
  P s -> P (foldM_st body l s).2.
Proof.
  intros Hbody. revert s. induction l as [|x l IH]; intros s Hs; simpl; [exact Hs|].
  destruct (body s x) as [s'|e] eqn:Hb; [|exact Hs].
  apply IH. eapply Hbody; eassumption.
Qed.

Lemma ta_put_frame a i v a' : ta_put a i v = Ok a' -> same_frame a a'.
Proof.
  unfold ta_put. destruct (store (ctor a) v) as [c|e]; [|discriminate]. simpl.
  intros [= <-]. destruct (i <? 0); split; simpl; rewrite ?length_insert; reflexivity.
Qed.

Lemma same_frame_trans a b c : same_frame a b -> same_frame b c -> same_frame a c.
Proof. unfold same_frame. intros [-> ->] [-> ->]. auto. Qed.

Lemma put_loop_frame a (f : Z -> Z) (g : Z -> JsValue) l :
  same_frame a (foldM_st (fun a' k => ta_put a' (f k) (g k)) l a).2.
Proof.
  apply (foldM_st_preserves (same_frame a)); [|split; reflexivity].
  intros s i s' Hs Hput. eapply same_frame_trans; [exact Hs|].
  eapply ta_put_frame, Hput.
Qed.

Lemma ta_set_frame a s offset : same_frame a (ta_set a s offset).2.
Proof.
  unfold ta_set. destruct s as [vals|src].
  - destruct (_ || _) eqn:Hchk; [split; reflexivity|]. apply put_loop_frame.
  - destruct (_ || _) eqn:Hchk; [split; reflexivity|].
    destruct (negb _); [split; reflexivity|].
    destruct (decide (ctor a = ctor src)); [|apply put_loop_frame].
    apply orb_false_iff in Hchk as [H1 H2].
    apply Z.ltb_ge in H1, H2. unfold ta_length in H2.
    split; [reflexivity|]. simpl.
    rewrite !length_app, length_take, length_drop. lia.
Qed.

(** Every public mutation keeps the shape, the kind and the frame of the
    buffer, whether it returns or throws. *)
Lemma mutate_frame m mu :
  nRows (mutate m mu) = nRows m /\ nCols (mutate m mu) = nCols m /\
  dType (mutate m mu) = dType m /\ same_frame (data m) (data (mutate m mu)).
Proof.
  destruct mu as [r c v|r c v|r val|c val]; simpl.
  - unfold setCell. destruct (ta_put _ _ _) as [a|e] eqn:Hp; simpl.
    + repeat (split; [reflexivity|]). eapply ta_put_frame, Hp.
    + repeat (split; [reflexivity|]). split; reflexivity.
  - unfold setAdd. destruct (js_add _ _) as [w|e]; simpl.
    + destruct (ta_put _ _ _) as [a|e] eqn:Hp; simpl.
      * repeat (split; [reflexivity|]). eapply ta_put_frame, Hp.
      * repeat (split; [reflexivity|]). split; reflexivity.
    + repeat (split; [reflexivity|]). split; reflexivity.
  - unfold setRow. pose proof (ta_set_frame (data m) val (r * nCols m)) as Hf.
    destruct (ta_set _ _ _) as [res a]. simpl in *. auto.
  - unfold setCol.
    pose proof (put_loop_frame (data m) (fun i => i * nCols m + c) (al_get val)
                  (seqZ 0 (nRows m))) as Hf.
    destruct (foldM_st _ _ _) as [[u|e] a]; simpl in *; auto.
Qed.

Lemma mutations_frame m mus :
  nRows (foldl mutate m mus) = nRows m /\ nCols (foldl mutate m mus) = nCols m /\
  dType (foldl mutate m mus) = dType m /\
  same_frame (data m) (data (foldl mutate m mus)).
Proof.
  revert m. induction mus as [|mu mus IH]; intros m; simpl.
  - repeat (split; [reflexivity|]). split; reflexivity.
  - destruct (IH (mutate m mu)) as (H1 & H2 & H3 & H4).
    destruct (mutate_frame m mu) as (G1 & G2 & G3 & G4).
    rewrite H1, H2, H3. repeat (split; [assumption|]).
    eapply same_frame_trans; eassumption.
Qed.

(** ** Construction *)

Lemma mapM_store k vals cs :
  mapM (store k) vals = Ok cs -> Forall2 (fun v c => store k v = Ok c) vals cs.
Proof.
  revert cs. induction vals as [|v vals IH]; intros cs; simpl.
  - intros [= <-]. constructor.
  - destruct (store k v) as [c|e] eqn:Hs; [|discriminate]. simpl.
    destruct (mapM (store k) vals) as [cs'|e]; [|discriminate]. simpl.
    intros [= <-]. constructor; [exact Hs|]. apply IH. reflexivity.
Qed.

Lemma concat_rect {A} (rows : list (list A)) (n : nat) :
  Forall (fun row => length row = n) rows ->
  length (concat rows) = (length rows * n)%nat /\
  forall r c row v, rows !! r = Some row -> row !! c = Some v ->
                    concat rows !! (r * n + c)%nat = Some v.
Proof.
  induction 1 as [|row0 rows Hrow0 Hrows [IHlen IH]]; simpl.
  - split; [reflexivity|]. intros r c row v Hr. rewrite lookup_nil in Hr. discriminate.
  - split; [rewrite length_app; lia|].
    intros r c row v Hr Hc. destruct r as [|r]; simpl in *.
    + injection Hr as <-. rewrite lookup_app_l by (eapply lookup_lt_Some, Hc). exact Hc.
    + rewrite lookup_app_r by lia.
      replace (n + r * n + c - length row0)%nat with (r * n + c)%nat by lia.
      eapply IH; eassumption.
Qed.

Lemma Matrix_new_layout arg config m :
  consistent arg config -> Matrix_new arg config = Ok m -> layout_ok m.
Proof.
  unfold Matrix_new, layout_ok. destruct arg as [buf|k|rows|buf [r c]| |]; simpl.
  - destruct (shape config) as [[r c]|]; [|discriminate].
    intros Hc [= <-]. exact Hc.
  - destruct (shape config) as [[r c]|]; [|discriminate]. intros _.
    unfold ta_new. destruct (Z.ltb_spec (r * c) 0); [discriminate|]. simpl.
    intros [= <-]. unfold ta_length. simpl. rewrite length_replicate. lia.
  - destruct (cfg_dType config) as [k|]; [|discriminate].
    destruct rows as [|row0 rows]; [discriminate|]. intros Hrect.
    unfold ta_from. destruct (mapM _ _) as [cs|e] eqn:Hm; [|discriminate]. simpl.
    intros [= <-]. unfold ta_length. simpl.
    apply mapM_store, Forall2_length in Hm. rewrite <- Hm.
    destruct (concat_rect (row0 :: rows) (length row0) Hrect) as [Hlen _].
    rewrite Hlen. simpl. lia.
  - intros Hc [= <-]. exact Hc.
  - discriminate.
  - discriminate.
Qed.

(** Wrap mode with the column count left out keeps the invariant. *)
Lemma Matrix_new_derived_layout buf rows m :
  Matrix_new_derived buf rows = Some (Ok m) ->
  consistent (ArgBuffer buf) (with_shape rows (ta_length buf / rows)) /\ layout_ok m.
Proof.
  unfold Matrix_new_derived.
  destruct (Z.eqb_spec rows 0) as [|Hr]; [discriminate|]. simpl.
  destruct (Z.eqb_spec (ta_length buf mod rows) 0) as [Hm|]; [|discriminate]. simpl.
  intros [= <-].
  assert (Hc : ta_length buf = rows * (ta_length buf / rows)).
  { pose proof (Z.div_mod (ta_length buf) rows Hr). lia. }
  split; exact Hc.
Qed.

Lemma Matrix_new_nested rows config m r c row v :
  consistent (ArgNested rows) config ->
  Matrix_new (ArgNested rows) config = Ok m ->
  rows !! r = Some row -> row !! c = Some v ->
  exists cell, store (dType m) v = Ok cell /\
               cell_at m (Z.of_nat r) (Z.of_nat c) = Some cell.
Proof.
  unfold Matrix_new. simpl.
  destruct (cfg_dType config) as [k|]; [|discriminate].
  destruct rows as [|row0 rows']; [discriminate|]. intros Hrect.
  unfold ta_from. destruct (mapM _ _) as [cs|e] eqn:Hm; [|discriminate]. simpl.
  intros [= <-] Hr Hc. simpl.
  destruct (concat_rect (row0 :: rows') (length row0) Hrect) as [_ Hlook].
  pose proof (Hlook r c row v Hr Hc) as Hv.
  apply mapM_store in Hm.
  destruct (Forall2_lookup_l _ _ _ _ _ Hm Hv) as (cell & Hcell & Hst).
  exists cell. split; [exact Hst|].
  rewrite (cell_at_nat _ (length row0)) by reflexivity. exact Hcell.
Qed.

Lemma setCell_addressing m r c v cell :
  layout_ok m -> 0 <= r < nRows m -> 0 <= c < nCols m ->
  store (ctor (data m)) v = Ok cell ->
  cell_at (setCell m r c v).2 r c = Some cell /\
  forall r' c', 0 <= r' < nRows m -> 0 <= c' < nCols m -> (r', c') <> (r, c) ->
                cell_at (setCell m r c v).2 r' c' = cell_at m r' c'.
Proof.
  intros HL Hr Hc Hs. unfold layout_ok, ta_length in HL.
  unfold setCell, ta_put. rewrite Hs. simpl.
  destruct (Z.ltb_spec (r * nCols m + c) 0); [nia|]. simpl.
  unfold cell_at. simpl. split.
  - destruct (Z.ltb_spec (r * nCols m + c) 0); [nia|].
    apply list_lookup_insert_eq. nia.
  - intros r' c' Hr' Hc' Hne.
    destruct (Z.ltb_spec (r' * nCols m + c') 0); [reflexivity|].
    apply list_lookup_insert_ne. intros Heq.
    assert (Hidx : r * nCols m + c = r' * nCols m + c') by lia.
    apply Hne.
    assert (r' = r) by nia. subst r'. f_equal. lia.
Qed.

(** C1, as the code has it. A matrix built in Allocate mode, in Wrap or
    MatrixLike mode from a buffer of rows * cols elements, or in Convert mode
    from nested rows that are all as long as the first, satisfies
    buffer.length = nRows * nCols, and keeps it, with its shape and kind,
    through any sequence of setCell, setAdd, setRow and setCol calls, returned
    or thrown. item(r, c) reads flat offset r * nCols + c; setCell(r, c, v)
    writes the converted value at that offset and leaves every other element
    of the matrix as it was; Convert mode stores the value of row r, position
    c at that offset; Wrap mode with the column count left out and a row
    count that divides the buffer length satisfies the invariant too. *)
Theorem layout_invariant (arg : CtorArg) (config : Config) (m0 : Matrix)
    (mus : list Mutation) :
  consistent arg config -> Matrix_new arg config = Ok m0 ->
  let m := foldl mutate m0 mus in
  layout_ok m /\ Matrix_shape m = Matrix_shape m0 /\ dType m = dType m0 /\
  (forall r c, item m r c = ta_get (data m) (r * nCols m + c)) /\
  (forall r c v cell,
     0 <= r < nRows m -> 0 <= c < nCols m -> store (ctor (data m)) v = Ok cell ->
     cell_at (setCell m r c v).2 r c = Some cell /\
     forall r' c', 0 <= r' < nRows m -> 0 <= c' < nCols m -> (r', c') <> (r, c) ->
                   cell_at (setCell m r c v).2 r' c' = cell_at m r' c') /\
  (forall rows r c row v,
     arg = ArgNested rows -> rows !! r = Some row -> row !! c = Some v ->
     exists cell, store (dType m0) v = Ok cell /\
                  cell_at m0 (Z.of_nat r) (Z.of_nat c) = Some cell) /\
  (forall buf rows m1, Matrix_new_derived buf rows = Some (Ok m1) -> layout_ok m1).
Proof.
  intros Hcons Hnew m.
  pose proof (Matrix_new_layout arg config m0 Hcons Hnew) as HL0.
  destruct (mutations_frame m0 mus) as (HR & HC & HD & _ & Hlen). fold m in HR, HC, HD, Hlen.
  assert (HL : layout_ok m).
  { unfold layout_ok, ta_length in *. rewrite Hlen, HR, HC. exact HL0. }
  split; [exact HL|]. split; [unfold Matrix_shape; congruence|]. split; [exact HD|].
  split; [reflexivity|]. split; [|split].
  - intros r c v cell Hr Hc Hs. apply setCell_addressing; assumption.
  - intros rows r c row v -> Hr Hc.
    eapply Matrix_new_nested; eassumption.
  - intros buf rows m1 Hm1. apply (Matrix_new_derived_layout buf rows m1 Hm1).
Qed.

(** C1 fails as stated: Wrap mode adopts a buffer of five elements under
    the shape [2, 3] without a check, so buffer.length is 5 and nRows * nCols
    is 6. *)
Lemma wrap_mode_breaks_layout :
  ~ (forall arg config m, Matrix_new arg config = Ok m -> layout_ok m).
Proof.
  intros H.
  specialize (H (ArgBuffer (mkTA f64 (replicate 5 (zero_cell f64)))) (with_shape 2 3) _ eq_refl).
  vm_compute in H. discriminate H.
Qed.

Lemma layout_invariant_witness :
  let arg := ArgNested [[num 1; num 2]; [num 3; num 4]] in
  let m0 := mkMatrix u8 2 2 (mkTA u8 [CInt 1; CInt 2; CInt 3; CInt 4]) in
  let mus := [MSetCell 0 1 (num 300); MSetRow 1 (Plain [num 7]);
              MSetCol 0 (Plain []); MSetAdd 1 1 (JBigInt 1);
              MSetRow 1 (Plain [num 1; num 2; num 3])] in
  consistent arg (with_dType u8) /\ Matrix_new arg (with_dType u8) = Ok m0 /\
  layout_ok (foldl mutate m0 mus) /\
  cells (data (foldl mutate m0 mus)) = [CInt 0; CInt 44; CInt 0; CInt 4].
Proof.
  intros arg m0 mus.
  assert (Hc : consistent arg (with_dType u8)) by (repeat constructor).
  assert (Hn : Matrix_new arg (with_dType u8) = Ok m0) by (vm_compute; reflexivity).
  split; [exact Hc|]. split; [exact Hn|].
  split; [exact (proj1 (layout_invariant arg (with_dType u8) m0 mus Hc Hn))|].
  vm_compute. reflexivity.
Defined.

(** ** Row and column setters *)

(** A loop of stores at pairwise distinct offsets inside the array. *)
Lemma put_loop_spec (a : TypedArray) (n : nat) (idx : Z -> Z) (g : Z -> JsValue)
    (f : nat -> nat) (h : nat -> Cell) :
  (forall j, (j < n)%nat -> idx (Z.of_nat j) = Z.of_nat (f j)) ->
  (forall j, (j < n)%nat -> store (ctor a) (g (Z.of_nat j)) = Ok (h j)) ->
  (forall j j', (j < n)%nat -> (j' < n)%nat -> f j = f j' -> j = j') ->
  (forall j, (j < n)%nat -> (f j < length (cells a))%nat) ->
  exists a',
    foldM_st (fun a' k => ta_put a' (idx k) (g k)) (seqZ 0 (Z.of_nat n)) a = (Ok tt, a') /\
    ctor a' = ctor a /\ length (cells a') = length (cells a) /\
    (forall j, (j < n)%nat -> cells a' !! f j = Some (h j)) /\
    (forall p, (forall j, (j < n)%nat -> f j <> p) -> cells a' !! p = cells a !! p).
Proof.
  intros Hidx Hst Hinj Hin.
  destruct (foldM_st_seqZ_inv
              (fun a' k => ta_put a' (idx k) (g k))
              (fun n' s => ctor s = ctor a /\ length (cells s) = length (cells a) /\
                           (forall j, (j < n')%nat -> cells s !! f j = Some (h j)) /\
                           (forall p, (forall j, (j < n')%nat -> f j <> p) ->
                                      cells s !! p = cells a !! p))
              n a) as (s & Hrun & Hk & Hlen & Hhit & Hmiss).
  - repeat split; auto. intros j Hj. lia.
  - intros i s Hi (Hk & Hlen & Hhit & Hmiss).
    rewrite (Hidx i Hi).
    assert (Hs : store (ctor s) (g (Z.of_nat i)) = Ok (h i)) by (rewrite Hk; auto).
    rewrite (ta_put_nat _ _ _ _ Hs). eexists. split; [reflexivity|]. simpl.
    split; [exact Hk|]. split; [rewrite length_insert; exact Hlen|]. split.
    + intros j Hj. destruct (decide (j = i)) as [->|Hne].
      * apply list_lookup_insert_eq. rewrite Hlen. apply Hin, Hi.
      * rewrite list_lookup_insert_ne; [apply Hhit; lia|].
        intros Heq. apply Hne. symmetry. apply Hinj; [lia|lia|exact Heq].
    + intros p Hp. rewrite list_lookup_insert_ne by (apply Hp; lia).
      apply Hmiss. intros j Hj. apply Hp. lia.
  - exists s. auto.
Qed.

Lemma al_get_plain vals (j : nat) v :
  vals !! j = Some v -> al_get (Plain vals) (Z.of_nat j) = v.
Proof.
  intros Hv. simpl. destruct (Z.ltb_spec (Z.of_nat j) 0); [lia|].
  rewrite Nat2Z.id, Hv. reflexivity.
Qed.

(** [setRow] with a plain array-like whose values all convert. *)
Lemma setRow_spec m (R C r : nat) vals cs :
  nRows m = Z.of_nat R -> nCols m = Z.of_nat C ->
  length (cells (data m)) = (R * C)%nat ->
  Forall2 (fun v c => store (ctor (data m)) v = Ok c) vals cs ->
  if decide (r * C + length vals <= R * C)%nat then
    exists a, setRow m (Z.of_nat r) (Plain vals) = (Ok tt, with_data m a) /\
              ctor a = ctor (data m) /\ length (cells a) = (R * C)%nat /\
              (forall j, (j < length vals)%nat -> cells a !! (r * C + j)%nat = cs !! j) /\
              (forall p, (p < r * C \/ r * C + length vals <= p)%nat ->
                         cells a !! p = cells (data m) !! p)
  else setRow m (Z.of_nat r) (Plain vals) = (Throw RangeError, m).
Proof.
  intros HR HC HL Hconv. unfold setRow, ta_set. cbn [al_length].
  rewrite ta_length_nat, HL, HC.
  destruct (Z.ltb_spec (Z.of_nat r * Z.of_nat C) 0) as [|_]; [lia|]. cbn [orb].
  destruct (decide (r * C + length vals <= R * C)%nat) as [Hfit|Hfit].
  - destruct (Z.ltb_spec (Z.of_nat (R * C)) (Z.of_nat (length vals) + Z.of_nat r * Z.of_nat C))
      as [|_]; [lia|].
    destruct (put_loop_spec (data m) (length vals)
                (fun k => Z.of_nat r * Z.of_nat C + k) (al_get (Plain vals))
                (fun j => (r * C + j)%nat) (fun j => cs !!! j))
      as (a & Hrun & Hk & Hlen & Hhit & Hmiss).
    + intros j Hj. lia.
    + intros j Hj. destruct (lookup_lt_is_Some_2 vals j Hj) as [v Hv].
      rewrite (al_get_plain _ _ _ Hv).
      destruct (Forall2_lookup_l _ _ _ _ _ Hconv Hv) as (c & Hc & Hs).
      rewrite (list_lookup_total_correct _ _ _ Hc). exact Hs.
    + intros j j' _ _ Heq. lia.
    + intros j Hj. rewrite HL. lia.
    + rewrite Hrun. exists a. split; [reflexivity|]. split; [exact Hk|].
      split; [rewrite Hlen; exact HL|]. split.
      * intros j Hj. rewrite Hhit by exact Hj. symmetry.
        apply lookup_total_in. rewrite <- (Forall2_length _ _ _ Hconv). exact Hj.
      * intros p Hp. apply Hmiss. intros j Hj. lia.
  - destruct (Z.ltb_spec (Z.of_nat (R * C)) (Z.of_nat (length vals) + Z.of_nat r * Z.of_nat C))
      as [_|]; [|lia].
    destruct m; reflexivity.
Qed.

(** [setCol]: every row reads [val[i]], whatever the length of [val]. *)
Lemma setCol_spec m (R C c : nat) val (h : nat -> Cell) :
  nRows m = Z.of_nat R -> nCols m = Z.of_nat C ->
  length (cells (data m)) = (R * C)%nat -> (c < C)%nat ->
  (forall i, (i < R)%nat -> store (ctor (data m)) (al_get val (Z.of_nat i)) = Ok (h i)) ->
  exists a, setCol m (Z.of_nat c) val = (Ok (Z.of_nat c), with_data m a) /\
            ctor a = ctor (data m) /\ length (cells a) = (R * C)%nat /\
            forall i j, (i < R)%nat -> (j < C)%nat ->
              cells a !! (i * C + j)%nat
              = if decide (j = c) then Some (h i) else cells (data m) !! (i * C + j)%nat.
Proof.
  intros HR HC HL Hc Hconv. unfold setCol. rewrite HR, HC.
  destruct (put_loop_spec (data m) R
              (fun i => i * Z.of_nat C + Z.of_nat c) (al_get val)
              (fun i => (i * C + c)%nat) h)
    as (a & Hrun & Hk & Hlen & Hhit & Hmiss).
  - intros j Hj. lia.
  - exact Hconv.
  - intros j j' _ _ Heq. apply (index_inj C j c j' c Hc Hc Heq).
  - intros j Hj. rewrite HL. apply index_lt; assumption.
  - rewrite Hrun. exists a. split; [reflexivity|]. split; [exact Hk|].
    split; [rewrite Hlen; exact HL|].
    intros i j Hi Hj. destruct (decide (j = c)) as [->|Hne].
    + apply Hhit, Hi.
    + apply Hmiss. intros i' Hi' Heq.
      destruct (index_inj C i' c i j Hc Hj Heq) as [_ ?]. congruence.
Qed.

(** A list with the [length v] cells from [a] on replaced by [v]. *)
Lemma splice_lookup {A} (l v : list A) (a p : nat) :
  (a + length v <= length l)%nat ->
  (take a l ++ v ++ drop (a + length v) l) !! p
  = if decide (a <= p < a + length v)%nat then v !! (p - a)%nat else l !! p.
Proof.
  intros Hfit. assert (Hta : length (take a l) = a) by (rewrite length_take; lia).
  destruct (decide (a <= p < a + length v)%nat) as [Hin|Hout].
  - rewrite lookup_app_r by lia. rewrite Hta. rewrite lookup_app_l by lia. reflexivity.
  - destruct (decide (p < a)%nat).
    + rewrite lookup_app_l by lia. apply lookup_take_lt. lia.
    + rewrite lookup_app_r by lia. rewrite Hta.
      rewrite lookup_app_r by lia. rewrite lookup_drop. f_equal. lia.
Qed.

Lemma splice_length {A} (l v : list A) (a : nat) :
  (a + length v <= length l)%nat ->
  length (take a l ++ v ++ drop (a + length v) l) = length l.
Proof. intros Hfit. rewrite !length_app, length_take, length_drop. lia. Qed.

Lemma with_data_same m : with_data m (data m) = m.
Proof. destruct m. reflexivity. Qed.

(** [setRow(r, v)] with a typed array of the kind of the buffer. *)
Lemma setRow_typed m (C r : nat) (v : TypedArray) :
  nCols m = Z.of_nat C -> ctor v = ctor (data m) ->
  (r * C + length (cells v) <= length (cells (data m)))%nat ->
  setRow m (Z.of_nat r) (Typed v)
  = (Ok tt, with_data m
              (mkTA (ctor (data m))
                 (take (r * C) (cells (data m)) ++ cells v
                    ++ drop (r * C + length (cells v)) (cells (data m))))).
Proof.
  intros HC Hk Hfit. unfold setRow, ta_set. rewrite Hk, eqb_reflx. simpl.
  rewrite HC, !ta_length_nat.
  destruct (Z.ltb_spec (Z.of_nat r * Z.of_nat C) 0) as [|_]; [lia|].
  destruct (Z.ltb_spec (Z.of_nat (length (cells (data m))))
              (Z.of_nat (length (cells v)) + Z.of_nat r * Z.of_nat C)) as [|_]; [lia|].
  simpl. rewrite decide_True by reflexivity.
  replace (Z.to_nat (Z.of_nat r * Z.of_nat C)) with (r * C)%nat by lia.
  reflexivity.
Qed.


Lemma foldM_st_ext_in {A S} (f g : S -> A -> Result S) l s :
  (forall s x, x ∈ l -> f s x = g s x) -> foldM_st f l s = foldM_st g l s.
Proof.
  revert s. induction l as [|x l IH]; intros s H; [reflexivity|].
  cbn [foldM_st]. rewrite (H s x) by left.
  destruct (g s x) as [s'|e]; [|reflexivity].
  apply IH. intros s0 y Hy. apply H. right. exact Hy.
Qed.

(** A value converts into an array of kind [k] exactly when it is a bigint
    for a bigint array and a number or [undefined] for an array of numbers;
    what does not convert is a TypeError. *)
Lemma store_converts k v :
  (typeof_bigint v = is_wide k -> exists cell, store k v = Ok cell) /\
  (typeof_bigint v <> is_wide k -> store k v = Throw TypeError).
Proof.
  unfold store. destruct (is_wide k), v as [x|z|]; cbn; split; intros H;
    try congruence; try reflexivity; eexists; reflexivity.
Qed.

(** The loop of stores when round [j0] is the first whose value does not
    convert: the rounds before it have written, the loop throws. *)
Lemma put_loop_partial (a : TypedArray) (n j0 : nat) (idx : Z -> Z) (g : Z -> JsValue)
    (f : nat -> nat) (h : nat -> Cell) (e : Exn) :
  (j0 < n)%nat ->
  (forall j, (j < j0)%nat -> idx (Z.of_nat j) = Z.of_nat (f j)) ->
  (forall j, (j < j0)%nat -> store (ctor a) (g (Z.of_nat j)) = Ok (h j)) ->
  store (ctor a) (g (Z.of_nat j0)) = Throw e ->
  (forall j j', (j < j0)%nat -> (j' < j0)%nat -> f j = f j' -> j = j') ->
  (forall j, (j < j0)%nat -> (f j < length (cells a))%nat) ->
  exists a',
    foldM_st (fun a' k => ta_put a' (idx k) (g k)) (seqZ 0 (Z.of_nat n)) a = (Throw e, a') /\
    ctor a' = ctor a /\ length (cells a') = length (cells a) /\
    (forall j, (j < j0)%nat -> cells a' !! f j = Some (h j)) /\
    (forall p, (forall j, (j < j0)%nat -> f j <> p) -> cells a' !! p = cells a !! p).
Proof.
  intros Hj0 Hidx Hst Hfail Hinj Hin.
  destruct (put_loop_spec a j0 idx g f h Hidx Hst Hinj Hin)
    as (a' & Hrun & Hk & Hlen & Hhit & Hmiss).
  exists a'. split; [|auto].
  replace (Z.of_nat n) with (Z.of_nat j0 + Z.of_nat (n - j0)) by lia.
  rewrite seqZ_app by lia. rewrite foldM_st_app, Hrun, Z.add_0_l.
  rewrite seqZ_cons by lia. cbn [foldM_st]. unfold ta_put. rewrite Hk, Hfail. reflexivity.
Qed.

(** [setRow] with a plain array-like that fits and whose value [j0] is the
    first that does not convert. *)
Lemma setRow_partial m (R C r j0 : nat) vals cs v :
  nRows m = Z.of_nat R -> nCols m = Z.of_nat C ->
  length (cells (data m)) = (R * C)%nat ->
  (r * C + length vals <= R * C)%nat ->
  Forall2 (fun v c => store (ctor (data m)) v = Ok c) (take j0 vals) cs ->
  vals !! j0 = Some v -> store (ctor (data m)) v = Throw TypeError ->
  exists a, setRow m (Z.of_nat r) (Plain vals) = (Throw TypeError, with_data m a) /\
            ctor a = ctor (data m) /\ length (cells a) = (R * C)%nat /\
            (forall j, (j < j0)%nat -> cells a !! (r * C + j)%nat = cs !! j) /\
            (forall p, (p < r * C \/ r * C + j0 <= p)%nat ->
                       cells a !! p = cells (data m) !! p).
Proof.
  intros HR HC HL Hfit Hconv Hv Hfail. unfold setRow, ta_set. cbn [al_length].
  rewrite ta_length_nat, HL, HC.
  destruct (Z.ltb_spec (Z.of_nat r * Z.of_nat C) 0) as [|_]; [lia|]. cbn [orb].
  destruct (Z.ltb_spec (Z.of_nat (R * C)) (Z.of_nat (length vals) + Z.of_nat r * Z.of_nat C))
    as [|_]; [lia|].
  pose proof (lookup_lt_Some _ _ _ Hv) as Hj0.
  assert (Hcs : length cs = j0).
  { rewrite <- (Forall2_length _ _ _ Hconv), length_take. lia. }
  destruct (put_loop_partial (data m) (length vals) j0
              (fun k => Z.of_nat r * Z.of_nat C + k) (al_get (Plain vals))
              (fun j => (r * C + j)%nat) (fun j => cs !!! j) TypeError Hj0)
    as (a & Hrun & Hk & Hlen & Hhit & Hmiss).
  - intros j Hj. lia.
  - intros j Hj. destruct (lookup_lt_is_Some_2 vals j ltac:(lia)) as [w Hw].
    rewrite (al_get_plain _ _ _ Hw).
    assert (Hw' : take j0 vals !! j = Some w) by (rewrite lookup_take_lt by exact Hj; exact Hw).
    destruct (Forall2_lookup_l _ _ _ _ _ Hconv Hw') as (c & Hc & Hs).
    rewrite (list_lookup_total_correct _ _ _ Hc). exact Hs.
  - rewrite (al_get_plain _ _ _ Hv). exact Hfail.
  - intros j j' _ _ Heq. lia.
  - intros j Hj. rewrite HL. lia.
  - rewrite Hrun. exists a. split; [reflexivity|]. split; [exact Hk|].
    split; [rewrite Hlen; exact HL|]. split.
    + intros j Hj. rewrite Hhit by exact Hj. symmetry.
      apply lookup_total_in. lia.
    + intros p Hp. apply Hmiss. intros j Hj. lia.
Qed.

(** [setCol] when row [i0] is the first whose value does not convert. *)
Lemma setCol_partial m (R C c i0 : nat) val (h : nat -> Cell) :
  nRows m = Z.of_nat R -> nCols m = Z.of_nat C ->
  length (cells (data m)) = (R * C)%nat -> (c < C)%nat -> (i0 < R)%nat ->
  (forall i, (i < i0)%nat -> store (ctor (data m)) (al_get val (Z.of_nat i)) = Ok (h i)) ->
  store (ctor (data m)) (al_get val (Z.of_nat i0)) = Throw TypeError ->
  exists a, setCol m (Z.of_nat c) val = (Throw TypeError, with_data m a) /\
            ctor a = ctor (data m) /\ length (cells a) = (R * C)%nat /\
            forall i j, (i < R)%nat -> (j < C)%nat ->
              cells a !! (i * C + j)%nat
              = if decide (j = c /\ (i < i0)%nat) then Some (h i)
                else cells (data m) !! (i * C + j)%nat.
Proof.
  intros HR HC HL Hc Hi0 Hconv Hfail. unfold setCol. rewrite HR, HC.
  destruct (put_loop_partial (data m) R i0
              (fun i => i * Z.of_nat C + Z.of_nat c) (al_get val)
              (fun i => (i * C + c)%nat) h TypeError Hi0)
    as (a & Hrun & Hk & Hlen & Hhit & Hmiss).
  - intros j Hj. lia.
  - exact Hconv.
  - exact Hfail.
  - intros j j' _ _ Heq. apply (index_inj C j c j' c Hc Hc Heq).
  - intros j Hj. rewrite HL. apply index_lt; [lia|assumption].
  - rewrite Hrun. exists a. split; [reflexivity|]. split; [exact Hk|].
    split; [rewrite Hlen; exact HL|].
    intros i j Hi Hj. destruct (decide (j = c /\ (i < i0)%nat)) as [[-> Hlt]|Hne].
    + apply Hhit, Hlt.
    + apply Hmiss. intros i' Hi' Heq.
      destruct (index_inj C i' c i j Hc Hj Heq) as [? ?]. subst. apply Hne. split; [reflexivity|exact Hi'].
Qed.

(** [setRow] of what does not fit, whatever it holds. *)
Lemma setRow_no_fit m r val :
  r * nCols m < 0 \/ ta_length (data m) < al_length val + r * nCols m ->
  setRow m r val = (Throw RangeError, m).
Proof.
  intros Hout. unfold setRow, ta_set.
  assert (Hchk : (r * nCols m <? 0) || (ta_length (data m) <? al_length val + r * nCols m)
                 = true).
  { apply orb_true_iff. destruct Hout; [left|right]; apply Z.ltb_lt; assumption. }
  destruct val as [vals|src]; [|cbn [al_length] in Hchk]; rewrite Hchk;
    cbn [fst snd]; rewrite with_data_same; reflexivity.
Qed.

(** A typed array of the other content type that fits. *)
Lemma setRow_typed_mismatch m r (v : TypedArray) :
  0 <= r * nCols m -> ta_length v + r * nCols m <= ta_length (data m) ->
  is_wide (ctor v) <> is_wide (ctor (data m)) ->
  setRow m r (Typed v) = (Throw TypeError, m).
Proof.
  intros Hoff Hfit Hw. unfold setRow, ta_set.
  destruct (Z.ltb_spec (r * nCols m) 0) as [|_]; [lia|].
  destruct (Z.ltb_spec (ta_length (data m)) (ta_length v + r * nCols m)) as [|_]; [lia|].
  cbn [orb].
  destruct (Bool.eqb (is_wide (ctor (data m))) (is_wide (ctor v))) eqn:He.
  { apply eqb_prop in He. congruence. }
  cbn [negb fst snd]. rewrite with_data_same. reflexivity.
Qed.

(** A typed array of the content type of the buffer is copied as the plain
    array of its elements would be. *)
Lemma setRow_typed_as_plain m (R C r : nat) (v : TypedArray) :
  nRows m = Z.of_nat R -> nCols m = Z.of_nat C ->
  length (cells (data m)) = (R * C)%nat ->
  is_wide (ctor v) = is_wide (ctor (data m)) -> ta_ok v ->
  (r * C + length (cells v) <= R * C)%nat ->
  setRow m (Z.of_nat r) (Typed v)
  = setRow m (Z.of_nat r) (Plain (load (ctor v) <$> cells v)).
Proof.
  intros HR HC HL Hw Hok Hfit.
  destruct (decide (ctor v = ctor (data m))) as [Hk|Hk].
  - (* the same kind: a copy of the cells *)
    rewrite (setRow_typed m C r v HC Hk) by (rewrite HL; exact Hfit).
    assert (Hconv : Forall2 (fun w c => store (ctor (data m)) w = Ok c)
                      (load (ctor v) <$> cells v) (cells v)).
    { apply Forall2_fmap_l, Forall_Forall2_diag. rewrite <- Hk.
      eapply Forall_impl; [exact Hok|]. intros c Hc. apply store_load, Hc. }
    pose proof (setRow_spec m R C r _ _ HR HC HL Hconv) as Hspec.
    rewrite length_fmap in Hspec.
    destruct (decide (r * C + length (cells v) <= R * C)%nat); [|lia].
    destruct Hspec as (a & -> & Hka & Hla & Hhit & Hmiss).
    do 2 f_equal. destruct a as [ka ca]. cbn [ctor cells] in *. subst ka. f_equal.
    assert (Hfit' : (r * C + length (cells v) <= length (cells (data m)))%nat)
      by (rewrite HL; exact Hfit).
    apply list_eq. intros p. rewrite (splice_lookup _ _ _ _ Hfit').
    destruct (decide (r * C <= p < r * C + length (cells v))%nat) as [Hin|Hout].
    + replace p with (r * C + (p - r * C))%nat at 2 by lia.
      rewrite Hhit by lia. reflexivity.
    + rewrite Hmiss by lia. reflexivity.
  - (* another kind of the same content type: element by element *)
    unfold setRow, ta_set. cbn [al_length]. rewrite length_fmap, <- ta_length_nat.
    destruct ((Z.of_nat r * nCols m <? 0)
              || (ta_length (data m) <? ta_length v + Z.of_nat r * nCols m));
      [reflexivity|].
    rewrite Hw, eqb_reflx. cbn [negb].
    rewrite decide_False by congruence.
    rewrite (foldM_st_ext_in
               (fun a' k => ta_put a' (Z.of_nat r * nCols m + k) (ta_get v k))
               (fun a' k => ta_put a' (Z.of_nat r * nCols m + k)
                              (al_get (Plain (load (ctor v) <$> cells v)) k)));
      [reflexivity|].
    intros a' k Hk'. apply elem_of_seqZ in Hk'. f_equal.
    unfold ta_get, al_get. destruct (Z.ltb_spec k 0); [reflexivity|].
    rewrite list_lookup_fmap. destruct (cells v !! Z.to_nat k); reflexivity.
Qed.

(** C3, as the code has it. Neither setter compares a length and there is
    no ShapeMismatch error; what a call does is decided by whether the
    values convert into the kind of the matrix and, for setRow, by whether
    they fit in the buffer. A value converts exactly when it is a bigint
    for a u64 or i64 matrix and a number or undefined for the other kinds;
    a value that does not convert is a TypeError. For every matrix of the
    data model and every index within bounds:
    setRow(r, values) on a plain array-like whose values all convert writes
    the values.length converted values from flat offset r * nCols on when
    they fit in the buffer and leaves the shape and every other element as
    they were (with values.length = nCols exactly row r is overwritten), and
    throws the typed array's RangeError, writing nothing, when they do not
    fit; whatever the values, an array-like or typed array that does not
    fit is that RangeError; when it fits and some value does not convert,
    setRow throws a TypeError after the values before the first such value
    were written; a typed array that fits is a TypeError that writes nothing
    when its content type is the other one (bigint against number), and is
    copied as the plain array of its elements when it is the same.
    setCol(c, values) stores values[i] for the rows i = 0 .. nRows - 1 in
    turn, whatever the length of values (undefined past its end): when all
    these values convert it returns c and has overwritten exactly column c
    with the converted values; otherwise it throws a TypeError at the first
    row whose value does not convert, after the rows above it were
    written. *)
Theorem setters_overwrite (m : Matrix) :
  wf m ->
  let k := ctor (data m) in
  (forall r vals cs,
     0 <= r < nRows m -> Forall2 (fun v c => store k v = Ok c) vals cs ->
     Z.of_nat (length vals) = nCols m ->
     exists m', setRow m r (Plain vals) = (Ok tt, m') /\
                Matrix_shape m' = Matrix_shape m /\ layout_ok m' /\
                forall i j, 0 <= i < nRows m -> 0 <= j < nCols m ->
                  cell_at m' i j
                  = if decide (i = r) then cs !! Z.to_nat j else cell_at m i j) /\
  (forall c val (h : Z -> Cell),
     0 <= c < nCols m ->
     (forall i, 0 <= i < nRows m -> store k (al_get val i) = Ok (h i)) ->
     exists m', setCol m c val = (Ok c, m') /\
                Matrix_shape m' = Matrix_shape m /\ layout_ok m' /\
                forall i j, 0 <= i < nRows m -> 0 <= j < nCols m ->
                  cell_at m' i j
                  = if decide (j = c) then Some (h i) else cell_at m i j) /\
  (forall r vals cs,
     0 <= r < nRows m -> Forall2 (fun v c => store k v = Ok c) vals cs ->
     if decide (r * nCols m + Z.of_nat (length vals) <= nRows m * nCols m) then
       exists m', setRow m r (Plain vals) = (Ok tt, m') /\
                  Matrix_shape m' = Matrix_shape m /\ layout_ok m' /\
                  (forall j, (j < length vals)%nat ->
                     cells (data m') !! (Z.to_nat (r * nCols m) + j)%nat = cs !! j) /\
                  (forall p, (p < Z.to_nat (r * nCols m) \/
                              Z.to_nat (r * nCols m) + length vals <= p)%nat ->
                     cells (data m') !! p = cells (data m) !! p)
     else setRow m r (Plain vals) = (Throw RangeError, m)) /\
  (forall r val,
     0 <= r < nRows m -> nRows m * nCols m < r * nCols m + al_length val ->
     setRow m r val = (Throw RangeError, m)) /\
  (forall r vals cs (j0 : nat) v,
     0 <= r < nRows m ->
     r * nCols m + Z.of_nat (length vals) <= nRows m * nCols m ->
     Forall2 (fun v c => store k v = Ok c) (take j0 vals) cs ->
     vals !! j0 = Some v -> store k v = Throw TypeError ->
     exists m', setRow m r (Plain vals) = (Throw TypeError, m') /\
                Matrix_shape m' = Matrix_shape m /\ layout_ok m' /\
                (forall j, (j < j0)%nat ->
                   cells (data m') !! (Z.to_nat (r * nCols m) + j)%nat = cs !! j) /\
                (forall p, (p < Z.to_nat (r * nCols m) \/
                            Z.to_nat (r * nCols m) + j0 <= p)%nat ->
                   cells (data m') !! p = cells (data m) !! p)) /\
  (forall r v,
     0 <= r < nRows m -> r * nCols m + ta_length v <= nRows m * nCols m ->
     (is_wide (ctor v) <> is_wide k -> setRow m r (Typed v) = (Throw TypeError, m)) /\
     (is_wide (ctor v) = is_wide k -> ta_ok v ->
      setRow m r (Typed v) = setRow m r (Plain (load (ctor v) <$> cells v)))) /\
  (forall c val (h : Z -> Cell) i0,
     0 <= c < nCols m -> 0 <= i0 < nRows m ->
     (forall i, 0 <= i < i0 -> store k (al_get val i) = Ok (h i)) ->
     store k (al_get val i0) = Throw TypeError ->
     exists m', setCol m c val = (Throw TypeError, m') /\
                Matrix_shape m' = Matrix_shape m /\ layout_ok m' /\
                forall i j, 0 <= i < nRows m -> 0 <= j < nCols m ->
                  cell_at m' i j
                  = if decide (j = c /\ i < i0) then Some (h i) else cell_at m i j) /\
  (forall v,
     (typeof_bigint v = is_wide k -> exists cell, store k v = Ok cell) /\
     (typeof_bigint v <> is_wide k -> store k v = Throw TypeError)).
Proof.
  intros Hwf k. destruct (wf_shape m Hwf) as (R & C & HR & HC & HL).
  assert (Hrow : forall r vals cs,
            0 <= r < nRows m -> Forall2 (fun v c => store k v = Ok c) vals cs ->
            if decide (r * nCols m + Z.of_nat (length vals) <= nRows m * nCols m) then
              exists m', setRow m r (Plain vals) = (Ok tt, m') /\
                 Matrix_shape m' = Matrix_shape m /\ layout_ok m' /\
                 (forall j, (j < length vals)%nat ->
                    cells (data m') !! (Z.to_nat (r * nCols m) + j)%nat = cs !! j) /\
                 (forall p, (p < Z.to_nat (r * nCols m) \/
                             Z.to_nat (r * nCols m) + length vals <= p)%nat ->
                    cells (data m') !! p = cells (data m) !! p)
            else setRow m r (Plain vals) = (Throw RangeError, m)).
  { intros r vals cs Hr Hconv.
    pose proof (setRow_spec m R C (Z.to_nat r) vals cs HR HC HL Hconv) as Hspec.
    rewrite Z2Nat.id in Hspec by lia.
    replace (Z.to_nat (r * nCols m)) with (Z.to_nat r * C)%nat by nia.
    destruct (decide (r * nCols m + Z.of_nat (length vals) <= nRows m * nCols m));
      destruct (decide (Z.to_nat r * C + length vals <= R * C)%nat); try nia.
    - destruct Hspec as (a & Hrun & Hk & Hlen & Hhit & Hmiss).
      exists (with_data m a). split; [exact Hrun|]. split; [reflexivity|].
      split; [unfold layout_ok, ta_length; simpl; rewrite Hlen; nia|].
      split; assumption.
    - exact Hspec. }
  split; [|split; [|split; [exact Hrow|]]].
  - intros r vals cs Hr Hconv Hlen. specialize (Hrow r vals cs Hr Hconv).
    destruct (decide (r * nCols m + Z.of_nat (length vals) <= nRows m * nCols m)); [|nia].
    destruct Hrow as (m' & Hrun & Hsh & Hlay & Hhit & Hmiss).
    exists m'. split; [exact Hrun|]. split; [exact Hsh|]. split; [exact Hlay|].
    intros i j Hi Hj. unfold cell_at.
    assert (HC' : nCols m' = nCols m) by (unfold Matrix_shape in Hsh; congruence).
    rewrite HC'.
    destruct (Z.ltb_spec (i * nCols m + j) 0); [nia|].
    destruct (decide (i = r)) as [->|Hne].
    + replace (Z.to_nat (r * nCols m + j)) with (Z.to_nat (r * nCols m) + Z.to_nat j)%nat by nia.
      apply Hhit. lia.
    + apply Hmiss. nia.
  - intros c val h Hc Hconv.
    destruct (setCol_spec m R C (Z.to_nat c) val (fun i => h (Z.of_nat i)) HR HC HL)
      as (a & Hrun & Hk & Hlen & Ha); [lia| |].
    { intros i Hi. apply Hconv. lia. }
    rewrite Z2Nat.id in Hrun by lia.
    exists (with_data m a). split; [exact Hrun|]. split; [reflexivity|].
    split; [unfold layout_ok, ta_length; simpl; rewrite Hlen; nia|].
    intros i j Hi Hj. unfold cell_at. simpl.
    destruct (Z.ltb_spec (i * nCols m + j) 0); [nia|].
    replace (Z.to_nat (i * nCols m + j)) with (Z.to_nat i * C + Z.to_nat j)%nat by nia.
    rewrite Ha by lia. rewrite Z2Nat.id by lia.
    destruct (decide (Z.to_nat j = Z.to_nat c)); destruct (decide (j = c)); try lia; reflexivity.
  - assert (Hlen : ta_length (data m) = nRows m * nCols m)
      by (unfold ta_length; rewrite HL, HR, HC; lia).
    split; [|split; [|split; [|split]]].
    + intros r val Hr Hfit. apply setRow_no_fit. right. rewrite Hlen. lia.
    + intros r vals cs j0 v Hr Hfit Hconv Hv Hfail.
      destruct (setRow_partial m R C (Z.to_nat r) j0 vals cs v HR HC HL ltac:(nia)
                  Hconv Hv Hfail) as (a & Hrun & Hk & Hla & Hhit & Hmiss).
      rewrite Z2Nat.id in Hrun by lia.
      replace (Z.to_nat (r * nCols m)) with (Z.to_nat r * C)%nat by nia.
      exists (with_data m a). split; [exact Hrun|]. split; [reflexivity|].
      split; [unfold layout_ok, ta_length; simpl; rewrite Hla; nia|].
      split; assumption.
    + intros r v Hr Hfit. unfold ta_length in Hfit. split.
      * intros Hw. apply setRow_typed_mismatch; [nia| |exact Hw].
        rewrite Hlen. unfold ta_length. lia.
      * intros Hw Hok. rewrite <- (Z2Nat.id r) by lia.
        apply (setRow_typed_as_plain m R C); try assumption. nia.
    + intros c val h i0 Hc Hi0 Hconv Hfail.
      destruct (setCol_partial m R C (Z.to_nat c) (Z.to_nat i0) val
                  (fun i => h (Z.of_nat i)) HR HC HL)
        as (a & Hrun & Hk & Hla & Ha); [lia|lia| | |].
      { intros i Hi. apply Hconv. lia. }
      { rewrite Z2Nat.id by lia. exact Hfail. }
      rewrite Z2Nat.id in Hrun by lia.
      exists (with_data m a). split; [exact Hrun|]. split; [reflexivity|].
      split; [unfold layout_ok, ta_length; simpl; rewrite Hla; nia|].
      intros i j Hi Hj. unfold cell_at. simpl.
      destruct (Z.ltb_spec (i * nCols m + j) 0); [nia|].
      replace (Z.to_nat (i * nCols m + j)) with (Z.to_nat i * C + Z.to_nat j)%nat by nia.
      rewrite Ha by lia. rewrite Z2Nat.id by lia.
      destruct (decide (Z.to_nat j = Z.to_nat c /\ (Z.to_nat i < Z.to_nat i0)%nat));
        destruct (decide (j = c /\ i < i0)); try lia; reflexivity.
    + intros v. apply store_converts.
Qed.

(** C3 fails as stated: with an array-like that is too short, setRow and
    setCol return normally and have written; no ShapeMismatch is raised. *)
Lemma setters_do_not_check_length :
  ~ (forall m r vals,
       wf m -> 0 <= r < nRows m -> Z.of_nat (length vals) <> nCols m ->
       exists e, setRow m r (Plain vals) = (Throw e, m)) /\
  ~ (forall m c vals,
       wf m -> 0 <= c < nCols m -> Z.of_nat (length vals) <> nRows m ->
       exists e, setCol m c (Plain vals) = (Throw e, m)).
Proof.
  split; intros H.
  - destruct (H sample_i16 0 [num 9] wf_sample_i16) as [e He];
      [simpl; lia|simpl; lia|]. vm_compute in He. discriminate He.
  - destruct (H sample_i16 0 [num 9] wf_sample_i16) as [e He];
      [simpl; lia|simpl; lia|]. vm_compute in He. discriminate He.
Qed.

Lemma setters_overwrite_witness :
  wf sample_i16 /\ wf sample_i64 /\
  (exists m', setRow sample_i16 1 (Plain [num 7; num 8; num 70000]) = (Ok tt, m') /\
              cells (data m') = [CInt 1; CInt 2; CInt 3; CInt 7; CInt 8; CInt 4464]) /\
  (exists m', setCol sample_i16 2 (Plain [num 7]) = (Ok 2, m') /\
              cell_at m' 0 2 = Some (CInt 7) /\ cell_at m' 1 2 = Some (CInt 0) /\
              cell_at m' 1 1 = Some (CInt 5)) /\
  (exists m', setCol sample_i64 0 (Plain [JBigInt 9]) = (Throw TypeError, m') /\
              cells (data m') = [CInt 9; CInt (-9); CInt 4; CInt 2]) /\
  (exists m', setRow sample_i64 0 (Plain [JBigInt 9; num 1]) = (Throw TypeError, m') /\
              cells (data m') = [CInt 9; CInt (-9); CInt 4; CInt 2]) /\
  setRow sample_i16 1 (Typed (data sample_i64)) = (Throw RangeError, sample_i16) /\
  setRow sample_i16 0 (Typed (data sample_i64)) = (Throw TypeError, sample_i16).
Proof.
  split; [exact wf_sample_i16|]. split; [exact wf_sample_i64|].
  destruct (setters_overwrite sample_i16 wf_sample_i16)
    as (Hrow & Hcol & _ & Hnofit & _ & Htyped & _).
  destruct (setters_overwrite sample_i64 wf_sample_i64)
    as (_ & _ & _ & _ & Hrowp & _ & Hcolp & _).
  split; [|split; [|split; [|split; [|split]]]].
  3:{ destruct (Hcolp 0 (Plain [JBigInt 9]) (fun _ => CInt 9) 1) as (m' & Hrun & _);
        [simpl; lia|simpl; lia| |reflexivity|].
      { intros i Hi. assert (i = 0) as -> by lia. reflexivity. }
      exists m'. split; [exact Hrun|].
      vm_compute in Hrun. injection Hrun as <-. reflexivity. }
  3:{ destruct (Hrowp 0 [JBigInt 9; num 1] [CInt 9] 1%nat (num 1)) as (m' & Hrun & _);
        [simpl; lia|simpl; lia|repeat constructor|reflexivity|reflexivity|].
      exists m'. split; [exact Hrun|].
      vm_compute in Hrun. injection Hrun as <-. reflexivity. }
  3:{ apply Hnofit; [simpl; lia|]. unfold al_length, ta_length. simpl. lia. }
  3:{ destruct (Htyped 0 (data sample_i64)) as [Hmis _];
        [simpl; lia|unfold ta_length; simpl; lia|].
      apply Hmis. simpl. discriminate. }
  - destruct (Hrow 1 [num 7; num 8; num 70000] [CInt 7; CInt 8; CInt 4464])
      as (m' & Hrun & _); [simpl; lia|repeat constructor|reflexivity|].
    exists m'. split; [exact Hrun|].
    vm_compute in Hrun. injection Hrun as <-. reflexivity.
  - destruct (Hcol 2 (Plain [num 7]) (fun i => if i =? 0 then CInt 7 else CInt 0))
      as (m' & Hrun & _ & _ & Hcells); [simpl; lia| |].
    { intros i Hi. simpl in Hi. assert (i = 0 \/ i = 1) as [-> | ->] by lia; reflexivity. }
    exists m'. split; [exact Hrun|].
    split; [|split].
    + rewrite Hcells by (simpl; lia). reflexivity.
    + rewrite Hcells by (simpl; lia). reflexivity.
    + rewrite Hcells by (simpl; lia). reflexivity.
Defined.

(** ** dot *)

Lemma seqZ_of_nat (n : nat) : seqZ 0 (Z.of_nat n) = Z.of_nat <$> seq 0 n.
Proof.
  unfold seqZ. rewrite Nat2Z.id. apply list_fmap_ext. intros i x _. lia.
Qed.

Lemma foldM_fmap {A B S} (body : S -> B -> Result S) (g : A -> B) l s :
  foldM body (g <$> l) s = foldM (fun s x => body s (g x)) l s.
Proof.
  revert s. induction l as [|x l IH]; intros s; simpl; [reflexivity|].
  destruct (body s (g x)); simpl; [apply IH|reflexivity].
Qed.

Lemma foldM_concat {A S} (body : S -> A -> Result S) ls s :
  foldM body (concat ls) s = foldM (fun s l => foldM body l s) ls s.
Proof.
  revert s. induction ls as [|l ls IH]; intros s; simpl; [reflexivity|].
  rewrite foldM_app. destruct (foldM body l s); simpl; [apply IH|reflexivity].
Qed.

Lemma foldM_ext {A S} (f g : S -> A -> Result S) l s :
  (forall s x, f s x = g s x) -> foldM f l s = foldM g l s.
Proof.
  intros H. revert s. induction l as [|x l IH]; intros s; simpl; [reflexivity|].
  rewrite H. destruct (g s x); simpl; [apply IH|reflexivity].
Qed.

(** The two nested loops of [dot] are one loop in column-major order. *)
Lemma foldM_column_major {S} (f : S -> Z -> Z -> Result S) (R C : nat) s :
  foldM (fun s j => foldM (fun s i => f s i j) (seqZ 0 (Z.of_nat R)) s)
    (seqZ 0 (Z.of_nat C)) s
  = foldM (fun s ij => f s (Z.of_nat ij.1) (Z.of_nat ij.2)) (column_major R C) s.
Proof.
  unfold column_major. rewrite foldM_concat. rewrite (foldM_fmap _ _ (seq 0 C)).
  rewrite (seqZ_of_nat C), (foldM_fmap _ Z.of_nat).
  apply foldM_ext. intros s' j. rewrite seqZ_of_nat, !foldM_fmap. reflexivity.
Qed.

(** A loop whose state stays in the image of [inj] is a fold. *)
Lemma foldM_foldl {A S U} (body : S -> A -> Result S) (inj : U -> S)
    (g : U -> A -> U) l u :
  (forall u x, x ∈ l -> body (inj u) x = Ok (inj (g u x))) ->
  foldM body l (inj u) = Ok (inj (foldl g u l)).
Proof.
  revert u. induction l as [|x l IH]; intros u H; simpl; [reflexivity|].
  rewrite H by left. simpl. apply IH. intros u' y Hy. apply H. right. exact Hy.
Qed.

Lemma elem_of_concat {A} (x : A) (ls : list (list A)) :
  x ∈ concat ls -> exists l, l ∈ ls /\ x ∈ l.
Proof.
  induction ls as [|l ls IH]; simpl; intros H.
  - apply elem_of_nil in H. contradiction.
  - apply elem_of_app in H as [H|H].
    + exists l. split; [left|exact H].
    + destruct (IH H) as (l' & Hl' & Hx). exists l'. split; [right; exact Hl'|exact Hx].
Qed.

Lemma elem_of_column_major R C i j :
  (i, j) ∈ column_major R C -> (i < R)%nat /\ (j < C)%nat.
Proof.
  unfold column_major. intros H. apply elem_of_concat in H as (l & Hin & Hl).
  apply list_elem_of_fmap in Hin as (j' & -> & Hj').
  apply list_elem_of_fmap in Hl as (i' & Heq & Hi').
  injection Heq as -> ->. apply elem_of_seq in Hj', Hi'. lia.
Qed.

Lemma item_nat m (R C i j : nat) :
  nCols m = Z.of_nat C -> length (cells (data m)) = (R * C)%nat ->
  (i < R)%nat -> (j < C)%nat ->
  item m (Z.of_nat i) (Z.of_nat j)
  = load (ctor (data m)) (cells (data m) !!! (i * C + j)%nat).
Proof.
  intros HC HL Hi Hj. unfold item. rewrite HC.
  replace (Z.of_nat i * Z.of_nat C + Z.of_nat j) with (Z.of_nat (i * C + j)) by lia.
  apply ta_get_nat, lookup_total_in. rewrite HL. apply index_lt; assumption.
Qed.

Lemma dot_spec (a b : Matrix) (R C : nat) :
  nRows a = Z.of_nat R -> nCols a = Z.of_nat C ->
  nRows b = Z.of_nat R -> nCols b = Z.of_nat C ->
  length (cells (data a)) = (R * C)%nat -> length (cells (data b)) = (R * C)%nat ->
  ctor (data b) = ctor (data a) ->
  Forall (summable (ctor (data a))) (cells (data a)) ->
  Forall (summable (ctor (data a))) (cells (data b)) ->
  cells (data a) <> [] \/ is_wide (ctor (data a)) = false ->
  dot a b =
  Ok (if is_wide (ctor (data a))
      then JBigInt (dot_wide (cells (data a)) (cells (data b)) C (column_major R C))
      else JNumber (dot_number (ctor (data a)) (cells (data a)) (cells (data b)) C
                      (column_major R C))).
Proof.
  intros HRa HCa HRb HCb HLa HLb Hk Hsa Hsb Hne. unfold dot.
  rewrite HRa, HCa, HRb, HCb, !Z.eqb_refl. cbn [negb].
  set (k := ctor (data a)) in *.
  assert (Hstart : typeof_bigint (ta_get (data a) 0) = is_wide k).
  { destruct (cells (data a)) as [|c0 rest] eqn:Hcells.
    - destruct Hne as [Hne| ->]; [contradiction|].
      change 0 with (Z.of_nat 0). rewrite ta_get_out by (rewrite Hcells; simpl; lia).
      reflexivity.
    - assert (Hc0 : cells (data a) !! 0%nat = Some c0) by (rewrite Hcells; reflexivity).
      pose proof (ta_get_nat (data a) 0 c0 Hc0) as Hg. change (Z.of_nat 0) with 0 in Hg.
      rewrite Hg. fold k. apply summable_wide.
      apply Forall_inv in Hsa. exact Hsa. }
  rewrite Hstart. clear Hstart.
  rewrite (foldM_column_major
             (fun res i j => adder ← js_mul (item a i j) (item b i j); js_add res adder)).
  assert (Hcell : forall i j, (i, j) ∈ column_major R C ->
            item a (Z.of_nat i) (Z.of_nat j) = load k (cells (data a) !!! (i * C + j)%nat) /\
            item b (Z.of_nat i) (Z.of_nat j) = load k (cells (data b) !!! (i * C + j)%nat) /\
            summable k (cells (data a) !!! (i * C + j)%nat) /\
            summable k (cells (data b) !!! (i * C + j)%nat)).
  { intros i j Hij. apply elem_of_column_major in Hij as [Hi Hj].
    assert (Hin : (i * C + j < R * C)%nat) by (apply index_lt; assumption).
    rewrite (item_nat a R C), (item_nat b R C) by assumption. rewrite Hk. fold k.
    split; [reflexivity|]. split; [reflexivity|]. split.
    - eapply (Forall_lookup_1 _ _ _ _ Hsa), lookup_total_in. lia.
    - eapply (Forall_lookup_1 _ _ _ _ Hsb), lookup_total_in. lia. }
  destruct (is_wide k) eqn:Hw.
  - unfold dot_wide. apply (foldM_foldl _ JBigInt).
    intros acc [i j] Hij. cbn [fst snd]. destruct (Hcell i j Hij) as (-> & -> & Ha & Hb).
    destruct (cells (data a) !!! (i * C + j)%nat) as [x|x] eqn:Ea;
      destruct (cells (data b) !!! (i * C + j)%nat) as [y|y] eqn:Eb; simpl in Ha, Hb;
      try (exfalso; destruct k; simpl in *; discriminate).
    simpl. rewrite Hw. reflexivity.
  - unfold dot_number. apply (foldM_foldl _ JNumber).
    intros acc [i j] Hij. cbn [fst snd]. destruct (Hcell i j Hij) as (-> & -> & Ha & Hb).
    rewrite js_mul_number by (apply load_number, Hw). reflexivity.
Qed.

(** Beside C2: dot on matrices of the data model of one kind, away from the
    failing input. With equal shapes, and at
    least one element when the kind is u64 or i64, dot returns the sum of the
    products of corresponding elements accumulated from zero in column-major
    order (outer index the column, inner index the row), a bigint for u64 and
    i64 and a number for the other kinds; with different row counts, or equal
    row counts and different column counts, it throws the matching error. *)
Theorem dot_column_major (a b : Matrix) :
  wf a -> wf b -> ctor (data b) = ctor (data a) ->
  let k := ctor (data a) in
  let R := Z.to_nat (nRows a) in
  let C := Z.to_nat (nCols a) in
  (Matrix_shape b = Matrix_shape a -> cells (data a) <> [] \/ is_wide k = false ->
   dot a b =
   Ok (if is_wide k
       then JBigInt (dot_wide (cells (data a)) (cells (data b)) C (column_major R C))
       else JNumber (dot_number k (cells (data a)) (cells (data b)) C
                       (column_major R C)))) /\
  (nRows b <> nRows a -> dot a b = Throw (Error "Matrices must have equal rows.")) /\
  (nRows b = nRows a -> nCols b <> nCols a ->
   dot a b = Throw (Error "Matrices must have equal cols.")).
Proof.
  intros Hwa Hwb Hk k R C. split; [|split].
  - intros Hsh Hne. unfold Matrix_shape in Hsh. injection Hsh as HRb HCb.
    pose proof (wf_summable a Hwa) as Hsa. pose proof (wf_summable b Hwb) as Hsb.
    rewrite Hk in Hsb.
    destruct Hwa as (HRa & HCa & HLa & _). destruct Hwb as (_ & _ & HLb & _).
    unfold layout_ok, ta_length in HLa, HLb.
    apply (dot_spec a b R C); try assumption; unfold R, C; try lia; nia.
  - intros Hr. unfold dot. destruct (Z.eqb_spec (nRows b) (nRows a)); [contradiction|].
    reflexivity.
  - intros Hr Hc. unfold dot. rewrite Hr, Z.eqb_refl.
    destruct (Z.eqb_spec (nCols b) (nCols a)); [contradiction|]. reflexivity.
Qed.

Lemma dot_column_major_witness :
  wf sample_i64 /\ wf sample_tf /\
  dot sample_i64 sample_i64 = Ok (JBigInt 150) /\
  dot sample_tf sample_tf = Ok (JNumber (Num.ofZ 7)) /\
  dot sample_i64 sample_tf = Throw (Error "Matrices must have equal cols.").
Proof.
  split; [exact wf_sample_i64|]. split; [exact wf_sample_tf|].
  destruct (dot_column_major sample_i64 sample_i64 wf_sample_i64 wf_sample_i64 eq_refl)
    as (Hdot & _ & _).
  destruct (dot_column_major sample_tf sample_tf wf_sample_tf wf_sample_tf eq_refl)
    as (Hdot' & _ & _).
  split; [rewrite Hdot by (reflexivity || (left; discriminate)); vm_compute; reflexivity|].
  split; [rewrite Hdot' by (reflexivity || (left; discriminate)); vm_compute; reflexivity|].
  vm_compute. reflexivity.
Defined.

(** C2 (the code at the failing input). For the u64 matrix of shape [0, 0],
    which Allocate mode builds, [typeof this.data[0]] is "undefined", so dot
    starts from the number 0 and returns it: a number, where the kind's
    domain is bigint. On a non-empty u64 matrix the start and the result are
    bigints. *)
Theorem dot_empty_wide_returns_number :
  Matrix_new (ArgTag u64) (with_shape 0 0) = Ok empty_u64 /\
  wf empty_u64 /\ is_wide (dType empty_u64) = true /\
  dot empty_u64 empty_u64 = Ok (JNumber (Num.ofZ 0)) /\
  dot single_u64 single_u64 = Ok (JBigInt 1).
Proof.
  split; [vm_compute; reflexivity|]. split; [exact wf_empty_u64|].
  split; [reflexivity|]. split; vm_compute; reflexivity.
Qed.

(** * Rows, columns and their bounds *)

(** ** Slices of a buffer *)

Lemma lookup_take_drop {A} (l : list A) (b n j : nat) :
  (j < n)%nat -> take n (drop b l) !! j = l !! (b + j)%nat.
Proof. intros Hj. rewrite lookup_take_lt by lia. apply lookup_drop. Qed.

Lemma ta_slice_range a (b e : nat) :
  (b <= e <= length (cells a))%nat ->
  ta_slice a (Z.of_nat b) (Some (Z.of_nat e))
  = mkTA (ctor a) (take (e - b) (drop b (cells a))).
Proof.
  intros Hbe. unfold ta_slice, clamp_index, ta_length.
  destruct (Z.ltb_spec (Z.of_nat b) 0); [lia|].
  destruct (Z.ltb_spec (Z.of_nat e) 0); [lia|].
  rewrite !Z.min_l by lia. rewrite Z.max_l by lia.
  rewrite Nat2Z.id. f_equal. f_equal. lia.
Qed.

Lemma ta_slice_empty a b e :
  clamp_index (ta_length a) e <= clamp_index (ta_length a) b ->
  cells (ta_slice a b (Some e)) = [].
Proof.
  intros H. unfold ta_slice. simpl. rewrite Z.max_r by lia. reflexivity.
Qed.

Lemma row_nat m (R C r : nat) :
  nCols m = Z.of_nat C -> length (cells (data m)) = (R * C)%nat -> (r < R)%nat ->
  row m (Z.of_nat r) = mkTA (ctor (data m)) (take C (drop (r * C) (cells (data m)))).
Proof.
  intros HC HL Hr. unfold row. rewrite HC.
  replace (Z.of_nat r * Z.of_nat C) with (Z.of_nat (r * C)) by lia.
  replace ((Z.of_nat r + 1) * Z.of_nat C) with (Z.of_nat (r * C + C)) by lia.
  rewrite ta_slice_range by nia. do 2 f_equal. lia.
Qed.

Lemma row_length m (R C r : nat) :
  nCols m = Z.of_nat C -> length (cells (data m)) = (R * C)%nat -> (r < R)%nat ->
  length (cells (row m (Z.of_nat r))) = C.
Proof.
  intros HC HL Hr. rewrite (row_nat m R C) by assumption. simpl.
  rewrite length_take, length_drop. nia.
Qed.

Lemma row_lookup m (R C r j : nat) :
  nCols m = Z.of_nat C -> length (cells (data m)) = (R * C)%nat ->
  (r < R)%nat -> (j < C)%nat ->
  cells (row m (Z.of_nat r)) !! j = cells (data m) !! (r * C + j)%nat.
Proof.
  intros HC HL Hr Hj. rewrite (row_nat m R C) by assumption. simpl.
  apply lookup_take_drop, Hj.
Qed.

(** The first [n] chunks of [C] cells make up the first [n * C] cells. *)
Lemma concat_chunks {A} (l : list A) (C n : nat) :
  concat ((fun i => take C (drop (i * C) l)) <$> seq 0 n) = take (n * C) l.
Proof.
  induction n as [|n IH]; [reflexivity|].
  rewrite seq_S, fmap_app, concat_app, IH. cbn [fmap list_fmap concat].
  rewrite app_nil_r, take_take_drop. f_equal. lia.
Qed.

(** Chunk [i] of a concatenation of chunks of [C] cells each. *)
Lemma chunk_of_concat {A} (ls : list (list A)) (C i : nat) (x : list A) :
  Forall (fun l => length l = C) ls -> ls !! i = Some x ->
  take C (drop (i * C) (concat ls)) = x.
Proof.
  intros Hlen. revert i x. induction Hlen as [|l ls Hl Hls IH]; intros i x Hx.
  - discriminate Hx.
  - destruct i as [|i]; simpl in Hx.
    + injection Hx as <-. cbn [concat Nat.mul]. rewrite drop_0.
      rewrite take_app_length'; [reflexivity|symmetry; exact Hl].
    + cbn [concat]. replace (S i * C)%nat with (length l + i * C)%nat by lia.
      rewrite drop_app_add'; [|reflexivity]. apply IH, Hx.
Qed.

(** ** row and at *)

(** X2. For every matrix of the data model and every row index within
    bounds, row(n), and at(n) with it, is a fresh array of the kind of the
    buffer holding the nCols elements of row n, left to right: its element j
    is item(n, j). *)
Theorem row_reads_row (m : Matrix) (n : Z) :
  wf m -> 0 <= n < nRows m ->
  at_ m n = row m n /\
  ctor (row m n) = ctor (data m) /\ ta_length (row m n) = nCols m /\
  (forall j, 0 <= j < nCols m ->
     cells (row m n) !! Z.to_nat j = cell_at m n j /\
     ta_get (row m n) j = item m n j).
Proof.
  intros Hwf Hn. destruct (wf_shape m Hwf) as (R & C & HR & HC & HL).
  split; [reflexivity|]. split; [reflexivity|].
  rewrite <- (Z2Nat.id n) by lia.
  assert (Hr : (Z.to_nat n < R)%nat) by lia.
  split.
  - unfold ta_length. rewrite (row_length m R C) by assumption. lia.
  - intros j Hj.
    assert (HjC : (Z.to_nat j < C)%nat) by lia.
    assert (Hcell : cells (row m (Z.of_nat (Z.to_nat n))) !! Z.to_nat j
                    = cell_at m (Z.of_nat (Z.to_nat n)) j).
    { rewrite (row_lookup m R C) by assumption.
      rewrite <- (Z2Nat.id j) at 2 by lia. symmetry. apply cell_at_nat, HC. }
    split; [exact Hcell|].
    rewrite (row_lookup m R C) in Hcell by assumption.
    assert (Hin : (Z.to_nat n * C + Z.to_nat j < length (cells (data m)))%nat)
      by (rewrite HL; apply index_lt; assumption).
    destruct (lookup_lt_is_Some_2 _ _ Hin) as [c Hc].
    rewrite <- (Z2Nat.id j) by lia.
    rewrite (ta_get_nat (row m (Z.of_nat (Z.to_nat n))) (Z.to_nat j) c)
      by (rewrite (row_lookup m R C) by assumption; exact Hc).
    unfold item. rewrite HC.
    replace (Z.of_nat (Z.to_nat n) * Z.of_nat C + Z.of_nat (Z.to_nat j))
      with (Z.of_nat (Z.to_nat n * C + Z.to_nat j)) by lia.
    rewrite (ta_get_nat _ _ c Hc). reflexivity.
Qed.

Lemma row_reads_row_witness :
  wf sample_i16 /\ 0 <= 1 < nRows sample_i16 /\
  cells (row sample_i16 1) = [CInt 4; CInt 5; CInt 6] /\
  ta_get (row sample_i16 1) 2 = item sample_i16 1 2.
Proof.
  assert (Hn : 0 <= 1 < nRows sample_i16) by (simpl; lia).
  split; [exact wf_sample_i16|]. split; [exact Hn|]. split; [reflexivity|].
  destruct (row_reads_row sample_i16 1 wf_sample_i16 Hn) as (_ & _ & _ & Hj).
  apply (Hj 2). simpl. lia.
Defined.

(** X3. row does not check its index and never throws. For a matrix of the
    data model, an index at or beyond nRows, the index -1 and an index below
    -nRows give an empty array; an index n from -nRows to -2 gives row
    nRows + n, as the relative indices of the typed array's slice have it. *)
Theorem row_out_of_range (m : Matrix) (n : Z) :
  wf m ->
  (nRows m <= n \/ n = -1 \/ n < - nRows m -> cells (row m n) = []) /\
  (- nRows m <= n <= -2 -> row m n = row m (nRows m + n)).
Proof.
  intros Hwf. destruct (wf_shape m Hwf) as (R & C & HR & HC & HL).
  assert (Hlen : ta_length (data m) = Z.of_nat R * Z.of_nat C)
    by (unfold ta_length; rewrite HL; lia).
  split.
  - intros Hn. unfold row. apply ta_slice_empty. rewrite Hlen, HR, HC in *.
    unfold clamp_index.
    destruct (Z.ltb_spec ((n + 1) * Z.of_nat C) 0);
      destruct (Z.ltb_spec (n * Z.of_nat C) 0); nia.
  - intros Hn. unfold row, ta_slice. rewrite Hlen, HR, HC in *.
    assert (Hb : clamp_index (Z.of_nat R * Z.of_nat C) (n * Z.of_nat C)
                 = clamp_index (Z.of_nat R * Z.of_nat C) ((Z.of_nat R + n) * Z.of_nat C)).
    { unfold clamp_index.
      destruct (Z.ltb_spec (n * Z.of_nat C) 0);
        destruct (Z.ltb_spec ((Z.of_nat R + n) * Z.of_nat C) 0); nia. }
    assert (He : clamp_index (Z.of_nat R * Z.of_nat C) ((n + 1) * Z.of_nat C)
                 = clamp_index (Z.of_nat R * Z.of_nat C)
                     ((Z.of_nat R + n + 1) * Z.of_nat C)).
    { unfold clamp_index.
      destruct (Z.ltb_spec ((n + 1) * Z.of_nat C) 0);
        destruct (Z.ltb_spec ((Z.of_nat R + n + 1) * Z.of_nat C) 0); nia. }
    rewrite Hb, He. reflexivity.
Qed.

Lemma row_out_of_range_witness :
  wf sample_i16 /\
  cells (row sample_i16 2) = [] /\ cells (row sample_i16 (-1)) = [] /\
  row sample_i16 (-2) = row sample_i16 0 /\
  cells (row sample_i16 (-2)) = [CInt 1; CInt 2; CInt 3].
Proof.
  split; [exact wf_sample_i16|].
  destruct (row_out_of_range sample_i16 2 wf_sample_i16) as [H2 _].
  destruct (row_out_of_range sample_i16 (-1) wf_sample_i16) as [H1 _].
  destruct (row_out_of_range sample_i16 (-2) wf_sample_i16) as [_ Hm2].
  split; [apply H2; simpl; lia|]. split; [apply H1; simpl; lia|].
  split; [apply Hm2; simpl; lia|]. reflexivity.
Defined.

(** ** rows *)

Lemma rows_nat m (R C : nat) :
  nRows m = Z.of_nat R -> nCols m = Z.of_nat C ->
  length (cells (data m)) = (R * C)%nat ->
  rows m = (fun i => mkTA (ctor (data m)) (take C (drop (i * C) (cells (data m)))))
             <$> seq 0 R.
Proof.
  intros HR HC HL. unfold rows. rewrite HR, seqZ_of_nat, <- list_fmap_compose.
  apply list_fmap_ext. intros i r Hr. apply lookup_seq in Hr as [-> Hr]. simpl.
  apply (row_nat m R C); assumption.
Qed.

(** X4. For every matrix of the data model, rows() yields nRows arrays, the
    i-th being row(i), each of the kind of the buffer and of nCols elements;
    laid end to end they are the buffer. *)
Theorem rows_partition_buffer (m : Matrix) :
  wf m ->
  Z.of_nat (length (rows m)) = nRows m /\
  (forall i, 0 <= i < nRows m -> rows m !! Z.to_nat i = Some (row m i)) /\
  Forall (fun r => ctor r = ctor (data m) /\ ta_length r = nCols m) (rows m) /\
  concat (cells <$> rows m) = cells (data m).
Proof.
  intros Hwf. destruct (wf_shape m Hwf) as (R & C & HR & HC & HL).
  split; [|split; [|split]].
  - unfold rows. rewrite length_fmap, length_seqZ. destruct Hwf. lia.
  - intros i Hi. unfold rows. rewrite list_lookup_fmap.
    rewrite (lookup_seqZ_lt 0) by lia. simpl. rewrite Z2Nat.id by lia. reflexivity.
  - rewrite (rows_nat m R C) by assumption. apply Forall_fmap, Forall_forall.
    intros i Hi. apply elem_of_seq in Hi. simpl. split; [reflexivity|].
    unfold ta_length. simpl. rewrite length_take, length_drop. nia.
  - rewrite (rows_nat m R C) by assumption. rewrite <- list_fmap_compose.
    change (cells ∘ _) with (fun i => take C (drop (i * C) (cells (data m)))).
    rewrite concat_chunks. apply take_ge. lia.
Qed.

Lemma rows_partition_buffer_witness :
  wf sample_i16 /\
  rows sample_i16 = [mkTA i16 [CInt 1; CInt 2; CInt 3]; mkTA i16 [CInt 4; CInt 5; CInt 6]] /\
  concat (cells <$> rows sample_i16) = cells (data sample_i16).
Proof.
  split; [exact wf_sample_i16|]. split; [reflexivity|].
  apply (rows_partition_buffer sample_i16 wf_sample_i16).
Defined.

(** ** col *)

(** [col(n)] when every element read converts: entry [i] is what
    [this.data[i * nCols + n]] stores. *)
Lemma col_spec m (R : nat) (n : Z) (h : nat -> Cell) :
  nRows m = Z.of_nat R ->
  (forall i, (i < R)%nat ->
     store (ctor (data m)) (ta_get (data m) (Z.of_nat i * nCols m + n)) = Ok (h i)) ->
  col m n = Ok (mkTA (ctor (data m)) (h <$> seq 0 R)).
Proof.
  intros HR Hh. unfold col. rewrite HR, ta_new_nat. simpl.
  set (k := ctor (data m)).
  destruct (foldM_seqZ_inv
              (fun (s : TypedArray * Z) i =>
                 c ← ta_put s.1 i (ta_get (data m) (s.2 + n));
                 Ok (c, s.2 + nCols m))
              (fun i s => s.2 = Z.of_nat i * nCols m /\ ctor s.1 = k /\
                          length (cells s.1) = R /\
                          forall j, (j < i)%nat -> cells s.1 !! j = Some (h j))
              R (mkTA k (replicate R (zero_cell k)), 0))
    as ([c off] & Hrun & _ & Hk & Hlen & Hc).
  - simpl. split; [lia|]. split; [reflexivity|]. split; [apply length_replicate|].
    intros j Hj. lia.
  - intros i [c off] Hi (Hoff & Hk & Hlen & Hc). simpl in *. subst off.
    rewrite (ta_put_nat _ _ _ (h i)) by (rewrite Hk; apply Hh, Hi).
    simpl. eexists. split; [reflexivity|]. simpl.
    split; [lia|]. split; [exact Hk|]. split; [rewrite length_insert; exact Hlen|].
    intros j Hj. destruct (decide (j = i)) as [->|Hne].
    + apply list_lookup_insert_eq. lia.
    + rewrite list_lookup_insert_ne by lia. apply Hc. lia.
  - rewrite Hrun. simpl in *. f_equal.
    destruct c as [kc cc]. simpl in *. subst kc. f_equal.
    apply list_eq_same_length with R; [rewrite length_fmap, length_seq; reflexivity|exact Hlen|].
    intros j x y Hj Hx Hy. rewrite Hc in Hx by exact Hj.
    rewrite list_lookup_fmap, lookup_seq_lt in Hy by exact Hj. simpl in Hy. congruence.
Qed.

Lemma col_nat m (R C n : nat) :
  nRows m = Z.of_nat R -> nCols m = Z.of_nat C ->
  length (cells (data m)) = (R * C)%nat -> ta_ok (data m) -> (n < C)%nat ->
  col m (Z.of_nat n)
  = Ok (mkTA (ctor (data m))
          ((fun i => cells (data m) !!! (i * C + n)%nat) <$> seq 0 R)).
Proof.
  intros HR HC HL Hok Hn. apply col_spec; [exact HR|]. intros i Hi. rewrite HC.
  replace (Z.of_nat i * Z.of_nat C + Z.of_nat n) with (Z.of_nat (i * C + n)) by lia.
  assert (Hin : cells (data m) !! (i * C + n)%nat
                = Some (cells (data m) !!! (i * C + n)%nat)).
  { apply lookup_total_in. rewrite HL. apply index_lt; lia. }
  rewrite (ta_get_nat _ _ _ Hin). apply store_load.
  eapply (Forall_lookup_1 _ _ _ _ Hok), Hin.
Qed.

(** X5. For every matrix of the data model and every column index within
    bounds, col(n) returns a fresh array of the kind of the buffer holding
    the nRows elements of column n, top to bottom, and it is the array that
    cols() yields at position n. *)
Theorem col_reads_column (m : Matrix) (n : Z) :
  wf m -> 0 <= n < nCols m ->
  exists c, col m n = Ok c /\ cols_column m n = Ok c /\
            ctor c = ctor (data m) /\ ta_length c = nRows m /\
            forall i, 0 <= i < nRows m ->
              cells c !! Z.to_nat i = cell_at m i n /\ ta_get c i = item m i n.
Proof.
  intros Hwf Hn. destruct (wf_shape m Hwf) as (R & C & HR & HC & HL).
  pose proof Hwf as (_ & _ & _ & _ & Hok).
  set (cs := cells (data m)).
  assert (Hin : forall i, (i < R)%nat -> cs !! (i * C + Z.to_nat n)%nat
                                         = Some (cs !!! (i * C + Z.to_nat n)%nat)).
  { intros i Hi. apply lookup_total_in. unfold cs. rewrite HL. apply index_lt; lia. }
  assert (Hcol : col m n = Ok (mkTA (ctor (data m))
                                 ((fun i => cs !!! (i * C + Z.to_nat n)%nat) <$> seq 0 R))).
  { rewrite <- (Z2Nat.id n) at 1 by lia. apply col_nat; try assumption. lia. }
  eexists. split; [exact Hcol|]. split.
  - destruct (cols_column_spec m R C (Z.to_nat n) HR HC HL Hok ltac:(lia))
      as (c & Hrun & Hk & Hlen & Hc).
    rewrite Z2Nat.id in Hrun by lia. rewrite Hrun. f_equal.
    destruct c as [kc cc]. simpl in *. subst kc. f_equal.
    apply list_eq_same_length with R; [rewrite length_fmap, length_seq; reflexivity|exact Hlen|].
    intros j x y Hj Hx Hy. rewrite Hc in Hx by exact Hj.
    rewrite list_lookup_fmap, lookup_seq_lt in Hy by exact Hj. simpl in Hy.
    fold cs in Hx. rewrite Hin in Hx by exact Hj. congruence.
  - simpl. split; [reflexivity|]. split.
    { unfold ta_length. simpl. rewrite length_fmap, length_seq. lia. }
    intros i Hi.
    assert (Hi' : (Z.to_nat i < R)%nat) by lia.
    assert (Hci : ((fun i => cs !!! (i * C + Z.to_nat n)%nat) <$> seq 0 R) !! Z.to_nat i
                  = cs !! (Z.to_nat i * C + Z.to_nat n)%nat).
    { rewrite list_lookup_fmap, lookup_seq_lt by exact Hi'. simpl.
      symmetry. apply Hin, Hi'. }
    split.
    + rewrite Hci. rewrite <- (Z2Nat.id i) at 2 by lia. rewrite <- (Z2Nat.id n) at 2 by lia.
      symmetry. apply cell_at_nat, HC.
    + rewrite <- (Z2Nat.id i) at 1 by lia.
      rewrite (ta_get_nat (mkTA _ _) _ (cs !!! (Z.to_nat i * C + Z.to_nat n)%nat))
        by (simpl; rewrite Hci; apply Hin, Hi').
      simpl. rewrite <- (Z2Nat.id i) at 2 by lia. rewrite <- (Z2Nat.id n) at 2 by lia.
      symmetry. apply (item_nat m R C); [exact HC|exact HL|exact Hi'|lia].
Qed.

Lemma col_reads_column_witness :
  wf sample_i16 /\ 0 <= 1 < nCols sample_i16 /\
  exists c, col sample_i16 1 = Ok c /\ cols_column sample_i16 1 = Ok c /\
            cells c = [CInt 2; CInt 5].
Proof.
  assert (Hn : 0 <= 1 < nCols sample_i16) by (simpl; lia).
  split; [exact wf_sample_i16|]. split; [exact Hn|].
  destruct (col_reads_column sample_i16 1 wf_sample_i16 Hn) as (c & Hc & Hcc & _).
  exists c. split; [exact Hc|]. split; [exact Hcc|].
  vm_compute in Hc. injection Hc as <-. reflexivity.
Defined.

(** A counting loop throws [e] when its round [x] does on every state the
    rounds before can leave, and no round throws anything else. *)
Lemma foldM_seqZ_reach {S} (body : S -> Z -> Result S) (P : nat -> S -> Prop)
    (e : Exn) (n : nat) (s0 : S) :
  P 0%nat s0 ->
  (forall i s, (i < n)%nat -> P i s ->
     (exists s', body s (Z.of_nat i) = Ok s' /\ P (Datatypes.S i) s')
     \/ body s (Z.of_nat i) = Throw e) ->
  (exists s', foldM body (seqZ 0 (Z.of_nat n)) s0 = Ok s' /\ P n s')
  \/ foldM body (seqZ 0 (Z.of_nat n)) s0 = Throw e.
Proof.
  intros H0 Hstep. induction n as [|n IH].
  - left. exists s0. split; [reflexivity|exact H0].
  - rewrite seqZ_S, foldM_app, Z.add_0_l.
    destruct IH as [(s1 & Hrun & HP)|Hthrow]; [intros i s Hi; apply Hstep; lia| |].
    + rewrite Hrun. simpl.
      destruct (Hstep n s1 ltac:(lia) HP) as [(s2 & Hb & HP2)|Hb]; rewrite Hb.
      * left. exists s2. split; [reflexivity|exact HP2].
      * right. reflexivity.
    + right. rewrite Hthrow. reflexivity.
Qed.

Lemma foldM_seqZ_throws {S} (body : S -> Z -> Result S) (P : nat -> S -> Prop)
    (e : Exn) (n x : nat) (s0 : S) :
  P 0%nat s0 -> (x < n)%nat ->
  (forall i s, (i < n)%nat -> P i s ->
     (exists s', body s (Z.of_nat i) = Ok s' /\ P (Datatypes.S i) s')
     \/ body s (Z.of_nat i) = Throw e) ->
  (forall s, P x s -> body s (Z.of_nat x) = Throw e) ->
  foldM body (seqZ 0 (Z.of_nat n)) s0 = Throw e.
Proof.
  intros H0 Hx Hstep Hthrow.
  replace (Z.of_nat n) with (Z.of_nat x + Z.of_nat (n - x)) by lia.
  rewrite seqZ_app by lia. rewrite foldM_app.
  destruct (foldM_seqZ_reach body P e x s0 H0) as [(s1 & Hrun & HP)|Hrun].
  - intros i s Hi. apply Hstep. lia.
  - rewrite Hrun. simpl. destruct (n - x)%nat as [|d] eqn:Hd; [lia|].
    rewrite Nat2Z.inj_succ, <- Z.add_1_r.
    rewrite seqZ_cons by lia. simpl. rewrite Z.add_0_l, (Hthrow s1 HP). reflexivity.
  - rewrite Hrun. reflexivity.
Qed.

(** X6. col does not check its index. For a matrix of the data model with at
    least one row and an index outside 0 .. nCols - 1: on a bigint matrix
    col throws a TypeError (an element read outside the buffer is undefined,
    which no bigint array stores); on a matrix of numbers it returns nRows
    elements read at the flat offsets i * nCols + n, so elements of the
    neighbouring rows, and NaN (0 in an integer array) where the offset
    leaves the buffer. *)
Theorem col_out_of_range (m : Matrix) (n : Z) :
  wf m -> 0 < nRows m -> n < 0 \/ nCols m <= n ->
  if is_wide (ctor (data m)) then col m n = Throw TypeError
  else
    exists c, col m n = Ok c /\ ctor c = ctor (data m) /\ ta_length c = nRows m /\
              forall i, 0 <= i < nRows m ->
                cells c !! Z.to_nat i
                = if decide (0 <= i * nCols m + n < nRows m * nCols m)
                  then cells (data m) !! Z.to_nat (i * nCols m + n)
                  else Some (undefined_cell (ctor (data m))).
Proof.
  intros Hwf HR0 Hn. destruct (wf_shape m Hwf) as (R & C & HR & HC & HL).
  pose proof Hwf as (_ & _ & _ & _ & Hok).
  set (k := ctor (data m)). set (cs := cells (data m)).
  (* what one read gives *)
  assert (Hread : forall i : nat,
            if decide (0 <= Z.of_nat i * Z.of_nat C + n < Z.of_nat R * Z.of_nat C)
            then exists c, cs !! Z.to_nat (Z.of_nat i * Z.of_nat C + n) = Some c /\
                           ta_get (data m) (Z.of_nat i * Z.of_nat C + n) = load k c /\
                           store k (load k c) = Ok c
            else ta_get (data m) (Z.of_nat i * Z.of_nat C + n) = JUndefined).
  { intros i. destruct (decide _) as [Hin|Hout].
    - assert (Hlt : (Z.to_nat (Z.of_nat i * Z.of_nat C + n) < length cs)%nat)
        by (unfold cs; rewrite HL; nia).
      destruct (lookup_lt_is_Some_2 _ _ Hlt) as [c Hc]. exists c.
      split; [exact Hc|].
      rewrite <- (Z2Nat.id (Z.of_nat i * Z.of_nat C + n)) at 1 by lia.
      split; [apply ta_get_nat, Hc|].
      apply store_load. eapply (Forall_lookup_1 _ _ _ _ Hok Hc).
    - unfold ta_get.
      destruct (Z.ltb_spec (Z.of_nat i * Z.of_nat C + n) 0); [reflexivity|].
      rewrite lookup_ge_None_2; [reflexivity|]. rewrite HL. nia. }
  destruct (is_wide k) eqn:Hw.
  - (* a bigint array: the first read outside the buffer throws *)
    unfold col. rewrite HR, ta_new_nat. simpl. fold k.
    rewrite (foldM_seqZ_throws _
               (fun i s => s.2 = Z.of_nat i * nCols m /\ ctor s.1 = k)
               TypeError R (if decide (n < 0) then 0%nat else (R - 1)%nat));
      [reflexivity| | | |].
    + simpl. split; [lia|reflexivity].
    + destruct (decide (n < 0)); lia.
    + intros i [c off] Hi [Hoff Hk]. simpl in *. subst off. rewrite HC.
      specialize (Hread i). destruct (decide _) as [Hin|Hout].
      * destruct Hread as (x & _ & -> & Hs). left.
        unfold ta_put. rewrite Hk, Hs. simpl. eexists. split; [reflexivity|].
        simpl. split; [lia|].
        destruct (Z.of_nat i <? 0); [exact Hk|reflexivity].
      * right. rewrite Hread. unfold ta_put, store. rewrite Hk, Hw. reflexivity.
    + intros [c off] [Hoff Hk]. simpl in *. subst off. rewrite HC.
      match goal with |- context [Z.of_nat ?x * _ + n] => specialize (Hread x) end.
      destruct (decide _) as [Hin|Hout].
      * exfalso. destruct (decide (n < 0)); nia.
      * rewrite Hread. unfold ta_put, store. rewrite Hk, Hw. reflexivity.
  - (* an array of numbers: undefined is stored as NaN or 0 *)
    assert (Hundef : store k JUndefined = Ok (undefined_cell k)).
    { unfold store, undefined_cell. rewrite Hw.
      destruct k; try discriminate Hw; reflexivity. }
    set (h := fun i : nat =>
                if decide (0 <= Z.of_nat i * Z.of_nat C + n < Z.of_nat R * Z.of_nat C)
                then cs !!! Z.to_nat (Z.of_nat i * Z.of_nat C + n)
                else undefined_cell k).
    assert (Hcol : col m n = Ok (mkTA k (h <$> seq 0 R))).
    { apply col_spec; [exact HR|]. intros i Hi. rewrite HC. unfold h.
      specialize (Hread i). destruct (decide _) as [Hin|Hout].
      - destruct Hread as (x & Hx & -> & Hs).
        rewrite (list_lookup_total_correct _ _ _ Hx). exact Hs.
      - rewrite Hread. exact Hundef. }
    eexists. split; [exact Hcol|]. simpl. split; [reflexivity|]. split.
    { unfold ta_length. simpl. rewrite length_fmap, length_seq. lia. }
    intros i Hi. rewrite list_lookup_fmap, lookup_seq_lt by lia. simpl.
    unfold h. rewrite Z2Nat.id by lia. rewrite HR, HC.
    specialize (Hread (Z.to_nat i)). rewrite Z2Nat.id in Hread by lia.
    destruct (decide _) as [Hin|Hout]; [|reflexivity].
    destruct Hread as (x & Hx & _). rewrite Hx.
    rewrite (list_lookup_total_correct _ _ _ Hx). reflexivity.
Qed.

Lemma col_out_of_range_witness :
  (wf sample_i16 /\ 0 < nRows sample_i16 /\ nCols sample_i16 <= 3 /\
   col sample_i16 3 = Ok (mkTA i16 [CInt 4; CInt 0])) /\
  (wf sample_i64 /\ col sample_i64 2 = Throw TypeError).
Proof.
  split.
  - split; [exact wf_sample_i16|]. split; [simpl; lia|]. split; [simpl; lia|].
    pose proof (col_out_of_range sample_i16 3 wf_sample_i16) as H.
    destruct H as (c & Hc & _); [simpl; lia|right; simpl; lia|].
    rewrite Hc. vm_compute in Hc. symmetry. exact Hc.
  - split; [exact wf_sample_i64|].
    apply (col_out_of_range sample_i64 2 wf_sample_i64); [simpl; lia|right; simpl; lia].
Defined.

(** ** The rows of the transpose *)

(** X7. For every matrix of the data model, the rows of the transpose are
    the columns of the matrix: rows() of T yields what cols() of the matrix
    yields, and row(n) of T is col(n) of the matrix for every column index
    within bounds. *)
Theorem transpose_rows_are_columns (m : Matrix) :
  wf m ->
  exists m', T m = Ok m' /\ cols m = Ok (rows m') /\
             forall n, 0 <= n < nCols m -> col m n = Ok (row m' n).
Proof.
  intros Hwf. destruct (wf_shape m Hwf) as (R & C & HR & HC & HL).
  pose proof Hwf as (_ & _ & _ & _ & Hok).
  destruct (T_spec m R C HR HC HL Hok) as (a & HT & Hk & Hlen & Ha).
  set (m' := mkMatrix (ctor (data m)) (Z.of_nat C) (Z.of_nat R) a) in *.
  assert (Hrow : forall i, (i < C)%nat ->
            row m' (Z.of_nat i)
            = mkTA (ctor (data m))
                ((fun j => cells (data m) !!! (j * C + i)%nat) <$> seq 0 R)).
  { intros i Hi. rewrite (row_nat m' C R) by (try reflexivity; assumption).
    simpl. rewrite Hk. f_equal.
    apply list_eq_same_length with R;
      [rewrite length_fmap, length_seq; reflexivity
      |rewrite length_take, length_drop; nia|].
    intros j x y Hj Hx Hy.
    rewrite lookup_take_drop in Hx by exact Hj. rewrite Ha in Hx by assumption.
    rewrite list_lookup_fmap, lookup_seq_lt in Hy by exact Hj. simpl in Hy.
    apply list_lookup_total_correct in Hx. congruence. }
  exists m'. split; [exact HT|]. split.
  - rewrite (cols_spec m R C HR HC HL Hok). f_equal.
    unfold rows. simpl. apply list_fmap_ext. intros p i Hi.
    apply lookup_seqZ in Hi as [-> Hp]. simpl in Hp.
    rewrite Z.add_0_l, Nat2Z.id. symmetry. apply (Hrow p). lia.
  - intros n Hn.
    rewrite <- (Z2Nat.id n) by lia.
    rewrite (col_nat m R C) by (try assumption; lia). f_equal.
    symmetry. apply Hrow. lia.
Qed.

Lemma transpose_rows_are_columns_witness :
  wf sample_i16 /\
  exists m', T sample_i16 = Ok m' /\ cols sample_i16 = Ok (rows m') /\
             rows m' = [mkTA i16 [CInt 1; CInt 4]; mkTA i16 [CInt 2; CInt 5];
                        mkTA i16 [CInt 3; CInt 6]].
Proof.
  split; [exact wf_sample_i16|].
  destruct (transpose_rows_are_columns sample_i16 wf_sample_i16) as (m' & HT & Hc & _).
  exists m'. split; [exact HT|]. split; [exact Hc|].
  vm_compute in HT. injection HT as <-. reflexivity.
Defined.

(** * Copying rows, filter and slice *)

(** ** setRow from a typed array *)

(** X8. For every matrix of the data model, every row index within bounds
    and every typed array v of the kind of the buffer with nCols elements,
    setRow(r, v) returns, keeps the shape, and afterwards row(r) is v and
    every other row is what it was. A typed array that does not fit in the
    buffer from flat offset r * nCols on is the typed array's RangeError,
    whatever its content type; one that fits and has the other content type
    (bigints for a matrix of numbers, numbers for a bigint matrix) is a
    TypeError; both leave the matrix as it was. *)
Theorem setRow_then_row (m : Matrix) (r : Z) :
  wf m -> 0 <= r < nRows m ->
  (forall v, ctor v = ctor (data m) -> ta_length v = nCols m ->
     exists m', setRow m r (Typed v) = (Ok tt, m') /\
                Matrix_shape m' = Matrix_shape m /\ layout_ok m' /\
                row m' r = v /\
                forall r', 0 <= r' < nRows m -> r' <> r -> row m' r' = row m r') /\
  (forall v, nRows m * nCols m < r * nCols m + ta_length v ->
     setRow m r (Typed v) = (Throw RangeError, m)) /\
  (forall v, r * nCols m + ta_length v <= nRows m * nCols m ->
     is_wide (ctor v) <> is_wide (ctor (data m)) ->
     setRow m r (Typed v) = (Throw TypeError, m)).
Proof.
  intros Hwf Hr. destruct (wf_shape m Hwf) as (R & C & HR & HC & HL).
  assert (HlenZ : ta_length (data m) = nRows m * nCols m)
    by (unfold ta_length; rewrite HL, HR, HC; lia).
  split; [|split].
  - intros v Hk Hlen. unfold ta_length in Hlen.
    assert (HlenC : length (cells v) = C) by lia.
    assert (Hfit : (Z.to_nat r * C + length (cells v) <= length (cells (data m)))%nat)
      by (rewrite HL, HlenC; nia).
    pose proof (setRow_typed m C (Z.to_nat r) v HC Hk Hfit) as Hrun.
    rewrite Z2Nat.id in Hrun by lia.
    eexists. split; [exact Hrun|]. split; [reflexivity|].
    set (cs' := take (Z.to_nat r * C) (cells (data m)) ++ cells v
                  ++ drop (Z.to_nat r * C + length (cells v)) (cells (data m))).
    assert (HL' : length cs' = (R * C)%nat)
      by (unfold cs'; rewrite splice_length by exact Hfit; exact HL).
    split; [unfold layout_ok, ta_length; simpl; fold cs'; rewrite HL'; nia|].
    assert (Hrows : forall q, (q < R)%nat ->
              row (with_data m (mkTA (ctor (data m)) cs')) (Z.of_nat q)
              = mkTA (ctor (data m)) (take C (drop (q * C) cs'))).
    { intros q Hq.
      exact (row_nat (with_data m (mkTA (ctor (data m)) cs')) R C q HC HL' Hq). }
    split.
    + rewrite <- (Z2Nat.id r) at 1 by lia. rewrite Hrows by lia.
      destruct v as [kv cv]. simpl in *. subst kv. f_equal.
      unfold cs'. rewrite drop_app_length' by (rewrite length_take; lia).
      apply take_app_length'. lia.
    + intros r' Hr' Hne. rewrite <- (Z2Nat.id r') by lia.
      rewrite Hrows, (row_nat m R C) by (try assumption; lia). f_equal.
      apply list_eq. intros j. destruct (decide (j < C)%nat) as [Hj|Hj].
      * rewrite !lookup_take_drop by exact Hj. unfold cs'.
        rewrite splice_lookup by exact Hfit.
        rewrite decide_False; [reflexivity|]. rewrite HlenC. nia.
      * rewrite !lookup_take_ge by lia. reflexivity.
  - intros v Hout. apply setRow_no_fit. right. rewrite HlenZ. cbn [al_length]. lia.
  - intros v Hfit Hw. apply setRow_typed_mismatch; [nia|rewrite HlenZ; lia|exact Hw].
Qed.

Lemma setRow_then_row_witness :
  wf sample_i16 /\ 0 <= 0 < nRows sample_i16 /\
  (exists m', setRow sample_i16 0 (Typed (row sample_i16 1)) = (Ok tt, m') /\
              row m' 0 = row sample_i16 1 /\ row m' 1 = row sample_i16 1) /\
  setRow sample_i16 0 (Typed (mkTA i64 (replicate 7 (CInt 0))))
  = (Throw RangeError, sample_i16) /\
  setRow sample_i16 0 (Typed (row sample_i64 0)) = (Throw TypeError, sample_i16).
Proof.
  assert (Hr : 0 <= 0 < nRows sample_i16) by (simpl; lia).
  split; [exact wf_sample_i16|]. split; [exact Hr|].
  destruct (setRow_then_row sample_i16 0 wf_sample_i16 Hr) as (Hsame & Hout & Hother).
  split; [|split].
  - destruct (Hsame (row sample_i16 1) eq_refl eq_refl) as (m' & Hrun & _ & _ & H0 & H1).
    exists m'. split; [exact Hrun|]. split; [exact H0|].
    apply H1; simpl; lia.
  - apply Hout. unfold ta_length. simpl. lia.
  - apply Hother; [unfold ta_length; simpl; lia|simpl; discriminate].
Defined.

(** ** filter *)

Lemma satisfying_filter {A} (p : A -> bool) (l acc : list A) :
  foldl (fun sat i => if p i then sat ++ [i] else sat) acc l = acc ++ List.filter p l.
Proof.
  revert acc. induction l as [|x l IH]; intros acc; simpl.
  - rewrite app_nil_r. reflexivity.
  - rewrite IH. destruct (p x); [rewrite <- app_assoc|]; reflexivity.
Qed.

Lemma filter_elem_of {A} (p : A -> bool) (l : list A) (x : A) :
  x ∈ List.filter p l -> x ∈ l.
Proof.
  intros H. apply list_elem_of_In. apply list_elem_of_In in H.
  apply List.filter_In in H. apply H.
Qed.

Lemma concat_length_chunks {A} (ls : list (list A)) (C : nat) :
  Forall (fun l => length l = C) ls -> length (concat ls) = (length ls * C)%nat.
Proof.
  induction 1 as [|l ls Hl _ IH]; [reflexivity|].
  simpl. rewrite length_app, IH, Hl. reflexivity.
Qed.

(** The rows [filter] keeps, and the buffer of the matrix it returns. *)
Lemma filter_spec m (R C : nat) (fn : TypedArray -> Z -> bool) :
  nRows m = Z.of_nat R -> nCols m = Z.of_nat C ->
  length (cells (data m)) = (R * C)%nat -> dType m = ctor (data m) ->
  let kept := List.filter (fun i => fn (row m i) i) (seqZ 0 (Z.of_nat R)) in
  Forall (fun l => length l = C) ((fun i => cells (row m i)) <$> kept) /\
  filter m fn
  = Ok (mkMatrix (dType m) (Z.of_nat (length kept)) (Z.of_nat C)
          (mkTA (dType m) (concat ((fun i => cells (row m i)) <$> kept)))).
Proof.
  intros HR HC HL Hty kept.
  assert (Hkept : forall i, i ∈ kept -> 0 <= i < Z.of_nat R).
  { intros i Hi. apply filter_elem_of, elem_of_seqZ in Hi. lia. }
  assert (Hchunks : Forall (fun l => length l = C) ((fun i => cells (row m i)) <$> kept)).
  { apply Forall_fmap, Forall_forall. intros i Hi. specialize (Hkept i Hi). simpl.
    rewrite <- (Z2Nat.id i) by lia. apply (row_length m R C); [exact HC|exact HL|lia]. }
  split; [exact Hchunks|].
  unfold filter. rewrite HR, satisfying_filter. cbn [app]. fold kept.
  set (n := length kept). set (k := dType m).
  unfold Matrix_new, with_shape, getConstructor. cbn [shape].
  rewrite HC. replace (Z.of_nat n * Z.of_nat C) with (Z.of_nat (n * C)) by lia.
  rewrite ta_new_nat. cbn [mbind Result_bind].
  destruct (foldM_seqZ_inv
              (fun matrix i =>
                 match setRow matrix i (Typed (row m (kept !!! Z.to_nat i))) with
                 | (Ok _, matrix') => Ok matrix'
                 | (Throw e, _) => Throw e
                 end)
              (fun i mx =>
                 mx = mkMatrix k (Z.of_nat n) (Z.of_nat C)
                        (mkTA k (concat ((fun i => cells (row m i)) <$> take i kept)
                                   ++ replicate ((n - i) * C) (zero_cell k))))
              n (mkMatrix k (Z.of_nat n) (Z.of_nat C)
                   (mkTA k (replicate (n * C) (zero_cell k)))))
    as (mx & Hrun & Hmx).
  - rewrite take_0, Nat.sub_0_r. reflexivity.
  - intros i mx Hi ->. rewrite Nat2Z.id.
    destruct (lookup_lt_is_Some_2 kept i Hi) as [q Hq].
    rewrite (list_lookup_total_correct _ _ _ Hq).
    assert (Hqr : 0 <= q < Z.of_nat R) by (apply Hkept; eapply list_elem_of_lookup_2, Hq).
    assert (Hrl : length (cells (row m q)) = C).
    { rewrite <- (Z2Nat.id q) by lia. apply (row_length m R C); [exact HC|exact HL|lia]. }
    set (X := concat ((fun i => cells (row m i)) <$> take i kept)).
    assert (HX : length X = (i * C)%nat).
    { unfold X. rewrite (concat_length_chunks _ C).
      - rewrite length_fmap, length_take. fold n. f_equal. lia.
      - rewrite fmap_take. apply Forall_take, Hchunks. }
    rewrite (setRow_typed _ C i (row m q)); cbn [data nCols ctor cells];
      [|reflexivity|unfold k; rewrite Hty; reflexivity
       |rewrite length_app, length_replicate, HX, Hrl; nia].
    eexists. split; [reflexivity|]. unfold with_data. cbn [dType nRows nCols].
    do 2 f_equal.
    rewrite (take_S_r _ _ _ Hq), fmap_app, concat_app. cbn [fmap list_fmap concat].
    rewrite app_nil_r. fold X. rewrite <- app_assoc. rewrite <- HX at 1.
    rewrite take_app_length. f_equal. f_equal.
    replace (i * C + length (cells (row m q)))%nat with (length X + C)%nat by lia.
    rewrite drop_app_add, drop_replicate. f_equal. nia.
  - rewrite Hrun, Hmx. do 3 f_equal.
    rewrite take_ge by (fold n; lia).
    rewrite Nat.sub_diag. cbn [Nat.mul replicate]. apply app_nil_r.
Qed.

Lemma rows_concat m (R C : nat) :
  nRows m = Z.of_nat R -> nCols m = Z.of_nat C ->
  length (cells (data m)) = (R * C)%nat ->
  concat ((fun i => cells (row m i)) <$> seqZ 0 (Z.of_nat R)) = cells (data m).
Proof.
  intros HR HC HL. rewrite seqZ_of_nat, <- list_fmap_compose.
  transitivity (concat ((fun i => take C (drop (i * C) (cells (data m)))) <$> seq 0 R)).
  - f_equal. apply list_fmap_ext. intros i x Hx. apply lookup_seq in Hx as [-> Hx].
    cbv [compose]. rewrite (row_nat m R C) by assumption. reflexivity.
  - rewrite concat_chunks. apply take_ge. lia.
Qed.

(** X9. For every matrix of the data model and every predicate on a row and
    its index, filter returns a new matrix of the data model, of the same
    kind and column count, whose rows are the rows of the matrix the
    predicate accepts, in their order. *)
Theorem filter_selects_rows (m : Matrix) (fn : TypedArray -> Z -> bool) :
  wf m ->
  exists res,
    filter m fn = Ok res /\ wf res /\
    nCols res = nCols m /\ dType res = dType m /\
    rows res = row m <$> List.filter (fun i => fn (row m i) i) (seqZ 0 (nRows m)).
Proof.
  intros Hwf. destruct (wf_shape m Hwf) as (R & C & HR & HC & HL).
  pose proof Hwf as (_ & _ & _ & Hty & Hok).
  destruct (filter_spec m R C fn HR HC HL Hty) as [Hchunks Hrun].
  rewrite HR. set (kept := List.filter (fun i => fn (row m i) i) (seqZ 0 (Z.of_nat R))) in *.
  assert (Hkept : forall i, i ∈ kept -> 0 <= i < Z.of_nat R).
  { intros i Hi. apply filter_elem_of, elem_of_seqZ in Hi. lia. }
  assert (Hlen : length (concat ((fun i => cells (row m i)) <$> kept))
                 = (length kept * C)%nat).
  { rewrite (concat_length_chunks _ C Hchunks), length_fmap. reflexivity. }
  eexists. split; [exact Hrun|]. split; [|split; [|split]].
  - split; [simpl; lia|]. split; [simpl; lia|]. split; [|split].
    + unfold layout_ok, ta_length. cbn [data nRows nCols cells]. rewrite Hlen. lia.
    + reflexivity.
    + unfold ta_ok. cbn [data cells ctor].
      apply Forall_concat, Forall_fmap, Forall_forall.
      intros i Hi. specialize (Hkept i Hi). cbv [compose].
      rewrite <- (Z2Nat.id i) by lia. rewrite (row_nat m R C) by (try assumption; lia).
      cbn [cells]. rewrite Hty. apply Forall_take, Forall_drop, Hok.
  - simpl. congruence.
  - reflexivity.
  - rewrite (rows_nat _ (length kept) C); cbn [data nRows nCols ctor cells];
      [|reflexivity|reflexivity|exact Hlen].
    apply list_eq_same_length with (length kept);
      [rewrite length_fmap; reflexivity|rewrite length_fmap, length_seq; reflexivity|].
    intros i x y Hi Hx Hy.
    rewrite list_lookup_fmap, lookup_seq_lt in Hx by exact Hi.
    cbn [fmap option_fmap option_map Nat.add] in Hx.
    destruct (lookup_lt_is_Some_2 kept i Hi) as [q Hq].
    rewrite list_lookup_fmap, Hq in Hy. cbn [fmap option_fmap option_map] in Hy.
    rewrite (chunk_of_concat _ C i (cells (row m q)) Hchunks) in Hx
      by (rewrite list_lookup_fmap, Hq; reflexivity).
    injection Hx as <-. injection Hy as <-. rewrite Hty. reflexivity.
Qed.

Lemma filter_selects_rows_witness :
  wf sample_i16 /\
  exists res, filter sample_i16 (fun _ i => i =? 1) = Ok res /\ wf res /\
              rows res = [mkTA i16 [CInt 4; CInt 5; CInt 6]].
Proof.
  split; [exact wf_sample_i16|].
  destruct (filter_selects_rows sample_i16 (fun _ i => i =? 1) wf_sample_i16)
    as (res & Hrun & Hwf & _ & _ & Hrows).
  exists res. split; [exact Hrun|]. split; [exact Hwf|]. exact Hrows.
Defined.

Lemma filter_true {A} (l : list A) : List.filter (fun _ => true) l = l.
Proof. induction l as [|x l IH]; simpl; [|rewrite IH]; reflexivity. Qed.

Lemma filter_false {A} (l : list A) : List.filter (fun _ => false) l = [].
Proof. induction l as [|x l IH]; simpl; [reflexivity|exact IH]. Qed.

(** X10. For every matrix of the data model, filter with a predicate that
    accepts every row returns a copy equal to the matrix, and filter with a
    predicate that accepts none returns the matrix of no row and the same
    column count and kind. *)
Theorem filter_all_or_none (m : Matrix) :
  wf m ->
  filter m (fun _ _ => true) = Ok m /\
  filter m (fun _ _ => false) = Ok (mkMatrix (dType m) 0 (nCols m) (mkTA (dType m) [])).
Proof.
  intros Hwf. destruct (wf_shape m Hwf) as (R & C & HR & HC & HL).
  pose proof Hwf as (_ & _ & _ & Hty & _).
  split.
  - destruct (filter_spec m R C (fun _ _ => true) HR HC HL Hty) as [_ Hrun].
    rewrite Hrun, filter_true, length_seqZ, (rows_concat m R C) by assumption.
    rewrite Z2Nat.id by lia.
    destruct m as [d r c [k cs]]. simpl in *. subst. reflexivity.
  - destruct (filter_spec m R C (fun _ _ => false) HR HC HL Hty) as [_ Hrun].
    rewrite Hrun, filter_false, HC. reflexivity.
Qed.

Lemma filter_all_or_none_witness :
  wf sample_i64 /\
  filter sample_i64 (fun _ _ => true) = Ok sample_i64 /\
  filter sample_i64 (fun _ _ => false) = Ok (mkMatrix i64 0 2 (mkTA i64 [])).
Proof.
  split; [exact wf_sample_i64|]. apply (filter_all_or_none sample_i64 wf_sample_i64).
Defined.

(** ** slice *)

Lemma take_drop_take {A} (l : list A) (a b n : nat) :
  (a + b <= n)%nat -> take b (drop a (take n l)) = take b (drop a l).
Proof.
  intros Hab. apply list_eq. intros j. destruct (decide (j < b)%nat) as [Hj|Hj].
  - rewrite !lookup_take_drop by exact Hj. apply lookup_take_lt. lia.
  - rewrite !lookup_take_ge by lia. reflexivity.
Qed.

Lemma ta_slice_to_end a (b : nat) e :
  (b <= length (cells a))%nat -> ta_length a <= e ->
  ta_slice a (Z.of_nat b) (Some e) = mkTA (ctor a) (drop b (cells a)).
Proof.
  intros Hb He. unfold ta_slice, clamp_index, ta_length in *.
  destruct (Z.ltb_spec (Z.of_nat b) 0); [lia|].
  destruct (Z.ltb_spec e 0); [lia|].
  rewrite (Z.min_l (Z.of_nat b)) by lia. rewrite Z.min_r by lia.
  rewrite Nat2Z.id. f_equal. apply take_ge. rewrite length_drop. lia.
Qed.

(** [slice(s, e)] with [0 <= s <= e <= nRows] and [e] not zero. *)
Lemma slice_nat m (R C s e : nat) :
  nRows m = Z.of_nat R -> nCols m = Z.of_nat C ->
  length (cells (data m)) = (R * C)%nat ->
  (s <= e <= R)%nat -> (0 < e)%nat ->
  slice m (Z.of_nat s) (Some (Z.of_nat e))
  = Ok (mkMatrix (ctor (data m)) (Z.of_nat e - Z.of_nat s) (Z.of_nat C)
          (mkTA (ctor (data m)) (take ((e - s) * C) (drop (s * C) (cells (data m)))))).
Proof.
  intros HR HC HL Hse He. unfold slice, truthy. cbn [from_option id].
  destruct (Z.eqb_spec (Z.of_nat e) 0) as [|_]; [lia|]. cbn [negb].
  assert (Hb : (if negb (Z.of_nat s =? 0) then Z.of_nat s * nCols m else 0)
               = Z.of_nat (s * C)).
  { destruct (Z.eqb_spec (Z.of_nat s) 0); simpl; rewrite ?HC; nia. }
  rewrite Hb, HC.
  replace (Z.of_nat e * Z.of_nat C) with (Z.of_nat (e * C)) by lia.
  rewrite ta_slice_range by (rewrite HL; nia).
  unfold Matrix_new, with_shape, getDataType. cbn [shape ctor].
  do 4 f_equal. nia.
Qed.

(** X11. For every matrix of the data model and every range of rows
    0 <= s <= e <= nRows with e not zero, slice(s, e) returns a new matrix
    of the data model of shape [e - s, nCols] and of the same kind whose row
    i is row s + i of the matrix. *)
Theorem slice_range (m : Matrix) (s e : Z) :
  wf m -> 0 <= s <= e -> 0 < e <= nRows m ->
  exists res,
    slice m s (Some e) = Ok res /\ wf res /\
    nRows res = e - s /\ nCols res = nCols m /\ dType res = dType m /\
    (forall i, 0 <= i < e - s -> row res i = row m (s + i)) /\
    (forall i j, 0 <= i < e - s -> 0 <= j < nCols m ->
                 item res i j = item m (s + i) j).
Proof.
  intros Hwf Hs He. destruct (wf_shape m Hwf) as (R & C & HR & HC & HL).
  pose proof Hwf as (_ & _ & _ & Hty & Hok).
  pose proof (slice_nat m R C (Z.to_nat s) (Z.to_nat e) HR HC HL ltac:(lia) ltac:(lia))
    as Hrun.
  rewrite !Z2Nat.id in Hrun by lia.
  set (cs' := take ((Z.to_nat e - Z.to_nat s) * C)
                (drop (Z.to_nat s * C) (cells (data m)))) in *.
  assert (HL' : length cs' = (Z.to_nat (e - s) * C)%nat).
  { unfold cs'. rewrite length_take, length_drop, HL. nia. }
  set (res := mkMatrix (ctor (data m)) (e - s) (Z.of_nat C) (mkTA (ctor (data m)) cs')) in *.
  assert (Hrow : forall i, 0 <= i < e - s -> row res i = row m (s + i)).
  { intros i Hi. rewrite <- (Z2Nat.id i) by lia.
    rewrite (row_nat res (Z.to_nat (e - s)) C) by (try reflexivity; try exact HL'; lia).
    replace (s + Z.of_nat (Z.to_nat i)) with (Z.of_nat (Z.to_nat s + Z.to_nat i)) by lia.
    rewrite (row_nat m R C) by (try assumption; lia).
    unfold res. cbn [data ctor cells]. f_equal. unfold cs'.
    rewrite take_drop_take by nia. rewrite drop_drop. f_equal. f_equal. lia. }
  exists res. split; [exact Hrun|]. split; [|split; [|split; [|split; [|split]]]].
  - split; [simpl; lia|]. split; [simpl; lia|]. split; [|split].
    + unfold layout_ok, ta_length. simpl. rewrite HL'. nia.
    + reflexivity.
    + unfold ta_ok. simpl. apply Forall_take, Forall_drop, Hok.
  - reflexivity.
  - simpl. congruence.
  - simpl. congruence.
  - exact Hrow.
  - intros i j Hi Hj.
    assert (HjC : (Z.to_nat j < C)%nat) by lia.
    rewrite <- (Z2Nat.id i), <- (Z2Nat.id j) by lia.
    rewrite (item_nat res (Z.to_nat (e - s)) C) by (try reflexivity; try exact HL'; lia).
    replace (s + Z.of_nat (Z.to_nat i)) with (Z.of_nat (Z.to_nat s + Z.to_nat i)) by lia.
    rewrite (item_nat m R C) by (try assumption; lia).
    unfold res. cbn [data ctor cells]. f_equal.
    apply list_lookup_total_correct. unfold cs'.
    rewrite lookup_take_lt by nia. rewrite lookup_drop.
    replace (Z.to_nat s * C + (Z.to_nat i * C + Z.to_nat j))%nat
      with ((Z.to_nat s + Z.to_nat i) * C + Z.to_nat j)%nat by lia.
    apply lookup_total_in. rewrite HL. apply index_lt; lia.
Qed.

Lemma slice_range_witness :
  wf sample_i16 /\ 0 <= 1 <= 2 /\ 0 < 2 <= nRows sample_i16 /\
  exists res, slice sample_i16 1 (Some 2) = Ok res /\
              nRows res = 1 /\ row res 0 = row sample_i16 1.
Proof.
  assert (Hs : 0 <= 1 <= 2) by lia.
  assert (He : 0 < 2 <= nRows sample_i16) by (simpl; lia).
  split; [exact wf_sample_i16|]. split; [exact Hs|]. split; [exact He|].
  destruct (slice_range sample_i16 1 2 wf_sample_i16 Hs He)
    as (res & Hrun & _ & Hn & _ & _ & Hrow & _).
  exists res. split; [exact Hrun|]. split; [exact Hn|]. apply (Hrow 0). lia.
Defined.

(** X12. Slices compose: for every matrix of the data model, a slice of rows
    c to d of the slice of rows a to b is the slice of rows a + c to a + d,
    whenever 0 <= a <= b <= nRows, 0 <= c <= d <= b - a and neither end is
    zero. *)
Theorem slice_of_slice (m : Matrix) (a b c d : Z) :
  wf m -> 0 <= a <= b -> 0 < b <= nRows m -> 0 <= c <= d -> 0 < d <= b - a ->
  exists inner,
    slice m a (Some b) = Ok inner /\
    slice inner c (Some d) = slice m (a + c) (Some (a + d)).
Proof.
  intros Hwf Ha Hb Hc Hd. destruct (wf_shape m Hwf) as (R & C & HR & HC & HL).
  pose proof (slice_nat m R C (Z.to_nat a) (Z.to_nat b) HR HC HL ltac:(lia) ltac:(lia))
    as Hinner.
  rewrite !Z2Nat.id in Hinner by lia.
  eexists. split; [exact Hinner|].
  set (cs' := take ((Z.to_nat b - Z.to_nat a) * C)
                (drop (Z.to_nat a * C) (cells (data m)))).
  assert (HL' : length cs' = (Z.to_nat (b - a) * C)%nat).
  { unfold cs'. rewrite length_take, length_drop, HL. nia. }
  rewrite <- (Z2Nat.id c), <- (Z2Nat.id d) by lia.
  rewrite (slice_nat _ (Z.to_nat (b - a)) C (Z.to_nat c) (Z.to_nat d));
    cbn [data nRows nCols ctor cells]; [|lia|reflexivity|exact HL'|lia|lia].
  replace (a + Z.of_nat (Z.to_nat c)) with (Z.of_nat (Z.to_nat a + Z.to_nat c)) by lia.
  replace (a + Z.of_nat (Z.to_nat d)) with (Z.of_nat (Z.to_nat a + Z.to_nat d)) by lia.
  rewrite (slice_nat m R C) by (try assumption; lia).
  f_equal. f_equal; [lia|]. f_equal. fold cs'. unfold cs'.
  rewrite take_drop_take by nia. rewrite drop_drop.
  f_equal; [nia|]. f_equal. nia.
Qed.

Lemma slice_of_slice_witness :
  wf sample_i16 /\
  exists inner, slice sample_i16 0 (Some 2) = Ok inner /\
                slice inner 1 (Some 2) = slice sample_i16 1 (Some 2).
Proof.
  split; [exact wf_sample_i16|].
  apply (slice_of_slice sample_i16 0 2 1 2 wf_sample_i16); simpl; lia.
Defined.

(** X13. slice does not compare its bounds with the row count. For a matrix
    of the data model with at least one column: an end beyond nRows gives a
    matrix whose shape announces e - s rows over a buffer that holds only
    the nRows - s rows there are, and a negative start from -nRows on gives
    a matrix whose shape announces nRows - s rows over a buffer that holds
    the last -s rows; neither satisfies buffer.length = nRows * nCols. *)
Theorem slice_unchecked_bounds (m : Matrix) :
  wf m -> 0 < nCols m ->
  (forall s e, 0 <= s <= nRows m -> nRows m < e ->
     exists res, slice m s (Some e) = Ok res /\ nRows res = e - s /\
                 nCols res = nCols m /\
                 ta_length (data res) = (nRows m - s) * nCols m /\
                 ~ layout_ok res) /\
  (forall s, - nRows m <= s < 0 ->
     exists res, slice m s None = Ok res /\ nRows res = nRows m - s /\
                 nCols res = nCols m /\
                 ta_length (data res) = - s * nCols m /\
                 ~ layout_ok res).
Proof.
  intros Hwf HC0. destruct (wf_shape m Hwf) as (R & C & HR & HC & HL).
  split.
  - intros s e Hs He. unfold slice, truthy. cbn [from_option id].
    destruct (Z.eqb_spec e 0) as [|_]; [lia|]. cbn [negb].
    assert (Hb : (if negb (s =? 0) then s * nCols m else 0)
                 = Z.of_nat (Z.to_nat s * C)).
    { destruct (Z.eqb_spec s 0); simpl; rewrite ?HC; nia. }
    rewrite Hb, ta_slice_to_end by (unfold ta_length; rewrite ?HL; nia).
    eexists. split; [reflexivity|]. cbn.
    assert (Hlen : ta_length (mkTA (ctor (data m))
                                (drop (Z.to_nat s * C) (cells (data m))))
                   = (nRows m - s) * nCols m).
    { unfold ta_length. simpl. rewrite length_drop, HL. nia. }
    split; [reflexivity|]. split; [reflexivity|]. split; [exact Hlen|].
    unfold layout_ok. simpl. rewrite Hlen. nia.
  - intros s Hs. unfold slice, truthy. cbn [from_option id].
    destruct (Z.eqb_spec s 0) as [|_]; [lia|]. cbn [negb].
    eexists. split; [reflexivity|]. cbn.
    assert (Hlen : ta_length (ta_slice (data m) (s * nCols m) None) = - s * nCols m).
    { unfold ta_slice, clamp_index, ta_length. simpl.
      destruct (Z.ltb_spec (s * nCols m) 0); [|nia].
      rewrite length_take, length_drop, HL. nia. }
    split; [reflexivity|]. split; [reflexivity|]. split; [exact Hlen|].
    unfold layout_ok. simpl. rewrite Hlen. nia.
Qed.

Lemma slice_unchecked_bounds_witness :
  wf sample_i16 /\ 0 < nCols sample_i16 /\
  (exists res, slice sample_i16 1 (Some 5) = Ok res /\ nRows res = 4 /\
               ta_length (data res) = 3) /\
  (exists res, slice sample_i16 (-1) None = Ok res /\ nRows res = 3 /\
               ta_length (data res) = 3).
Proof.
  assert (HC : 0 < nCols sample_i16) by (simpl; lia).
  split; [exact wf_sample_i16|]. split; [exact HC|].
  destruct (slice_unchecked_bounds sample_i16 wf_sample_i16 HC) as [Hend Hneg].
  split.
  - destruct (Hend 1 5) as (res & Hrun & Hn & _ & Hl & _); [simpl; lia|simpl; lia|].
    exists res. split; [exact Hrun|]. split; [exact Hn|exact Hl].
  - destruct (Hneg (-1)) as (res & Hrun & Hn & _ & Hl & _); [simpl; lia|].
    exists res. split; [exact Hrun|]. split; [exact Hn|exact Hl].
Defined.

(** * setAdd and the accesses outside the buffer *)

(** ** setAdd *)

Lemma setAdd_store m (i : nat) r c val old cell :
  r * nCols m + c = Z.of_nat i -> cells (data m) !! i = Some old ->
  (v ← js_add (load (ctor (data m)) old) val; store (ctor (data m)) v) = Ok cell ->
  setAdd m r c val
  = (Ok tt, with_data m (mkTA (ctor (data m)) (<[i := cell]> (cells (data m))))).
Proof.
  intros Hidx Hold Hadd. unfold setAdd. rewrite Hidx, (ta_get_nat _ _ _ Hold).
  destruct (js_add (load (ctor (data m)) old) val) as [v|e]; [|discriminate Hadd].
  cbn [mbind Result_bind] in *. rewrite (ta_put_nat _ _ _ _ Hadd). reflexivity.
Qed.

(** An integer added to an integer cell: the sum is reduced into the kind. *)
Lemma add_count_store k a z :
  is_float k = false -> int_range k a -> is_wide k = true \/ Z.abs z < 2 ^ 52 ->
  (v ← js_add (load k (CInt a)) (count_in_domain k z); store k v)
  = Ok (CInt (wrap_kind k (a + z))).
Proof.
  intros Hf Ha Hz. unfold load, store, count_in_domain, js_add, js_arith.
  destruct (is_wide k) eqn:Hw; simpl; rewrite ?Hw.
  - reflexivity.
  - destruct Hz as [Hz|Hz]; [discriminate Hz|].
    pose proof (int_range_number k a Hf Hw Ha).
    rewrite add_ofZ, truncZ_ofZ by lia.
    destruct k; try discriminate; reflexivity.
Qed.

Lemma cell_at_insert m r c cell :
  layout_ok m -> 0 <= r < nRows m -> 0 <= c < nCols m ->
  let m' := with_data m (mkTA (ctor (data m))
                           (<[Z.to_nat (r * nCols m + c) := cell]> (cells (data m)))) in
  cell_at m' r c = Some cell /\ differs_only_at m m' r c.
Proof.
  intros HL Hr Hc m'. unfold layout_ok, ta_length in HL.
  unfold differs_only_at, cell_at, m'. cbn [with_data nCols nRows data cells].
  split; [|split; [reflexivity|]].
  - destruct (Z.ltb_spec (r * nCols m + c) 0); [nia|].
    apply list_lookup_insert_eq. nia.
  - intros r' c' Hr' Hc' Hne.
    destruct (Z.ltb_spec (r' * nCols m + c') 0); [nia|].
    apply list_lookup_insert_ne. intros Heq.
    assert (0 <= r * nCols m + c) by nia.
    assert (Hidx : r * nCols m + c = r' * nCols m + c') by lia.
    apply Hne. assert (r' = r) by nia. subst r'. f_equal. lia.
Qed.

Lemma cell_in_range m r c :
  wf m -> 0 <= r < nRows m -> 0 <= c < nCols m ->
  exists old, cells (data m) !! Z.to_nat (r * nCols m + c) = Some old /\
              cell_at m r c = Some old /\ cell_ok (ctor (data m)) old.
Proof.
  intros (_ & _ & HL & _ & Hok) Hr Hc. unfold layout_ok, ta_length in HL.
  assert (Hin : (Z.to_nat (r * nCols m + c) < length (cells (data m)))%nat) by nia.
  destruct (lookup_lt_is_Some_2 _ _ Hin) as [old Hold]. exists old.
  split; [exact Hold|]. split.
  - unfold cell_at. destruct (Z.ltb_spec (r * nCols m + c) 0); [nia|exact Hold].
  - eapply (Forall_lookup_1 _ _ _ _ Hok Hold).
Qed.

(** X14. For every matrix of the data model and every position within
    bounds, setAdd(r, c, val) returns and changes element (r, c) only. In an
    integer matrix an integer z (a bigint for u64 and i64, a number of
    magnitude below 2^52 for the others) leaves the old element plus z
    reduced into the kind; in a float matrix a number leaves the binary64
    sum (rounded to binary32 for f32). A value of the other type, a number
    for a bigint matrix or a bigint for a matrix of numbers, is a TypeError
    and leaves the matrix as it was. *)
Theorem setAdd_adds (m : Matrix) (r c : Z) :
  wf m -> 0 <= r < nRows m -> 0 <= c < nCols m ->
  exists old,
    cell_at m r c = Some old /\
    (forall z,
       is_float (ctor (data m)) = false ->
       is_wide (ctor (data m)) = true \/ Z.abs z < 2 ^ 52 ->
       exists m', setAdd m r c (count_in_domain (ctor (data m)) z) = (Ok tt, m') /\
                  cell_at m' r c
                  = Some (CInt (wrap_kind (ctor (data m)) (int_of old + z))) /\
                  differs_only_at m m' r c) /\
    (forall x,
       is_float (ctor (data m)) = true ->
       exists m', setAdd m r c (JNumber x) = (Ok tt, m') /\
                  cell_at m' r c = Some (cell_add (ctor (data m)) old (CFloat x)) /\
                  differs_only_at m m' r c) /\
    (forall val,
       typeof_bigint val <> is_wide (ctor (data m)) ->
       setAdd m r c val = (Throw TypeError, m)).
Proof.
  intros Hwf Hr Hc. destruct (cell_in_range m r c Hwf Hr Hc) as (old & Hold & Hat & Hok).
  pose proof Hwf as (_ & _ & HL & _ & _).
  assert (Hidx : r * nCols m + c = Z.of_nat (Z.to_nat (r * nCols m + c)))
    by (unfold layout_ok in HL; nia).
  set (k := ctor (data m)) in *.
  exists old. split; [exact Hat|]. split; [|split].
  - intros z Hf Hz. destruct old as [a|y]; [|destruct k; try discriminate Hf; contradiction].
    destruct Hok as [_ Ha].
    eexists. split.
    + eapply setAdd_store; [exact Hidx|exact Hold|].
      apply add_count_store; assumption.
    + apply cell_at_insert; assumption.
  - intros x Hf. eexists. split.
    + eapply setAdd_store; [exact Hidx|exact Hold|].
      apply (cell_add_step k old (CFloat x)); [apply cell_ok_summable, Hok|exact Hf].
    + apply cell_at_insert; assumption.
  - intros val Hty. unfold setAdd. rewrite Hidx, (ta_get_nat _ _ _ Hold).
    pose proof (summable_wide k old (cell_ok_summable _ _ Hok)) as Hw. fold k.
    destruct (load k old) as [y|a|], val as [x|z|]; simpl in *;
      try reflexivity; rewrite <- Hw in Hty; contradiction.
Qed.

Lemma setAdd_adds_witness :
  wf sample_u8 /\ 0 <= 0 < nRows sample_u8 /\ 0 <= 1 < nCols sample_u8 /\
  (exists m', setAdd sample_u8 0 1 (num 200) = (Ok tt, m') /\
              cell_at m' 0 1 = Some (CInt 44)) /\
  setAdd sample_u8 0 1 (JBigInt 200) = (Throw TypeError, sample_u8).
Proof.
  assert (Hr : 0 <= 0 < nRows sample_u8) by (simpl; lia).
  assert (Hc : 0 <= 1 < nCols sample_u8) by (simpl; lia).
  split; [exact wf_sample_u8|]. split; [exact Hr|]. split; [exact Hc|].
  destruct (setAdd_adds sample_u8 0 1 wf_sample_u8 Hr Hc) as (old & Hold & Hint & _ & Hmix).
  split.
  - destruct (Hint 200 eq_refl) as (m' & Hrun & Hcell & _); [right; simpl; lia|].
    exists m'. split; [exact Hrun|]. rewrite Hcell.
    vm_compute in Hold. injection Hold as <-. reflexivity.
  - apply Hmix. simpl. discriminate.
Defined.

(** X15. In an integer matrix of the data model setAdd is undone by the
    opposite setAdd: after setAdd(r, c, z) and setAdd(r, c, -z) at a
    position within bounds the matrix is what it was, also when the first
    sum wrapped around. *)
Theorem setAdd_undo (m : Matrix) (r c z : Z) :
  wf m -> 0 <= r < nRows m -> 0 <= c < nCols m ->
  is_float (ctor (data m)) = false ->
  is_wide (ctor (data m)) = true \/ Z.abs z < 2 ^ 52 ->
  exists m', setAdd m r c (count_in_domain (ctor (data m)) z) = (Ok tt, m') /\
             setAdd m' r c (count_in_domain (ctor (data m)) (- z)) = (Ok tt, m).
Proof.
  intros Hwf Hr Hc Hf Hz.
  destruct (cell_in_range m r c Hwf Hr Hc) as (old & Hold & _ & Hok).
  pose proof Hwf as (_ & _ & HL & _ & _).
  assert (Hidx : r * nCols m + c = Z.of_nat (Z.to_nat (r * nCols m + c)))
    by (unfold layout_ok in HL; nia).
  set (k := ctor (data m)) in *. set (i := Z.to_nat (r * nCols m + c)) in *.
  destruct old as [a|y]; [|destruct k; try discriminate Hf; contradiction].
  destruct Hok as [_ Ha].
  eexists. split.
  - eapply setAdd_store; [exact Hidx|exact Hold|].
    apply add_count_store; assumption.
  - set (m' := with_data m (mkTA k (<[i := CInt (wrap_kind k (a + z))]> (cells (data m))))).
    assert (Hin : (i < length (cells (data m)))%nat) by (eapply lookup_lt_Some, Hold).
    rewrite (setAdd_store m' i r c _ (CInt (wrap_kind k (a + z)))
               (CInt (wrap_kind k (wrap_kind k (a + z) + - z)))).
    + f_equal. unfold m', with_data. cbn [dType nRows nCols data ctor cells].
      rewrite list_insert_insert_eq, wrap_add_l.
      replace (a + z + - z) with a by lia. rewrite (wrap_id k a Ha).
      rewrite (list_insert_id _ _ _ Hold).
      destruct m as [d nr nc [kd cs]]. reflexivity.
    + exact Hidx.
    + unfold m'. cbn [with_data data cells]. apply list_lookup_insert_eq, Hin.
    + unfold m'. cbn [with_data data ctor]. apply add_count_store.
      * exact Hf.
      * apply wrap_range, Hf.
      * destruct Hz as [Hz|Hz]; [left; exact Hz|right; lia].
Qed.

Lemma setAdd_undo_witness :
  wf sample_u8 /\
  exists m', setAdd sample_u8 0 0 (num 100) = (Ok tt, m') /\
             cell_at m' 0 0 = Some (CInt 44) /\
             setAdd m' 0 0 (num (-100)) = (Ok tt, sample_u8).
Proof.
  split; [exact wf_sample_u8|].
  destruct (setAdd_undo sample_u8 0 0 100 wf_sample_u8) as (m' & Hrun & Hback);
    [simpl; lia|simpl; lia|reflexivity|right; simpl; lia|].
  exists m'. split; [exact Hrun|]. split; [|exact Hback].
  vm_compute in Hrun. injection Hrun as <-. reflexivity.
Defined.

(** ** Outside the buffer *)

Lemma ta_get_outside a i : i < 0 \/ ta_length a <= i -> ta_get a i = JUndefined.
Proof.
  intros Hi. unfold ta_get, ta_length in *.
  destruct (Z.ltb_spec i 0); [reflexivity|].
  rewrite lookup_ge_None_2 by lia. reflexivity.
Qed.

Lemma ta_put_outside a i v cell :
  i < 0 \/ ta_length a <= i -> store (ctor a) v = Ok cell -> ta_put a i v = Ok a.
Proof.
  intros Hi Hs. unfold ta_put, ta_length in *. rewrite Hs. cbn [mbind Result_bind].
  destruct (Z.ltb_spec i 0); [reflexivity|].
  rewrite list_insert_ge by lia. destruct a. reflexivity.
Qed.

(** X16. The accessors do not check their indices against the shape: what
    counts is the flat offset r * nCols + c. For a matrix of the data model
    and a position whose offset lies outside the buffer, item gives
    undefined, setCell with a value the kind can store returns and writes
    nothing, and setAdd returns and writes nothing on a matrix of numbers
    but throws a TypeError on a bigint matrix, whatever the value. *)
Theorem outside_buffer_untouched (m : Matrix) (r c : Z) :
  wf m -> r * nCols m + c < 0 \/ nRows m * nCols m <= r * nCols m + c ->
  item m r c = JUndefined /\
  (forall v cell, store (ctor (data m)) v = Ok cell -> setCell m r c v = (Ok tt, m)) /\
  (forall v, is_wide (ctor (data m)) = false -> typeof_bigint v = false ->
             setAdd m r c v = (Ok tt, m)) /\
  (forall v, is_wide (ctor (data m)) = true -> setAdd m r c v = (Throw TypeError, m)).
Proof.
  intros (_ & _ & HL & _ & _) Hout. unfold layout_ok in HL.
  assert (Hout' : r * nCols m + c < 0 \/ ta_length (data m) <= r * nCols m + c)
    by (rewrite HL; exact Hout).
  assert (Hget : ta_get (data m) (r * nCols m + c) = JUndefined)
    by (apply ta_get_outside, Hout').
  split; [exact Hget|]. split; [|split].
  - intros v cell Hs. unfold setCell. rewrite (ta_put_outside _ _ _ _ Hout' Hs).
    rewrite with_data_same. reflexivity.
  - intros v Hw Hv. unfold setAdd. rewrite Hget.
    assert (Hadd : exists x, js_add JUndefined v = Ok (JNumber x)).
    { destruct v as [x|z|]; [eexists; reflexivity|discriminate Hv|eexists; reflexivity]. }
    destruct Hadd as [x ->]. cbn [mbind Result_bind].
    assert (Hs : exists cell, store (ctor (data m)) (JNumber x) = Ok cell)
      by (unfold store; rewrite Hw; eexists; reflexivity).
    destruct Hs as [cell Hs]. rewrite (ta_put_outside _ _ _ _ Hout' Hs).
    rewrite with_data_same. reflexivity.
  - intros v Hw. unfold setAdd. rewrite Hget.
    destruct v as [x|z|]; cbn; unfold ta_put, store; rewrite ?Hw; reflexivity.
Qed.

Lemma outside_buffer_untouched_witness :
  (wf sample_i16 /\ item sample_i16 2 0 = JUndefined /\
   setCell sample_i16 2 0 (num 9) = (Ok tt, sample_i16) /\
   setAdd sample_i16 0 (-1) (num 9) = (Ok tt, sample_i16)) /\
  (wf sample_i64 /\ setAdd sample_i64 2 0 (JBigInt 9) = (Throw TypeError, sample_i64)).
Proof.
  split.
  - destruct (outside_buffer_untouched sample_i16 2 0 wf_sample_i16) as (Hi & Hs & _);
      [right; simpl; lia|].
    destruct (outside_buffer_untouched sample_i16 0 (-1) wf_sample_i16) as (_ & _ & Ha & _);
      [left; simpl; lia|].
    split; [exact wf_sample_i16|]. split; [exact Hi|]. split.
    + apply (Hs (num 9) (CInt 9)). reflexivity.
    + apply Ha; reflexivity.
  - destruct (outside_buffer_untouched sample_i64 2 0 wf_sample_i64) as (_ & _ & _ & Ht);
      [right; simpl; lia|].
    split; [exact wf_sample_i64|]. apply Ht. reflexivity.
Defined.

(** * Reductions, dot, the constructor and the older pipeline *)

(** ** The reductions of the transpose *)

Lemma lookup_total_eq (l1 l2 : list Cell) (i j : nat) :
  l1 !! i = l2 !! j -> l1 !!! i = l2 !!! j.
Proof. intros H. rewrite !list_lookup_total_alt, H. reflexivity. Qed.

Lemma mean_divisor_same m m' n :
  typeof_bigint (ta_get (data m') 0) = typeof_bigint (ta_get (data m) 0) ->
  mean_divisor m' n = mean_divisor m n.
Proof. intros H. unfold mean_divisor. rewrite H. reflexivity. Qed.

(** X17. For every matrix of the data model the reductions of the transpose
    are the other reductions of the matrix: rowSum of T is colSum, colSum of
    T is rowSum, rowMean of T is colMean and colMean of T is rowMean, as
    results or as throws, float rounding and integer wrap-around included. *)
Theorem reductions_of_transpose (m : Matrix) :
  wf m ->
  exists m', T m = Ok m' /\
             rowSum m' = colSum m /\ colSum m' = rowSum m /\
             rowMean m' = colMean m /\ colMean m' = rowMean m.
Proof.
  intros Hwf. destruct (wf_shape m Hwf) as (R & C & HR & HC & HL).
  pose proof Hwf as (_ & _ & _ & _ & Hok).
  pose proof (wf_summable m Hwf) as Hsum.
  destruct (T_spec m R C HR HC HL Hok) as (a & HT & Hk & Hlen & Ha).
  set (k := ctor (data m)) in *. set (cs := cells (data m)) in *.
  set (m' := mkMatrix k (Z.of_nat C) (Z.of_nat R) a) in *.
  assert (Hsum' : Forall (summable (ctor (data m'))) (cells (data m'))).
  { cbn [m' data]. rewrite Hk. apply Forall_lookup_2. intros p x Hp.
    assert (Hlt : (p < C * R)%nat) by (rewrite <- Hlen; eapply lookup_lt_Some, Hp).
    destruct (index_split C R p Hlt) as (c & r & Hc & Hr & ->).
    rewrite Ha in Hp by assumption.
    eapply (Forall_lookup_1 _ _ _ _ Hsum Hp). }
  assert (Hcell : forall r c, (r < R)%nat -> (c < C)%nat ->
                              cells a !!! (c * R + r)%nat = cs !!! (r * C + c)%nat).
  { intros r c Hr Hc. apply lookup_total_eq, Ha; assumption. }
  assert (Hrow : rowSum m' = colSum m).
  { rewrite (rowSum_spec m' C R eq_refl eq_refl Hlen Hsum').
    rewrite (colSum_spec m R C HR HC HL Hsum). cbn [m' data]. rewrite Hk.
    do 2 f_equal. apply list_fmap_ext. intros i r Hr.
    apply lookup_seq in Hr as [-> Hr]. cbn [Nat.add]. f_equal.
    unfold column_cells, row_cells. apply list_fmap_ext. intros j c Hc.
    apply lookup_seq in Hc as [-> Hc]. cbn [Nat.add]. apply Hcell; assumption. }
  assert (Hcol : colSum m' = rowSum m).
  { rewrite (colSum_spec m' C R eq_refl eq_refl Hlen Hsum').
    rewrite (rowSum_spec m R C HR HC HL Hsum). cbn [m' data]. rewrite Hk.
    do 2 f_equal. apply list_fmap_ext. intros i c Hc.
    apply lookup_seq in Hc as [-> Hc]. cbn [Nat.add]. f_equal.
    unfold column_cells, row_cells. apply list_fmap_ext. intros j r Hr.
    apply lookup_seq in Hr as [-> Hr]. cbn [Nat.add]. apply Hcell; assumption. }
  assert (Hfirst : typeof_bigint (ta_get (data m') 0) = typeof_bigint (ta_get (data m) 0)).
  { cbn [m' data]. destruct R as [|R']; [|destruct C as [|C']].
    - rewrite !ta_get_outside; [reflexivity| |]; right; unfold ta_length; fold cs; nia.
    - rewrite !ta_get_outside; [reflexivity| |]; right; unfold ta_length; fold cs; nia.
    - specialize (Ha 0%nat 0%nat ltac:(lia) ltac:(lia)). cbn [Nat.mul Nat.add] in Ha.
      assert (Hin : (0 < length cs)%nat) by nia.
      destruct (lookup_lt_is_Some_2 _ _ Hin) as [x Hx].
      change 0 with (Z.of_nat 0).
      rewrite (ta_get_nat a 0 x) by (rewrite Ha; exact Hx).
      rewrite (ta_get_nat (data m) 0 x Hx). rewrite Hk. reflexivity. }
  exists m'. split; [exact HT|]. split; [exact Hrow|]. split; [exact Hcol|].
  unfold rowMean, colMean. rewrite Hrow, Hcol.
  rewrite !(mean_divisor_same m m' _ Hfirst). cbn [m' nRows nCols].
  rewrite HR, HC. split; reflexivity.
Qed.

Lemma reductions_of_transpose_witness :
  wf sample_u8 /\
  exists m', T sample_u8 = Ok m' /\
             rowSum m' = Ok (mkTA u8 [CInt 44]) /\ colSum sample_u8 = Ok (mkTA u8 [CInt 44]).
Proof.
  split; [exact wf_sample_u8|].
  destruct (reductions_of_transpose sample_u8 wf_sample_u8) as (m' & HT & Hr & _).
  exists m'. split; [exact HT|]. rewrite Hr. split; reflexivity.
Defined.

(** ** dot is symmetric *)

Lemma mul_comm (x y : Number) : Num.mul x y = Num.mul y x.
Proof.
  unfold Num.mul, SFmul.
  destruct x as [sx|sx| |sx mx ex], y as [sy|sy| |sy my ey];
    rewrite ?(xorb_comm sx sy); try reflexivity.
  rewrite (Pos.mul_comm mx my), (Z.add_comm ex ey). reflexivity.
Qed.

Lemma js_mul_comm (a b : JsValue) : js_mul a b = js_mul b a.
Proof.
  unfold js_mul, js_arith.
  destruct a as [x|p|], b as [y|q|]; cbn [mbind Result_bind]; try reflexivity;
    do 2 f_equal; first [apply mul_comm|apply Z.mul_comm].
Qed.

Lemma seqZ_head (n : nat) : seqZ 0 (Z.of_nat (S n)) = 0 :: seqZ 1 (Z.of_nat n).
Proof. rewrite seqZ_cons by lia. f_equal. f_equal. lia. Qed.

(** The loops of [dot] on two first elements of different types. *)
Lemma dot_loop_mixed (a b : Matrix) (R C : nat) (res0 : JsValue) :
  (0 < R)%nat -> (0 < C)%nat ->
  js_mul (ta_get (data a) 0) (ta_get (data b) 0) = Throw TypeError ->
  foldM (fun res j =>
           foldM (fun res i =>
                    adder ← js_mul (item a i j) (item b i j);
                    js_add res adder)
             (seqZ 0 (Z.of_nat R)) res)
    (seqZ 0 (Z.of_nat C)) res0 = Throw TypeError.
Proof.
  intros HR HC Hmul. destruct R as [|R']; [lia|]. destruct C as [|C']; [lia|].
  rewrite (seqZ_head C'). cbn [foldM]. rewrite (seqZ_head R'). cbn [foldM].
  unfold item. rewrite !Z.mul_0_l, !Z.add_0_l, Hmul. reflexivity.
Qed.

Lemma first_is_bigint a :
  typeof_bigint (ta_get a 0) = true -> (0 < length (cells a))%nat.
Proof.
  unfold ta_get. cbn. destruct (cells a) as [|c l]; [discriminate|]. simpl. lia.
Qed.

(** X18. dot is symmetric: for any two matrices of the data model, of any
    kinds and shapes, a.dot(b) and b.dot(a) are the same value or the same
    throw. *)
Theorem dot_commutes (a b : Matrix) : wf a -> wf b -> dot a b = dot b a.
Proof.
  intros Hwa Hwb.
  destruct (wf_shape a Hwa) as (R & C & HR & HC & HL).
  destruct (wf_shape b Hwb) as (R' & C' & HR' & HC' & HL').
  unfold dot. rewrite (Z.eqb_sym (nRows b)), (Z.eqb_sym (nCols b)).
  destruct (Z.eqb_spec (nRows a) (nRows b)) as [HeR|]; [|reflexivity]. cbn [negb].
  destruct (Z.eqb_spec (nCols a) (nCols b)) as [HeC|]; [|reflexivity]. cbn [negb].
  assert (R' = R) by lia. assert (C' = C) by lia. subst R' C'.
  rewrite HR', HC', HR, HC.
  assert (Hbody : forall res0,
            foldM (fun res j =>
                     foldM (fun res i =>
                              adder ← js_mul (item a i j) (item b i j);
                              js_add res adder)
                       (seqZ 0 (Z.of_nat R)) res)
              (seqZ 0 (Z.of_nat C)) res0
            = foldM (fun res j =>
                       foldM (fun res i =>
                                adder ← js_mul (item b i j) (item a i j);
                                js_add res adder)
                         (seqZ 0 (Z.of_nat R)) res)
                (seqZ 0 (Z.of_nat C)) res0).
  { intros res0. apply foldM_ext. intros res j. apply foldM_ext. intros res' i.
    rewrite js_mul_comm. reflexivity. }
  destruct (typeof_bigint (ta_get (data a) 0)) eqn:Ha,
           (typeof_bigint (ta_get (data b) 0)) eqn:Hb; try apply Hbody.
  - (* the first element of [a] is a bigint, that of [b] is not *)
    pose proof (first_is_bigint _ Ha) as Hne. rewrite HL in Hne.
    assert (Hmul : js_mul (ta_get (data a) 0) (ta_get (data b) 0) = Throw TypeError).
    { destruct (ta_get (data a) 0); try discriminate Ha.
      destruct (ta_get (data b) 0); try discriminate Hb; reflexivity. }
    rewrite <- Hbody.
    rewrite !(dot_loop_mixed a b R C) by (try exact Hmul; nia). reflexivity.
  - pose proof (first_is_bigint _ Hb) as Hne. rewrite HL' in Hne.
    assert (Hmul : js_mul (ta_get (data a) 0) (ta_get (data b) 0) = Throw TypeError).
    { destruct (ta_get (data b) 0); try discriminate Hb.
      destruct (ta_get (data a) 0); try discriminate Ha; reflexivity. }
    rewrite <- Hbody.
    rewrite !(dot_loop_mixed a b R C) by (try exact Hmul; nia). reflexivity.
Qed.

Lemma dot_commutes_witness :
  wf sample_i64 /\ wf single_u64 /\ wf sample_u8 /\
  dot sample_i64 sample_i64 = Ok (JBigInt 150) /\
  dot sample_i64 single_u64 = dot single_u64 sample_i64 /\
  dot sample_u8 sample_i64 = dot sample_i64 sample_u8.
Proof.
  split; [exact wf_sample_i64|]. split; [exact wf_single_u64|].
  split; [exact wf_sample_u8|]. split; [reflexivity|]. split.
  - apply (dot_commutes sample_i64 single_u64 wf_sample_i64 wf_single_u64).
  - apply (dot_commutes sample_u8 sample_i64 wf_sample_u8 wf_sample_i64).
Defined.

(** ** Means over nothing *)

Lemma Forall2_replicate_l {A B} (P : A -> B -> Prop) (x : A) (y : B) (n : nat) (l : list B) :
  Forall2 P (replicate n x) l -> (forall z, P x z -> z = y) -> l = replicate n y.
Proof.
  revert l. induction n as [|n IH]; intros l H Hy; simpl in *.
  - inversion H. reflexivity.
  - inversion H as [|? z ? l' Hz Hl]; subst. f_equal; [apply Hy, Hz|apply IH; assumption].
Qed.

Lemma fmap_const_seq {A} (x : A) (f : nat -> A) (n : nat) :
  (forall i, (i < n)%nat -> f i = x) -> f <$> seq 0 n = replicate n x.
Proof.
  intros H. apply list_eq_same_length with n;
    [apply length_replicate|rewrite length_fmap, length_seq; reflexivity|].
  intros i a b Hi Ha Hb.
  rewrite list_lookup_fmap, lookup_seq_lt in Ha by exact Hi. simpl in Ha.
  rewrite lookup_replicate_2 in Hb by exact Hi. rewrite H in Ha by exact Hi. congruence.
Qed.

(** Dividing a vector of zeros by the number 0. *)
Lemma divide_zeros k (n : nat) (c : Z) :
  c = 0 \/ n = 0%nat ->
  divide_all (mkTA k (replicate n (zero_cell k))) (JNumber (Num.ofZ c))
  = if is_wide k && (0 <? Z.of_nat n) then Throw TypeError
    else Ok (mkTA k (replicate n (undefined_cell k))).
Proof.
  intros Hc. destruct n as [|n].
  - rewrite andb_false_r. reflexivity.
  - destruct Hc as [->|]; [|discriminate].
    destruct (is_wide k) eqn:Hw; cbn [andb].
    + destruct (Z.ltb_spec 0 (Z.of_nat (S n))); [|lia].
      unfold divide_all, ta_length. cbn [cells]. rewrite length_replicate, seqZ_head.
      cbn [foldM]. change 0 with (Z.of_nat 0) at 1.
      rewrite (ta_get_nat _ 0 (zero_cell k)) by reflexivity.
      unfold zero_cell. destruct k; try discriminate Hw; reflexivity.
    + assert (Hdiv : cell_div k (zero_cell k) (JNumber (Num.ofZ 0))
                     = Ok (undefined_cell k))
        by (destruct k; try discriminate Hw; reflexivity).
      destruct (divide_all_spec k (mkTA k (replicate (S n) (zero_cell k)))
                  (JNumber (Num.ofZ 0)) eq_refl) as (mean & Hrun & Hk & Hall).
      { intros x Hx. apply elem_of_replicate in Hx as [-> _]. eexists. exact Hdiv. }
      rewrite Hrun. f_equal. destruct mean as [km cm]. cbn [ctor cells] in *.
      subst km. f_equal.
      apply (Forall2_replicate_l _ _ _ _ _ Hall).
      intros z Hz. rewrite Hdiv in Hz. congruence.
Qed.

(** X19. The means of a matrix of the data model without elements. colMean
    gives nRows entries and rowMean nCols entries, each the quotient of the
    zero sum by the number 0: NaN in a float matrix, 0 in an integer matrix
    of numbers; on a bigint matrix the division of a bigint by the number 0
    is a TypeError as soon as there is an entry to divide. *)
Theorem mean_of_no_elements (m : Matrix) :
  wf m -> cells (data m) = [] ->
  colMean m
  = (if is_wide (ctor (data m)) && (0 <? nRows m) then Throw TypeError
     else Ok (mkTA (ctor (data m))
                (replicate (Z.to_nat (nRows m)) (undefined_cell (ctor (data m)))))) /\
  rowMean m
  = (if is_wide (ctor (data m)) && (0 <? nCols m) then Throw TypeError
     else Ok (mkTA (ctor (data m))
                (replicate (Z.to_nat (nCols m)) (undefined_cell (ctor (data m)))))).
Proof.
  intros Hwf Hempty. destruct (wf_shape m Hwf) as (R & C & HR & HC & HL).
  pose proof (wf_summable m Hwf) as Hsum.
  rewrite Hempty in HL. cbn [length] in HL.
  assert (Hdiv : forall n, mean_divisor m n = JNumber (Num.ofZ n)).
  { intros n. unfold mean_divisor, ta_get. rewrite Hempty. reflexivity. }
  unfold colMean, rowMean.
  rewrite (colSum_spec m R C HR HC), (rowSum_spec m R C HR HC)
    by (try exact Hsum; rewrite Hempty; exact HL).
  cbn [mbind Result_bind]. rewrite !Hdiv, HR, HC, !Nat2Z.id, Hempty.
  split.
  - rewrite (fmap_const_seq (zero_cell (ctor (data m)))).
    + apply divide_zeros. nia.
    + intros r Hr. unfold row_cells. assert (C = 0%nat) by nia. subst C. reflexivity.
  - rewrite (fmap_const_seq (zero_cell (ctor (data m)))).
    + apply divide_zeros. nia.
    + intros j Hj. unfold column_cells. assert (R = 0%nat) by nia. subst R. reflexivity.
Qed.

Lemma mean_of_no_elements_witness :
  wf (mkMatrix i64 2 0 (mkTA i64 [])) /\ wf (mkMatrix f32 2 0 (mkTA f32 [])) /\
  colMean (mkMatrix i64 2 0 (mkTA i64 [])) = Throw TypeError /\
  rowMean (mkMatrix i64 2 0 (mkTA i64 [])) = Ok (mkTA i64 []) /\
  colMean (mkMatrix f32 2 0 (mkTA f32 []))
  = Ok (mkTA f32 [CFloat Num.NaN; CFloat Num.NaN]).
Proof.
  assert (H1 : wf (mkMatrix i64 2 0 (mkTA i64 []))) by prove_wf.
  assert (H2 : wf (mkMatrix f32 2 0 (mkTA f32 []))) by prove_wf.
  split; [exact H1|]. split; [exact H2|].
  destruct (mean_of_no_elements _ H1 eq_refl) as [Hc Hr].
  destruct (mean_of_no_elements _ H2 eq_refl) as [Hc' _].
  split; [exact Hc|]. split; [exact Hr|exact Hc'].
Defined.

(** ** The constructor *)

Lemma fmap_concat {A B} (f : A -> B) (ls : list (list A)) :
  f <$> concat ls = concat ((fun l : list A => f <$> l) <$> ls).
Proof.
  induction ls as [|l ls IH]; [reflexivity|].
  cbn [concat fmap list_fmap]. rewrite fmap_app, IH. reflexivity.
Qed.

Lemma mapM_store_load k (cs : list Cell) :
  Forall (cell_ok k) cs -> mapM (store k) (load k <$> cs) = Ok cs.
Proof.
  induction 1 as [|c cs Hc _ IH]; [reflexivity|].
  cbn [fmap list_fmap mapM]. rewrite (store_load k c Hc). cbn [mbind Result_bind].
  rewrite IH. reflexivity.
Qed.

(** X20. Convert mode undoes rows(): for every matrix of the data model with
    at least one row, building a matrix from the nested arrays of its rows
    and its kind tag gives a matrix equal to it; with no row the constructor
    throws a TypeError, as it reads the length of a first row that is not
    there. *)
Theorem nested_round_trip (m : Matrix) :
  wf m ->
  Matrix_new (ArgNested (to_nested m)) (with_dType (dType m))
  = if decide (nRows m = 0) then Throw TypeError else Ok m.
Proof.
  intros Hwf. destruct (wf_shape m Hwf) as (R & C & HR & HC & HL).
  pose proof Hwf as (_ & _ & _ & Hty & Hok).
  unfold Matrix_new, with_dType, getConstructor. cbn [cfg_dType].
  unfold to_nested. rewrite (rows_nat m R C HR HC HL).
  destruct R as [|R'].
  - rewrite decide_True by lia. reflexivity.
  - rewrite decide_False by lia.
    set (k := ctor (data m)) in *. set (cs := cells (data m)) in *.
    rewrite <- list_fmap_compose.
    assert (Hflat : concat ((fun i => load k <$> take C (drop (i * C) cs)) <$> seq 0 (S R'))
                    = load k <$> cs).
    { transitivity (load k <$> take (S R' * C) cs).
      - rewrite <- (concat_chunks cs C (S R')), fmap_concat, <- list_fmap_compose.
        reflexivity.
      - rewrite take_ge by lia. reflexivity. }
    change ((fun r => load (ctor r) <$> cells r)
              ∘ (fun i => mkTA k (take C (drop (i * C) cs))))
      with (fun i => load k <$> take C (drop (i * C) cs)).
    remember ((fun i => load k <$> take C (drop (i * C) cs)) <$> seq 0 (S R')) as nested
      eqn:Hnested.
    assert (Hlen : length nested = S R')
      by (rewrite Hnested, length_fmap, length_seq; reflexivity).
    destruct nested as [|row0 rest]; [discriminate Hlen|].
    assert (Hrow0 : length row0 = C).
    { cbn [seq fmap list_fmap] in Hnested. injection Hnested as -> _.
      rewrite length_fmap, length_take, length_drop. fold cs in HL. nia. }
    unfold ta_from. rewrite Hflat, Hty. fold k. rewrite (mapM_store_load k cs Hok).
    cbn [mbind Result_bind]. rewrite Hlen, Hrow0, <- HR, <- HC.
    destruct m as [d nr nc [kd cd]]. cbn in *. subst. reflexivity.
Qed.

Lemma nested_round_trip_witness :
  wf sample_tf /\ wf empty_u64 /\
  to_nested sample_tf = [[num 1; num 0; num 2]; [num 0; num 1; num 1]] /\
  Matrix_new (ArgNested (to_nested sample_tf)) (with_dType f64) = Ok sample_tf /\
  Matrix_new (ArgNested (to_nested empty_u64)) (with_dType u64) = Throw TypeError.
Proof.
  split; [exact wf_sample_tf|]. split; [exact wf_empty_u64|]. split; [reflexivity|].
  split.
  - apply (nested_round_trip sample_tf wf_sample_tf).
  - apply (nested_round_trip empty_u64 wf_empty_u64).
Defined.

Lemma load_zero_cell k : load k (zero_cell k) = count_in_domain k 0.
Proof. destruct k; reflexivity. Qed.

(** X21. Allocate mode: new Matrix(tag, { shape: [r, c] }) with counts that
    are not negative gives a matrix of the data model of that kind and shape
    all of whose elements read as zero (0n for u64 and i64); a shape whose
    product is negative is the typed array's RangeError. *)
Theorem Matrix_new_allocates_zeros (k : DataType) (r c : Z) :
  (0 <= r -> 0 <= c ->
   exists m, Matrix_new (ArgTag k) (with_shape r c) = Ok m /\ wf m /\
             dType m = k /\ Matrix_shape m = (r, c) /\
             forall i j, 0 <= i < r -> 0 <= j < c -> item m i j = count_in_domain k 0) /\
  (r * c < 0 -> Matrix_new (ArgTag k) (with_shape r c) = Throw RangeError).
Proof.
  unfold Matrix_new, with_shape, getConstructor, ta_new. cbn [shape]. split.
  - intros Hr Hc. destruct (Z.ltb_spec (r * c) 0); [nia|]. cbn [mbind Result_bind].
    eexists. split; [reflexivity|].
    split; [|split; [reflexivity|split; [reflexivity|]]].
    + split; [exact Hr|]. split; [exact Hc|]. split; [|split].
      * unfold layout_ok, ta_length. cbn. rewrite length_replicate. lia.
      * reflexivity.
      * unfold ta_ok. cbn. apply Forall_replicate. destruct k; cbn; repeat split; lia.
    + intros i j Hi Hj. unfold item. cbn [data nCols].
      assert (Hidx : 0 <= i * c + j < r * c) by nia.
      rewrite <- (Z2Nat.id (i * c + j)) by lia.
      rewrite (ta_get_nat _ _ (zero_cell k)) by (apply lookup_replicate_2; lia).
      apply load_zero_cell.
  - intros Hneg. destruct (Z.ltb_spec (r * c) 0); [reflexivity|lia].
Qed.

Lemma Matrix_new_allocates_zeros_witness :
  0 <= 2 /\ 0 <= 3 /\
  (exists m, Matrix_new (ArgTag u64) (with_shape 2 3) = Ok m /\ wf m /\
             item m 1 2 = JBigInt 0) /\
  Matrix_new (ArgTag u64) (with_shape (-1) 3) = Throw RangeError.
Proof.
  assert (H2 : 0 <= 2) by lia. assert (H3 : 0 <= 3) by lia.
  split; [exact H2|]. split; [exact H3|].
  destruct (Matrix_new_allocates_zeros u64 2 3) as [Hok _].
  destruct (Matrix_new_allocates_zeros u64 (-1) 3) as [_ Hneg].
  split.
  - destruct (Hok H2 H3) as (m & Hrun & Hwf & _ & _ & Hitem).
    exists m. split; [exact Hrun|]. split; [exact Hwf|]. apply Hitem; lia.
  - apply Hneg. lia.
Defined.

(** ** setCol and col *)

(** X22. For every matrix of the data model, every column index within
    bounds and every typed array v of the kind of the buffer holding nRows
    elements of that kind, setCol(c, v) returns c, and afterwards col(c) is
    v and every other column is what it was. *)
Theorem setCol_then_col (m : Matrix) (c : Z) (v : TypedArray) :
  wf m -> 0 <= c < nCols m ->
  ctor v = ctor (data m) -> ta_length v = nRows m -> ta_ok v ->
  exists m', setCol m c (Typed v) = (Ok c, m') /\
             Matrix_shape m' = Matrix_shape m /\
             col m' c = Ok v /\
             forall c', 0 <= c' < nCols m -> c' <> c -> col m' c' = col m c'.
Proof.
  intros Hwf Hc Hk Hlen Hv. destruct (wf_shape m Hwf) as (R & C & HR & HC & HL).
  pose proof Hwf as (_ & _ & _ & _ & Hok).
  unfold ta_length in Hlen. assert (HlenR : length (cells v) = R) by lia.
  set (k := ctor (data m)) in *.
  assert (Hvi : forall i, (i < R)%nat -> cells v !! i = Some (cells v !!! i)).
  { intros i Hi. apply lookup_total_in. lia. }
  destruct (setCol_spec m R C (Z.to_nat c) (Typed v) (fun i => cells v !!! i) HR HC HL
              ltac:(lia)) as (a & Hrun & Hka & Hla & Ha).
  { intros i Hi. cbn [al_get]. rewrite (ta_get_nat v i _ (Hvi i Hi)), Hk.
    apply store_load. rewrite <- Hk. eapply (Forall_lookup_1 _ _ _ _ Hv), Hvi, Hi. }
  rewrite Z2Nat.id in Hrun by lia.
  set (m' := with_data m a) in *.
  assert (Hok' : ta_ok (data m')).
  { unfold ta_ok. cbn [m' with_data data]. rewrite Hka. apply Forall_lookup_2.
    intros p x Hp.
    assert (Hlt : (p < R * C)%nat) by (rewrite <- Hla; eapply lookup_lt_Some, Hp).
    destruct (index_split R C p Hlt) as (i & j & Hi & Hj & ->).
    rewrite Ha in Hp by assumption. destruct (decide (j = Z.to_nat c)).
    - injection Hp as <-. fold k. rewrite <- Hk.
      eapply (Forall_lookup_1 _ _ _ _ Hv), Hvi, Hi.
    - eapply (Forall_lookup_1 _ _ _ _ Hok Hp). }
  assert (Hcol : forall j, (j < C)%nat ->
            col m' (Z.of_nat j)
            = Ok (mkTA k ((fun i => cells a !!! (i * C + j)%nat) <$> seq 0 R))).
  { intros j Hj.
    pose proof (col_nat m' R C j HR HC Hla Hok' Hj) as H.
    cbn [m' with_data data] in H. rewrite Hka in H. exact H. }
  exists m'. split; [exact Hrun|]. split; [reflexivity|]. split.
  - rewrite <- (Z2Nat.id c) by lia. rewrite Hcol by lia. f_equal.
    destruct v as [kv cv]. cbn [ctor cells] in *. subst kv. f_equal.
    apply list_eq_same_length with R;
      [exact HlenR|rewrite length_fmap, length_seq; reflexivity|].
    intros i x y Hi Hx Hy.
    rewrite list_lookup_fmap, lookup_seq_lt in Hx by exact Hi. simpl in Hx.
    injection Hx as <-.
    specialize (Ha i (Z.to_nat c) Hi ltac:(lia)). rewrite decide_True in Ha by reflexivity.
    rewrite (list_lookup_total_correct _ _ _ Ha).
    rewrite Hvi in Hy by exact Hi. congruence.
  - intros c' Hc' Hne. rewrite <- (Z2Nat.id c') by lia.
    rewrite Hcol, (col_nat m R C) by (try assumption; lia). fold k. do 2 f_equal.
    apply list_fmap_ext. intros p i Hi. apply lookup_seq in Hi as [-> Hi].
    cbn [Nat.add]. apply lookup_total_eq.
    rewrite Ha by lia. rewrite decide_False by lia. reflexivity.
Qed.

Lemma setCol_then_col_witness :
  wf sample_i16 /\ 0 <= 1 < nCols sample_i16 /\ ta_ok (mkTA i16 [CInt 7; CInt 8]) /\
  exists m', setCol sample_i16 1 (Typed (mkTA i16 [CInt 7; CInt 8])) = (Ok 1, m') /\
             col m' 1 = Ok (mkTA i16 [CInt 7; CInt 8]) /\
             col m' 0 = col sample_i16 0 /\
             cells (data m') = [CInt 1; CInt 7; CInt 3; CInt 4; CInt 8; CInt 6].
Proof.
  assert (Hc : 0 <= 1 < nCols sample_i16) by (simpl; lia).
  assert (Hv : ta_ok (mkTA i16 [CInt 7; CInt 8]))
    by (repeat constructor; cbn; lia).
  split; [exact wf_sample_i16|]. split; [exact Hc|]. split; [exact Hv|].
  destruct (setCol_then_col sample_i16 1 (mkTA i16 [CInt 7; CInt 8])
              wf_sample_i16 Hc eq_refl eq_refl Hv) as (m' & Hrun & _ & Hcol & Hother).
  exists m'. split; [exact Hrun|]. split; [exact Hcol|]. split.
  - apply Hother; simpl; lia.
  - vm_compute in Hrun. injection Hrun as <-. reflexivity.
Defined.

(** ** fit and multiplyDiags on whole matrices *)

(** X23. fit returns on every matrix of the data model, of any of the ten
    kinds: it never throws, replaces whatever idf the transformer had by a
    Float64Array of nCols entries, and answers with the transformer. *)
Theorem fit_never_throws (ln : Number -> Number) (t : TfIdfTransformer) (m : Matrix) :
  wf m ->
  exists v, fit ln t m = (Ok This, mkTfIdf (Some v)) /\
            ctor v = f64 /\ ta_length v = nCols m /\
            exists freq, rowSum m = Ok freq /\ v = idf_of ln (nRows m) freq.
Proof.
  intros Hwf. destruct (wf_shape m Hwf) as (R & C & HR & HC & HL).
  pose proof (rowSum_spec m R C HR HC HL (wf_summable m Hwf)) as Hsum.
  rewrite fit_unfold, Hsum. eexists. split; [reflexivity|].
  split; [reflexivity|]. split.
  - unfold ta_length, idf_of. cbn [cells]. rewrite !length_fmap, length_seq. lia.
  - eexists. split; reflexivity.
Qed.

Lemma fit_never_throws_witness :
  wf sample_i64 /\
  exists v, fit (fun x => x) (TfIdfTransformer_new None) sample_i64
            = (Ok This, mkTfIdf (Some v)) /\
            ctor v = f64 /\ ta_length v = 2.
Proof.
  split; [exact wf_sample_i64|].
  destruct (fit_never_throws (fun x => x) (TfIdfTransformer_new None) sample_i64
              wf_sample_i64) as (v & Hrun & Hk & Hlen & _).
  exists v. split; [exact Hrun|]. split; [exact Hk|exact Hlen].
Defined.

(** X24. multiplyDiags cannot scale a bigint matrix: for every matrix of the
    data model of kind u64 or i64 with at least one element and every
    vector with at least one entry, of whatever kind, multiplyDiags throws a
    TypeError: a bigint times a number is one, and a bigint product stored
    into the Float64Array result is one. *)
Theorem multiplyDiags_bigint_throws (x : Matrix) (y : TypedArray) :
  wf x -> is_wide (ctor (data x)) = true ->
  0 < nRows x -> 0 < nCols x -> 0 < ta_length y ->
  multiplyDiags x y = Throw TypeError.
Proof.
  intros Hwf Hw HR0 HC0 Hy. destruct (wf_shape x Hwf) as (R & C & HR & HC & HL).
  pose proof Hwf as (_ & _ & _ & _ & Hok).
  unfold multiplyDiags, multiplyDiags_alloc. rewrite (ta_length_nat (data x)), ta_new_nat.
  cbn [mbind Result_bind Matrix_new with_shape shape].
  unfold ta_length in *. rewrite HR.
  destruct R as [|R']; [lia|]. destruct (length (cells y)) as [|Y'] eqn:HY; [lia|].
  rewrite (seqZ_head R'). cbn [foldM]. rewrite (seqZ_head Y'). cbn [foldM].
  assert (Hin : (0 < length (cells (data x)))%nat) by (rewrite HL; nia).
  destruct (lookup_lt_is_Some_2 _ _ Hin) as [c0 Hc0].
  pose proof (Forall_lookup_1 _ _ _ _ Hok Hc0) as Hcok.
  unfold item. rewrite !Z.mul_0_l, !Z.add_0_l. change 0 with (Z.of_nat 0).
  rewrite (ta_get_nat (data x) 0 c0 Hc0).
  destruct c0 as [a|f]; [|destruct (ctor (data x)); try discriminate Hw; contradiction].
  unfold load. rewrite Hw.
  destruct (ta_get y (Z.of_nat 0)) as [f|b|]; reflexivity.
Qed.

Lemma multiplyDiags_bigint_throws_witness :
  wf sample_i64 /\ multiplyDiags sample_i64 (ones 2) = Throw TypeError /\
  multiplyDiags sample_i64 (mkTA i64 [CInt 1; CInt 1]) = Throw TypeError.
Proof.
  split; [exact wf_sample_i64|]. split.
  - apply (multiplyDiags_bigint_throws sample_i64 (ones 2) wf_sample_i64);
      [reflexivity|simpl; lia|simpl; lia|unfold ta_length; simpl; lia].
  - apply (multiplyDiags_bigint_throws sample_i64 (mkTA i64 [CInt 1; CInt 1]) wf_sample_i64);
      [reflexivity|simpl; lia|simpl; lia|unfold ta_length; simpl; lia].
Defined.

(** ** The pipeline of sparse/tf_idf_transformer.ts *)

Lemma foldM_ext_in {A S} (f g : S -> A -> Result S) l s :
  (forall s x, x ∈ l -> f s x = g s x) -> foldM f l s = foldM g l s.
Proof.
  revert s. induction l as [|x l IH]; intros s H; [reflexivity|].
  cbn [foldM]. rewrite (H s x) by left.
  destruct (g s x) as [s'|e]; [|reflexivity]. cbn [mbind Result_bind].
  apply IH. intros s0 y Hy. apply H. right. exact Hy.
Qed.

(** On a vector of numbers the quotient by [freq[i]] is the quotient by
    [Number(freq[i])]: the two versions of [fit] compute the same. *)
Lemma fit_sparse_loop_number (ln : Number -> Number) samples (freq idf0 : TypedArray) :
  is_wide (ctor freq) = false ->
  fit_sparse_loop ln samples freq idf0 = fit_loop ln samples freq idf0.
Proof.
  intros Hw. unfold fit_sparse_loop, fit_loop. apply foldM_ext_in. intros idf i _.
  pose proof (ta_get_number freq i Hw) as Hn.
  destruct (ta_get freq i) as [x|z|]; [reflexivity|discriminate Hn|reflexivity].
Qed.

(** X25. The pipeline of sparse/tf_idf_transformer.ts on a matrix of
    numbers. For every matrix of the data model whose elements are numbers,
    fit returns and stores idf[j] = ln(nRows / freq[j]) + 1, freq being
    rowSum of the matrix, and transform on the same matrix then returns a
    new Float64Array matrix of the same shape whose element (i, j) is
    x[i][j] * (ln(nRows / freq[j]) + 1), leaving the fitted transformer as
    it is. *)
Theorem fit_then_transform (ln : Number -> Number) (t : TfIdfTransformer) (m : Matrix) :
  wf m -> is_wide (ctor (data m)) = false ->
  exists freq res,
    rowSum m = Ok freq /\
    fit_sparse ln t m = (Ok This, mkTfIdf (Some (idf_of ln (nRows m) freq))) /\
    transform (fit_sparse ln t m).2 m = (Ok res, (fit_sparse ln t m).2) /\
    Matrix_shape res = Matrix_shape m /\ dType res = f64 /\ layout_ok res /\
    forall i j, 0 <= i < nRows m -> 0 <= j < nCols m ->
      cell_at res i j
      = Some (CFloat (Num.mul (number_at m i j)
                        (Num.add (ln (Num.div (Num.ofZ (nRows m))
                                        (js_Number (ta_get freq j))))
                           (Num.ofZ 1)))).
Proof.
  intros Hwf Hw. destruct (wf_shape m Hwf) as (R & C & HR & HC & HL).
  pose proof (rowSum_spec m R C HR HC HL (wf_summable m Hwf)) as Hsum.
  set (freq := mkTA (ctor (data m))
                 ((fun j => accumulate (ctor (data m))
                              (column_cells (cells (data m)) R C j)) <$> seq 0 C)) in *.
  assert (HlenF : length (cells freq) = C)
    by (unfold freq; cbn [cells]; rewrite length_fmap, length_seq; reflexivity).
  set (y := idf_of ln (nRows m) freq).
  assert (HlenY : length (cells y) = C)
    by (unfold y, idf_of; cbn [cells]; rewrite length_fmap; exact HlenF).
  assert (Hfit : fit_sparse ln t m = (Ok This, mkTfIdf (Some y))).
  { unfold fit_sparse. rewrite Hsum. cbn [mbind Result_bind].
    rewrite ta_length_nat, ta_new_nat. cbn [mbind Result_bind].
    rewrite (fit_sparse_loop_number ln _ freq _ Hw), fit_loop_spec. reflexivity. }
  destruct (multiplyDiags_spec m y R C HR HC HL Hw eq_refl) as (a & Hrun & Hlen & Ha).
  exists freq, (mkMatrix f64 (Z.of_nat R) (Z.of_nat C) (mkTA f64 a)).
  split; [exact Hsum|]. split; [exact Hfit|]. rewrite Hfit. cbn [snd].
  unfold transform. cbn [idf]. rewrite Hrun.
  split; [reflexivity|]. split; [unfold Matrix_shape; cbn; congruence|].
  split; [reflexivity|].
  split; [unfold layout_ok, ta_length; cbn; rewrite Hlen; lia|].
  intros i j Hi Hj.
  assert (HjC : (Z.to_nat j < C)%nat) by lia.
  rewrite <- (Z2Nat.id i) at 1 by lia. rewrite <- (Z2Nat.id j) at 1 by lia.
  rewrite (cell_at_nat _ C) by reflexivity. cbn [data cells].
  rewrite Ha by lia. rewrite decide_True by lia. rewrite !Z2Nat.id by lia.
  do 3 f_equal.
  destruct (lookup_lt_is_Some_2 (cells freq) (Z.to_nat j)) as [fc Hfc]; [lia|].
  rewrite <- (Z2Nat.id j) by lia.
  rewrite (ta_get_nat freq _ fc Hfc).
  rewrite (ta_get_nat y _ (CFloat (Num.add (ln (Num.div (Num.ofZ (nRows m))
                                                  (js_Number (load (ctor freq) fc))))
                                     (Num.ofZ 1)))).
  - reflexivity.
  - unfold y, idf_of. cbn [cells]. rewrite list_lookup_fmap, Hfc. reflexivity.
Qed.

Lemma fit_then_transform_witness :
  wf sample_tf /\
  exists freq res,
    rowSum sample_tf = Ok freq /\
    cells freq = [fnum 1; fnum 1; fnum 3] /\
    transform (fit_sparse (fun x => x) (TfIdfTransformer_new None) sample_tf).2 sample_tf
    = (Ok res, (fit_sparse (fun x => x) (TfIdfTransformer_new None) sample_tf).2) /\
    cell_at res 0 2
    = Some (CFloat (Num.mul (Num.ofZ 2)
                      (Num.add (Num.div (Num.ofZ 2) (Num.ofZ 3)) (Num.ofZ 1)))).
Proof.
  split; [exact wf_sample_tf|].
  destruct (fit_then_transform (fun x => x) (TfIdfTransformer_new None) sample_tf
              wf_sample_tf eq_refl)
    as (freq & res & Hsum & _ & Hrun & _ & _ & _ & Hcell).
  exists freq, res. split; [exact Hsum|].
  assert (Hf : freq = mkTA f64 [fnum 1; fnum 1; fnum 3]).
  { vm_compute in Hsum. injection Hsum as <-. reflexivity. }
  split; [rewrite Hf; reflexivity|]. split; [exact Hrun|].
  rewrite (Hcell 0 2) by (simpl; lia). rewrite Hf. reflexivity.
Defined.
